(** * azox-mc player-data tools: a shallow embedding and its properties

    The development follows the Python sources:

    - [tools/nbtworks/nbt_lib.py]: the hand-written NBT codec
      ([NBTReader], [NBTWriter]), the usercache and player-file helpers
      and the give-command parser;
    - [tools/bad/mcplayer/nbtcore.py], [tools/bad/mcplayer2.py],
      [tools/bad/nbtviewer.py], [tools/bad/mcplayer/panels.py]: the
      nbtlib-based editors with the undo chain, the backup, the free-slot
      search and the slot-indexed replacement.

    Definitions come first (part I), the properties after them (part II). *)

From Stdlib Require Import ZArith Lia Ascii String.
From Stdlib.Strings Require Import Byte.
From stdpp Require Import base option list sorting gmap strings pretty.

Local Open Scope Z_scope.

(* ===================================================================== *)
(** * Part I: definitions                                                 *)
(* ===================================================================== *)

(** ** Exceptions and results

    A Python call either returns or raises.  Functions whose Python
    original loops without a bound take a fuel argument and answer
    [NoFuel] when it runs out. *)

Inductive exn : Type :=
  | StructError          (* struct.error *)
  | ValueError
  | UnicodeDecodeError   (* a subclass of ValueError, kept apart *)
  | JSONDecodeError      (* a subclass of ValueError, kept apart *)
  | FileNotFoundError
  | AttributeError
  | TypeError
  | IndexError
  | OutOfRange.          (* nbtlib's OutOfRange *)

Inductive res (A : Type) : Type :=
  | Ok (a : A)
  | Err (e : exn)
  | NoFuel.

Arguments Ok {A} a.
Arguments Err {A} e.
Arguments NoFuel {A}.

#[global] Instance res_ret : MRet res := fun A a => Ok a.
#[global] Instance res_bind : MBind res := fun A B f m =>
  match m with
  | Ok a => f a
  | Err e => Err e
  | NoFuel => NoFuel
  end.

(** The call raised. *)
Definition is_err {A} (r : res A) : Prop := exists e, r = Err e.

#[global] Instance byte_eq_dec : EqDecision byte := Byte.byte_eq_dec.

(** ** Bytes, Python slices and [struct] *)

Module Struct.

Definition Z_of_byte (b : byte) : Z := Z.of_N (Byte.to_N b).

Definition byte_of_Z (z : Z) : byte :=
  match Byte.of_N (Z.to_N (z mod 256)) with
  | Some b => b
  | None => x00
  end.

(** [n] bytes, most significant first, of [z] modulo [256^n]. *)
Fixpoint be_bytes (n : nat) (z : Z) : list byte :=
  match n with
  | O => []
  | S n' => byte_of_Z (z / 256 ^ Z.of_nat n') :: be_bytes n' z
  end.

(** The unsigned value of a big-endian byte string. *)
Definition be_value (bs : list byte) : Z :=
  fold_left (fun acc b => acc * 256 + Z_of_byte b) bs 0.

(** Two's complement reading of a [w]-bit unsigned value. *)
Definition to_signed (w : Z) (u : Z) : Z :=
  if u <? 2 ^ (w - 1) then u else u - 2 ^ w.

(** [struct.pack('>b' | '>h' | '>i' | '>q', val)]: [n] is the width in
    bytes; a value outside the signed range raises [struct.error]. *)
Definition pack_signed (n : nat) (val : Z) : res (list byte) :=
  let w := 8 * Z.of_nat n in
  if (- 2 ^ (w - 1) <=? val) && (val <? 2 ^ (w - 1))
  then Ok (be_bytes n val)
  else Err StructError.

(** [struct.pack('>B', val)]. *)
Definition pack_unsigned (n : nat) (val : Z) : res (list byte) :=
  let w := 8 * Z.of_nat n in
  if (0 <=? val) && (val <? 2 ^ w)
  then Ok (be_bytes n val)
  else Err StructError.

(** [struct.unpack(fmt, bs)[0]]: the buffer must have exactly the width
    of the format. *)
Definition unpack_unsigned (n : nat) (bs : list byte) : res Z :=
  if decide (length bs = n) then Ok (be_value bs) else Err StructError.

Definition unpack_signed (n : nat) (bs : list byte) : res Z :=
  u ← unpack_unsigned n bs; Ok (to_signed (8 * Z.of_nat n) u).

(** An index of a Python slice, brought into [0 .. len]: a negative index
    counts from the end. *)
Definition clamp_index (len i : Z) : Z :=
  if i <? 0 then Z.max 0 (i + len) else Z.min i len.

(** [data[start:stop]]. *)
Definition py_slice {A} (data : list A) (start stop : Z) : list A :=
  let len := Z.of_nat (length data) in
  let lo := clamp_index len start in
  let hi := clamp_index len stop in
  take (Z.to_nat (hi - lo)) (drop (Z.to_nat lo) data).

End Struct.

(** ** Python [str] methods

    A [str] is held as the [string] of its UTF-8 bytes.  The methods below
    look for ASCII delimiters and for white space only; an ASCII byte never
    occurs inside a multi-byte character, so scanning bytes and scanning
    code points cut a string at the same places. *)

Module PyStr.
Local Open Scope N_scope.

Definition code (c : ascii) : N := N_of_ascii c.

(** White space in the sense of [str.isspace], by UTF-8 length:
    U+0009-000D, U+001C-001F, U+0020; U+0085, U+00A0; U+1680,
    U+2000-200A, U+2028, U+2029, U+202F, U+205F, U+3000. *)
Definition space1 (c : ascii) : bool :=
  (9 <=? code c) && (code c <=? 13) || (28 <=? code c) && (code c <=? 32).

Definition space2 (c1 c2 : ascii) : bool :=
  (code c1 =? 194) && ((code c2 =? 133) || (code c2 =? 160)).

Definition space3 (c1 c2 c3 : ascii) : bool :=
  (code c1 =? 225) && (code c2 =? 154) && (code c3 =? 128)
  || (code c1 =? 226) && (code c2 =? 128)
     && ((128 <=? code c3) && (code c3 <=? 138) || (code c3 =? 168)
         || (code c3 =? 169) || (code c3 =? 175))
  || (code c1 =? 226) && (code c2 =? 129) && (code c3 =? 159)
  || (code c1 =? 227) && (code c2 =? 128) && (code c3 =? 128).

(** Does [s] begin with a white-space character? *)
Definition starts_with_space (s : string) : bool :=
  match s with
  | String c1 (String c2 (String c3 _)) =>
      space1 c1 || space2 c1 c2 || space3 c1 c2 c3
  | String c1 (String c2 _) => space1 c1 || space2 c1 c2
  | String c1 _ => space1 c1
  | EmptyString => false
  end.

(** [s.lstrip()].  With [rev = true] the bytes of each character are
    expected in reverse order: this serves [rstrip]. *)
Fixpoint lstrip_gen (rev : bool) (s : string) : string :=
  match s with
  | String c1 r1 =>
      if space1 c1 then lstrip_gen rev r1
      else
        match r1 with
        | String c2 r2 =>
            if (if rev then space2 c2 c1 else space2 c1 c2)
            then lstrip_gen rev r2
            else
              match r2 with
              | String c3 r3 =>
                  if (if rev then space3 c3 c2 c1 else space3 c1 c2 c3)
                  then lstrip_gen rev r3
                  else s
              | EmptyString => s
              end
        | EmptyString => s
        end
  | EmptyString => s
  end.

Definition lstrip (s : string) : string := lstrip_gen false s.
Definition rstrip (s : string) : string :=
  String.rev (lstrip_gen true (String.rev s)).
Definition strip (s : string) : string := rstrip (lstrip s).

Definition startswith (s p : string) : bool := String.prefix p s.
Definition endswith (s p : string) : bool :=
  String.prefix (String.rev p) (String.rev s).

(** [s[n:]] and [s[:n]] for [0 <= n], counted in bytes: used where the
    bytes skipped or kept are known to be ASCII. *)
Definition slice_from (n : nat) (s : string) : string :=
  String.substring n (String.length s - n) s.
Definition slice_to (n : nat) (s : string) : string :=
  String.substring 0 n s.

(** [s[:-n]] where the last [n] characters are ASCII. *)
Definition drop_end (n : nat) (s : string) : string :=
  slice_to (String.length s - n) s.

(** [s[:-1]]: the last character may take several bytes, its
    continuation bytes being those in 0x80-0xBF. *)
Fixpoint drop_first_char_rev (s : string) : string :=
  match s with
  | String c r =>
      if (128 <=? code c) && (code c <=? 191) then drop_first_char_rev r
      else r
  | EmptyString => s
  end.
Definition drop_last_char (s : string) : string :=
  String.rev (drop_first_char_rev (String.rev s)).

(** [c in s], [s.count(c)] for a one-byte [c]. *)
Fixpoint contains (c : ascii) (s : string) : bool :=
  match s with
  | String c' r => Ascii.eqb c' c || contains c r
  | EmptyString => false
  end.

Fixpoint count (c : ascii) (s : string) : nat :=
  match s with
  | String c' r => ((if Ascii.eqb c' c then 1 else 0) + count c r)%nat
  | EmptyString => O
  end.

(** [s.split(c, 1)] when [c in s]: the text before the first [c] and the
    text after it. *)
Fixpoint split_once (c : ascii) (s : string) : string * string :=
  match s with
  | String c' r =>
      if Ascii.eqb c' c then (EmptyString, r)
      else let '(a, b) := split_once c r in (String c' a, b)
  | EmptyString => (EmptyString, EmptyString)
  end.

(** [s.rfind(c)], as a byte offset; [None] for Python's -1. *)
Fixpoint rfind (c : ascii) (s : string) : option nat :=
  match s with
  | String c' r =>
      match rfind c r with
      | Some i => Some (S i)
      | None => if Ascii.eqb c' c then Some O else None
      end
  | EmptyString => None
  end.

(** The longest prefix free of white space, and the rest. *)
Fixpoint break_space (s : string) : string * string :=
  match s with
  | String c r =>
      if starts_with_space s then (EmptyString, s)
      else let '(a, b) := break_space r in (String c a, b)
  | EmptyString => (EmptyString, EmptyString)
  end.

(** [s.split(None, 1)]. *)
Definition split_space_once (s : string) : list string :=
  let s := lstrip s in
  if decide (s = EmptyString) then []
  else
    let '(first, rest) := break_space s in
    let rest := lstrip rest in
    if decide (rest = EmptyString) then [first] else [first; rest].

(** [s.split()]: every word is non-empty, so [length s] rounds suffice. *)
Fixpoint split_space_go (n : nat) (s : string) : list string :=
  match n with
  | O => []
  | S n' =>
      let s := lstrip s in
      if decide (s = EmptyString) then []
      else let '(word, rest) := break_space s in
           word :: split_space_go n' rest
  end.
Definition split_space (s : string) : list string :=
  split_space_go (String.length s) s.

(** ["uuid" in e] for strings: a substring test. *)
Fixpoint has_substring (p s : string) : bool :=
  String.prefix p s ||
  match s with
  | String _ r => has_substring p r
  | EmptyString => false
  end.

(** [s.replace(c, "")] for a one-byte [c]. *)
Fixpoint remove (c : ascii) (s : string) : string :=
  match s with
  | String c' r => if Ascii.eqb c' c then remove c r else String c' (remove c r)
  | EmptyString => EmptyString
  end.

End PyStr.

(** ** The search loop over a range

    [for s in range(0, n): if s not in occupied: return s], followed by
    [return None] (or by leaving the result [None]).  The loop occurs in
    [find_next_free_slot], in the ender-chest panel and in
    [handle_give_item]; [s] is the value the loop is about to try and [n]
    the number of values left. *)

Fixpoint first_free (occupied : Z -> bool) (s : Z) (n : nat) : option Z :=
  match n with
  | O => None
  | S n' => if occupied s then first_free occupied (s + 1) n' else Some s
  end.

(** ** The NBT codec of [nbt_lib.py] *)

Module NbtLib.
Import Struct.

(** A Python [str] is represented by its UTF-8 encoding, held in a
    [string] (one [ascii] per byte).  A [str] with a lone surrogate has no
    UTF-8 encoding and is outside this representation. *)
Abbreviation pystr := string.

(** The values the reader produces and the writer accepts.  A Python
    [float] is represented by its IEEE-754 binary64 bit pattern; a [dict]
    by its items in insertion order. *)
#[local] Unset Elimination Schemes.
Inductive pyval : Type :=
  | PNone
  | PBool (b : bool)
  | PInt (z : Z)
  | PFloat (bits : Z)
  | PStr (s : pystr)
  | PList (l : list pyval)
  | PDict (d : list (pystr * pyval)).
#[local] Set Elimination Schemes.

(** Induction on a value, with the hypothesis for every element of a
    list and every value of a dict. *)
Section PyvalInd.
Variable P : pyval -> Prop.
Hypothesis HNone : P PNone.
Hypothesis HBool : forall b, P (PBool b).
Hypothesis HInt : forall z, P (PInt z).
Hypothesis HFloat : forall bits, P (PFloat bits).
Hypothesis HStr : forall s, P (PStr s).
Hypothesis HList : forall l, Forall P l -> P (PList l).
Hypothesis HDict : forall d, Forall (fun kv => P (snd kv)) d -> P (PDict d).

Fixpoint pyval_ind (v : pyval) : P v :=
  match v with
  | PNone => HNone
  | PBool b => HBool b
  | PInt z => HInt z
  | PFloat bits => HFloat bits
  | PStr s => HStr s
  | PList l =>
      HList l ((fix all (l : list pyval) : Forall P l :=
                  match l with
                  | [] => List.Forall_nil P
                  | x :: l' => @List.Forall_cons _ P x l' (pyval_ind x) (all l')
                  end) l)
  | PDict d =>
      HDict d ((fix all (d : list (pystr * pyval))
                  : Forall (fun kv => P (snd kv)) d :=
                  match d with
                  | [] => List.Forall_nil _
                  | kv :: d' =>
                      @List.Forall_cons _ (fun kv => P (snd kv)) kv d'
                        (pyval_ind (snd kv)) (all d')
                  end) d)
  end.
End PyvalInd.

(** [d.get(k, default)] *)
Fixpoint dict_get (d : list (pystr * pyval)) (k : pystr) (default : pyval)
  : pyval :=
  match d with
  | [] => default
  | (k', v) :: d' => if decide (k' = k) then v else dict_get d' k default
  end.

(** [d[k] = v]: an existing key keeps its place. *)
Fixpoint dict_set (d : list (pystr * pyval)) (k : pystr) (v : pyval)
  : list (pystr * pyval) :=
  match d with
  | [] => [(k, v)]
  | (k', v') :: d' =>
      if decide (k' = k) then (k', v) :: d' else (k', v') :: dict_set d' k v
  end.

(** What [struct.unpack('>f', ..)] hands to Python: the binary64 pattern
    of the binary32 value read.  The conversion belongs to the platform,
    not to the repository. *)
Class Float32 := float32_widen : Z -> Z.

(** Strict UTF-8, as [bytes.decode('utf-8')] checks it. *)
Definition in_range (lo hi : Z) (b : byte) : bool :=
  (lo <=? Z_of_byte b) && (Z_of_byte b <=? hi).

Fixpoint utf8_valid (bs : list byte) : bool :=
  match bs with
  | [] => true
  | b0 :: r0 =>
      let c0 := Z_of_byte b0 in
      if c0 <? 128 then utf8_valid r0
      else if (194 <=? c0) && (c0 <=? 223) then
        match r0 with
        | b1 :: r1 => in_range 128 191 b1 && utf8_valid r1
        | _ => false
        end
      else if (224 <=? c0) && (c0 <=? 239) then
        match r0 with
        | b1 :: b2 :: r2 =>
            in_range (if c0 =? 224 then 160 else 128)
                     (if c0 =? 237 then 159 else 191) b1
            && in_range 128 191 b2 && utf8_valid r2
        | _ => false
        end
      else if (240 <=? c0) && (c0 <=? 244) then
        match r0 with
        | b1 :: b2 :: b3 :: r3 =>
            in_range (if c0 =? 240 then 144 else 128)
                     (if c0 =? 244 then 143 else 191) b1
            && in_range 128 191 b2 && in_range 128 191 b3 && utf8_valid r3
        | _ => false
        end
      else false
  end.

Definition decode_utf8 (bs : list byte) : res pystr :=
  if utf8_valid bs then Ok (string_of_list_byte bs)
  else Err UnicodeDecodeError.

Definition TAG_End : Z := 0.
Definition TAG_Byte : Z := 1.
Definition TAG_Short : Z := 2.
Definition TAG_Int : Z := 3.
Definition TAG_Long : Z := 4.
Definition TAG_Float : Z := 5.
Definition TAG_Double : Z := 6.
Definition TAG_Byte_Array : Z := 7.
Definition TAG_String : Z := 8.
Definition TAG_List : Z := 9.
Definition TAG_Compound : Z := 10.
Definition TAG_Int_Array : Z := 11.
Definition TAG_Long_Array : Z := 12.

(** *** NBTReader

    [self.data] is the argument [data]; [self.pos] is threaded: a read
    takes the position and returns the value with the new position. *)

Section Reader.
Context `{!Float32}.
Variable data : list byte.

Definition read_byte (pos : Z) : res (Z * Z) :=
  val ← unpack_signed 1 (py_slice data pos (pos + 1)); Ok (val, pos + 1).

Definition read_ubyte (pos : Z) : res (Z * Z) :=
  val ← unpack_unsigned 1 (py_slice data pos (pos + 1)); Ok (val, pos + 1).

Definition read_short (pos : Z) : res (Z * Z) :=
  val ← unpack_signed 2 (py_slice data pos (pos + 2)); Ok (val, pos + 2).

Definition read_int (pos : Z) : res (Z * Z) :=
  val ← unpack_signed 4 (py_slice data pos (pos + 4)); Ok (val, pos + 4).

Definition read_long (pos : Z) : res (Z * Z) :=
  val ← unpack_signed 8 (py_slice data pos (pos + 8)); Ok (val, pos + 8).

Definition read_float (pos : Z) : res (Z * Z) :=
  val ← unpack_unsigned 4 (py_slice data pos (pos + 4));
  Ok (float32_widen val, pos + 4).

Definition read_double (pos : Z) : res (Z * Z) :=
  val ← unpack_unsigned 8 (py_slice data pos (pos + 8)); Ok (val, pos + 8).

Definition read_string (pos : Z) : res (pystr * Z) :=
  '(length, pos) ← read_short pos;
  val ← decode_utf8 (py_slice data pos (pos + length));
  Ok (val, pos + length).

(** [[rd() for _ in range(n)]]. *)
Fixpoint read_n {A} (rd : Z -> res (A * Z)) (n : nat) (pos : Z)
  : res (list A * Z) :=
  match n with
  | O => Ok ([], pos)
  | S n' =>
      '(x, pos) ← rd pos;
      '(xs, pos) ← read_n rd n' pos;
      Ok (x :: xs, pos)
  end.

Definition read_ints (rd : Z -> res (Z * Z)) (pos : Z) : res (pyval * Z) :=
  '(length, pos) ← read_int pos;
  '(xs, pos) ← read_n rd (Z.to_nat length) pos;
  Ok (PList (PInt <$> xs), pos).

Fixpoint read_tag (fuel : nat) (tag_type : Z) (pos : Z) {struct fuel}
  : res (pyval * Z) :=
  match fuel with
  | O => NoFuel
  | S fuel' =>
      if tag_type =? TAG_End then Ok (PNone, pos)
      else if tag_type =? TAG_Byte then
        '(v, pos) ← read_byte pos; Ok (PInt v, pos)
      else if tag_type =? TAG_Short then
        '(v, pos) ← read_short pos; Ok (PInt v, pos)
      else if tag_type =? TAG_Int then
        '(v, pos) ← read_int pos; Ok (PInt v, pos)
      else if tag_type =? TAG_Long then
        '(v, pos) ← read_long pos; Ok (PInt v, pos)
      else if tag_type =? TAG_Float then
        '(v, pos) ← read_float pos; Ok (PFloat v, pos)
      else if tag_type =? TAG_Double then
        '(v, pos) ← read_double pos; Ok (PFloat v, pos)
      else if tag_type =? TAG_Byte_Array then read_ints read_byte pos
      else if tag_type =? TAG_String then
        '(v, pos) ← read_string pos; Ok (PStr v, pos)
      else if tag_type =? TAG_List then
        '(list_type, pos) ← read_ubyte pos;
        '(length, pos) ← read_int pos;
        '(xs, pos) ← read_n (read_tag fuel' list_type) (Z.to_nat length) pos;
        Ok (PList xs, pos)
      else if tag_type =? TAG_Compound then
        '(d, pos) ← read_compound fuel' [] pos; Ok (PDict d, pos)
      else if tag_type =? TAG_Int_Array then read_ints read_int pos
      else if tag_type =? TAG_Long_Array then read_ints read_long pos
      else Ok (PNone, pos)
  end
with read_compound (fuel : nat) (compound : list (pystr * pyval)) (pos : Z)
  {struct fuel} : res (list (pystr * pyval) * Z) :=
  match fuel with
  | O => NoFuel
  | S fuel' =>
      '(tag_type, pos) ← read_ubyte pos;
      if tag_type =? TAG_End then Ok (compound, pos)
      else
        '(name, pos) ← read_string pos;
        '(v, pos) ← read_tag fuel' tag_type pos;
        read_compound fuel' (dict_set compound name v) pos
  end.

Definition read_root (fuel : nat) : res pyval :=
  '(tag_type, pos) ← read_ubyte 0;
  if negb (tag_type =? TAG_Compound) then Err ValueError
  else
    '(name, pos) ← read_string pos;
    '(d, pos) ← read_compound fuel [] pos;
    Ok (PDict d).

End Reader.

(** *** NBTWriter

    [self.data] only grows: a write returns the bytes it appends.
    [write_tag] returns the tag type together with the writer closure;
    the closure is the (not yet sequenced) result of running it, so an
    exception inside it is raised where the closure is called. *)

Definition write_byte (val : Z) : res (list byte) := pack_signed 1 val.
Definition write_ubyte (val : Z) : res (list byte) := pack_unsigned 1 val.
Definition write_short (val : Z) : res (list byte) := pack_signed 2 val.
Definition write_int (val : Z) : res (list byte) := pack_signed 4 val.
Definition write_long (val : Z) : res (list byte) := pack_signed 8 val.
Definition write_double (bits : Z) : res (list byte) := Ok (be_bytes 8 bits).

Definition write_string (val : pystr) : res (list byte) :=
  let encoded := list_byte_of_string val in
  h ← write_short (Z.of_nat (length encoded));
  Ok (h ++ encoded).

Definition between (lo val hi : Z) : bool := (lo <=? val) && (val <=? hi).

Section Writer.
Variable write_tag : pyval -> res (Z * res (list byte)).

(** The loop of [write_list]. *)
Fixpoint write_items (lst : list pyval) : res (list byte) :=
  match lst with
  | [] => Ok []
  | item :: lst' =>
      '(_, writer) ← write_tag item;
      b ← writer;
      bs ← write_items lst';
      Ok (b ++ bs)
  end.

(** The loop of [write_compound]. *)
Fixpoint write_entries (items : list (pystr * pyval)) : res (list byte) :=
  match items with
  | [] => Ok []
  | (name, val) :: items' =>
      '(tag_type, writer) ← write_tag val;
      t ← write_ubyte tag_type;
      n ← write_string name;
      b ← writer;
      bs ← write_entries items';
      Ok (t ++ n ++ b ++ bs)
  end.

End Writer.

Fixpoint write_tag (val : pyval) : res (Z * res (list byte)) :=
  match val with
  | PBool b => Ok (TAG_Byte, write_byte (if b then 1 else 0))
  | PInt val =>
      if between (-128) val 127 then Ok (TAG_Byte, write_byte val)
      else if between (-32768) val 32767 then Ok (TAG_Short, write_short val)
      else if between (-2147483648) val 2147483647
      then Ok (TAG_Int, write_int val)
      else Ok (TAG_Long, write_long val)
  | PFloat bits => Ok (TAG_Double, write_double bits)
  | PStr s => Ok (TAG_String, write_string s)
  | PList lst =>
      match lst with
      | [] =>
          Ok (TAG_List,
              t ← write_ubyte TAG_End; n ← write_int 0; Ok (t ++ n))
      | first :: _ =>
          '(first_type, _) ← write_tag first;
          Ok (TAG_List,
              (* write_list(val, first_type) *)
              t ← write_ubyte first_type;
              n ← write_int (Z.of_nat (length lst));
              bs ← write_items write_tag lst;
              Ok (t ++ n ++ bs))
      end
  | PDict compound =>
      Ok (TAG_Compound,
          (* write_compound(val) *)
          bs ← write_entries write_tag compound;
          e ← write_ubyte TAG_End;
          Ok (bs ++ e))
  | PNone => Err ValueError
  end.

Definition write_list (lst : list pyval) (item_type : Z) : res (list byte) :=
  t ← write_ubyte item_type;
  n ← write_int (Z.of_nat (length lst));
  bs ← write_items write_tag lst;
  Ok (t ++ n ++ bs).

Definition write_compound (compound : list (pystr * pyval))
  : res (list byte) :=
  bs ← write_entries write_tag compound;
  e ← write_ubyte TAG_End;
  Ok (bs ++ e).

(** [write_root(compound, name="")]. *)
Definition write_root_named (compound : list (pystr * pyval)) (name : pystr)
  : res (list byte) :=
  t ← write_ubyte TAG_Compound;
  n ← write_string name;
  bs ← write_compound compound;
  Ok (t ++ n ++ bs).

(** [write_root] as the tools call it, on whatever value they hold: the
    loop of [write_compound] needs [.items()], which only a dict has. *)
Definition write_root (nbt_data : pyval) : res (list byte) :=
  match nbt_data with
  | PDict compound => write_root_named compound EmptyString
  | _ => Err AttributeError
  end.


(** *** The give-command parser

    [int] and [str.isdigit] are Python built-ins over all of Unicode;
    [parse_nbt_value] rests on [json.loads], [float] and [int].  They are
    parameters: the code below is the splitting and the naming. *)

Class PyBuiltins := {
  py_int : string -> option Z;     (* int(s); None when it raises ValueError *)
  py_isdigit : string -> bool;     (* s.isdigit() *)
}.

Class ValueParser := parse_nbt_value : string -> pyval.

Section Parser.
Context `{!PyBuiltins} `{!ValueParser}.
Import PyStr.

Definition is_quote (char : ascii) : bool :=
  Ascii.eqb char "034" || Ascii.eqb char "'".
Definition is_open (char : ascii) : bool :=
  Ascii.eqb char "{" || Ascii.eqb char "[".
Definition is_close (char : ascii) : bool :=
  Ascii.eqb char "}" || Ascii.eqb char "]".

Definition push (current : string) (char : ascii) : string :=
  current +:+ String char EmptyString.

(** The local variables of the scanning loop of [parse_nbt_components]. *)
Record scan : Type := Scan {
  parts : list string;
  current : string;
  depth : Z;
  in_string : bool;
  escape : bool;
}.

Definition scan_init : scan := Scan [] EmptyString 0 false false.

(** One round of [for char in nbt_str]. *)
Definition scan_char (st : scan) (char : ascii) : scan :=
  let '(Scan parts current depth in_string escape) := st in
  if escape then Scan parts (push current char) depth in_string false
  else if Ascii.eqb char "\" then
    Scan parts (push current char) depth in_string true
  else if is_quote char then
    Scan parts (push current char) depth (negb in_string) escape
  else if negb in_string then
    if is_open char then Scan parts (push current char) (depth + 1) in_string escape
    else if is_close char then
      Scan parts (push current char) (depth - 1) in_string escape
    else if Ascii.eqb char "," && (depth =? 0) then
      Scan (parts ++ [strip current]) EmptyString depth in_string escape
    else Scan parts (push current char) depth in_string escape
  else Scan parts (push current char) depth in_string escape.

Fixpoint scan_chars (st : scan) (nbt_str : string) : scan :=
  match nbt_str with
  | String char rest => scan_chars (scan_char st char) rest
  | EmptyString => st
  end.

(** The list [parts] when the loop and the final [if current:] are done. *)
Definition split_components (nbt_str : string) : list string :=
  let st := scan_chars scan_init nbt_str in
  if decide (current st = EmptyString) then parts st
  else parts st ++ [strip (current st)].

(** [for part in parts: ...] of [parse_nbt_components]. *)
Fixpoint add_components (components : list (pystr * pyval))
    (parts : list string) : list (pystr * pyval) :=
  match parts with
  | [] => components
  | part :: parts' =>
      if contains "=" part then
        let '(key, value) := split_once "=" part in
        let key := strip key in
        let value := strip value in
        let key := if negb (contains ":" key) then "minecraft:" +:+ key
                   else key in
        add_components (dict_set components key (parse_nbt_value value)) parts'
      else add_components components parts'
  end.

Definition parse_nbt_components (nbt_str : string) : list (pystr * pyval) :=
  let nbt_str := strip nbt_str in
  if decide (nbt_str = EmptyString) then []
  else add_components [] (split_components nbt_str).

(** The splitting loop shared by [parse_nbt_compound] and
    [parse_nbt_list]: no escape handling, and a quote is not kept out of
    [current] but a separating comma is. *)
Record scan2 : Type := Scan2 {
  parts2 : list string;
  current2 : string;
  depth2 : Z;
  in_string2 : bool;
}.

Definition scan2_char (st : scan2) (char : ascii) : scan2 :=
  let '(Scan2 parts current depth in_string) := st in
  if is_quote char then Scan2 parts (push current char) depth (negb in_string)
  else if negb in_string then
    if is_open char then Scan2 parts (push current char) (depth + 1) in_string
    else if is_close char then
      Scan2 parts (push current char) (depth - 1) in_string
    else if Ascii.eqb char "," && (depth =? 0) then
      Scan2 (parts ++ [strip current]) EmptyString depth in_string
    else Scan2 parts (push current char) depth in_string
  else Scan2 parts (push current char) depth in_string.

Fixpoint scan2_chars (st : scan2) (content : string) : scan2 :=
  match content with
  | String char rest => scan2_chars (scan2_char st char) rest
  | EmptyString => st
  end.

Definition split_nested (content : string) : list string :=
  let st := scan2_chars (Scan2 [] EmptyString 0 false) content in
  if decide (current2 st = EmptyString) then parts2 st
  else parts2 st ++ [strip (current2 st)].

(** The second [strip] of [key.strip().strip(..)]: quote characters of
    either kind taken off both ends. *)
Fixpoint lstrip_quotes (s : string) : string :=
  match s with
  | String c r => if is_quote c then lstrip_quotes r else s
  | EmptyString => s
  end.
Definition strip_quotes (s : string) : string :=
  String.rev (lstrip_quotes (String.rev (lstrip_quotes s))).

Fixpoint add_entries (result : list (pystr * pyval)) (parts : list string)
  : list (pystr * pyval) :=
  match parts with
  | [] => result
  | part :: parts' =>
      if contains ":" part then
        let '(key, value) := split_once ":" part in
        let key := strip_quotes (strip key) in
        add_entries (dict_set result key (parse_nbt_value (strip value))) parts'
      else add_entries result parts'
  end.

Definition parse_nbt_compound (content : string) : list (pystr * pyval) :=
  let content := strip content in
  if decide (content = EmptyString) then []
  else add_entries [] (split_nested content).

Definition parse_nbt_list (content : string) : list pyval :=
  let content := strip content in
  if decide (content = EmptyString) then []
  else parse_nbt_value <$> split_nested content.

(** [parse_give_command]: item id, count and components. *)
Definition parse_give_command (give_cmd : string)
  : res (string * Z * list (pystr * pyval)) :=
  let give_cmd := strip give_cmd in
  let give_cmd :=
    if startswith give_cmd "give" then strip (slice_from 4 give_cmd)
    else give_cmd in
  (* Remove target selector: both branches drop the first word *)
  let give_cmd :=
    match split_space_once give_cmd with
    | [_; rest] => rest
    | _ => give_cmd
    end in
  if contains "[" give_cmd then
    let '(item_id, nbt_part) := split_once "[" give_cmd in
    let nbt_part := "[" +:+ nbt_part in
    let item_id := strip item_id in
    let item_id := if negb (contains ":" item_id) then "minecraft:" +:+ item_id
                   else item_id in
    '(count, nbt_part) ←
      (if decide (count "[" nbt_part = count "]" nbt_part) then
         let closing := match rfind "]" nbt_part with
                        | Some i => S i | None => O end in
         let remainder := strip (slice_from closing nbt_part) in
         if py_isdigit remainder then
           match py_int remainder with
           | Some count => Ok (count, slice_to closing nbt_part)
           | None => Err ValueError
           end
         else Ok (1, nbt_part)
       else Ok (1, nbt_part));
    let components :=
      parse_nbt_components (drop_last_char (slice_from 1 nbt_part)) in
    Ok (item_id, count, components)
  else
    match split_space give_cmd with
    | [] => Err IndexError
    | [item_id] => Ok (item_id, 1, [])
    | item_id :: count :: _ =>
        match py_int count with
        | Some count => Ok (item_id, count, [])
        | None => Err ValueError
        end
    end.

End Parser.


(** *** The repository layer of [nbt_lib.py]

    The disk is the finite map from the paths of regular files to their
    contents.  A directory is given by what [os.listdir] (or [glob])
    answers for it: [None] when the directory does not exist. *)

Abbreviation disk := (gmap string (list byte)).

Definition USERCACHE_PATH : string := "/opt/minecraft/server/usercache.json".
Definition PLAYERDATA_DIR : string := "/opt/minecraft/server/world/playerdata".

(** [json.load], [str.lower] and [sorted] on the player tuples are
    Python's. [json_load] answers [None] when the text is not valid JSON
    ([json.JSONDecodeError]); the values it returns are [pyval]s. *)
Class Json := json_load : list byte -> option pyval.

Class PyLibs := {
  py_lower : string -> string;
  py_sorted : list (pyval * string * string) ->
              res (list (pyval * string * string));
}.

Section Repository.
Context `{!Json} `{!PyLibs}.
Import PyStr.

(** [load_usercache]: only [FileNotFoundError] is caught. *)
Definition load_usercache (fs : disk) : res pyval :=
  match fs !! USERCACHE_PATH with
  | None => Ok (PList [])
  | Some text =>
      match json_load text with
      | Some data => Ok data
      | None => Err JSONDecodeError
      end
  end.

(** [x.replace('-', '').lower()] *)
Definition normalise (x : string) : string := py_lower (remove "-" x).

(** The loop of [get_player_name] over the entries of the cache. *)
Fixpoint find_name (entries : list pyval) (uuid_str : string) : res pyval :=
  match entries with
  | [] => Ok (PStr "Unknown")
  | entry :: entries' =>
      match entry with
      | PDict d =>
          match dict_get d "uuid" (PStr EmptyString) with
          | PStr u =>
              if decide (normalise u = uuid_str)
              then Ok (dict_get d "name" (PStr "Unknown"))
              else find_name entries' uuid_str
          | _ => Err AttributeError        (* no .replace *)
          end
      | _ => Err AttributeError            (* no .get *)
      end
  end.

Definition get_player_name (fs : disk) (uuid : string) : res pyval :=
  usercache ← load_usercache fs;
  let uuid_str := normalise uuid in
  match usercache with
  | PList entries => find_name entries uuid_str
  | PDict [] | PStr EmptyString => Ok (PStr "Unknown")
  | PDict _ | PStr _ => Err AttributeError   (* the items are strs *)
  | _ => Err TypeError                       (* not iterable *)
  end.

(** [Path.stem] of a name matched by [*.dat]. *)
Definition stem (name : string) : string :=
  if decide (name = ".dat") then name else drop_end 4 name.

Fixpoint collect_players (fs : disk) (names : list string)
  : res (list (pyval * string * string)) :=
  match names with
  | [] => Ok []
  | dat_file :: names' =>
      let uuid := stem dat_file in
      name ← get_player_name fs uuid;
      players ← collect_players fs names';
      Ok ((name, uuid, PLAYERDATA_DIR +:+ "/" +:+ dat_file) :: players)
  end.

(** [list_players]; [listing] is the content of the player-data
    directory. *)
Definition list_players (fs : disk) (listing : option (list string))
  : res (list (pyval * string * string)) :=
  match listing with
  | None => Ok []
  | Some names =>
      players ← collect_players fs (filter (fun f => endswith f ".dat") names);
      py_sorted players
  end.

End Repository.

(** The slot search of [handle_give_item] (nbt_tool.py), on the values
    the codec produces.  [used_slots] is a Python set: its members must be
    hashable, and [slot not in used_slots] compares by [==].  Which
    integer a float equals, if any, is the platform's ([float_int]). *)
Class FloatEq := float_int : Z -> option Z.

Section GiveSlot.
Context `{!FloatEq}.

(** [slot == v] for an int [slot] and a member [v] of the set. *)
Definition eq_slot (slot : Z) (v : pyval) : bool :=
  match v with
  | PInt z => bool_decide (z = slot)
  | PBool b => bool_decide ((if b then 1 else 0) = slot)
  | PFloat bits => bool_decide (float_int bits = Some slot)
  | _ => false
  end.

(** [{item.get('Slot', -1) for item in inventory}], as the list of its
    members. *)
Fixpoint used_slots (inventory : list pyval) : res (list pyval) :=
  match inventory with
  | [] => Ok []
  | item :: inventory' =>
      match item with
      | PDict d =>
          match dict_get d "Slot" (PInt (-1)) with
          | PList _ | PDict _ => Err TypeError       (* unhashable *)
          | v => rest ← used_slots inventory'; Ok (v :: rest)
          end
      | _ => Err AttributeError                      (* no .get *)
      end
  end.

Definition find_empty_slot (inventory : list pyval) (max_slot : nat)
  : res (option Z) :=
  used ← used_slots inventory;
  Ok (first_free (fun slot => existsb (eq_slot slot) used) 0 max_slot).

End GiveSlot.

(** [save_player_data(nbt_data, dat_file)]: encode, copy the file to the
    backup, write the new file.  [gzip_compress] is [gzip]'s; [backup_file]
    is [dat_file.with_suffix('.dat.bak')], computed by [pathlib]. *)
Class SaveLibs := {
  gzip_compress : list byte -> list byte;
  with_suffix_dat_bak : string -> string;
}.

Definition save_player_data `{!SaveLibs} (nbt_data : pyval)
    (dat_file : string) (fs : disk) : disk * res string :=
  match write_root nbt_data with
  | Ok nbt_bytes =>
      let backup_file := with_suffix_dat_bak dat_file in
      match fs !! dat_file with
      | Some old =>
          let fs := <[backup_file := old]> fs in
          let fs := <[dat_file := gzip_compress nbt_bytes]> fs in
          (fs, Ok backup_file)
      | None => (fs, Err FileNotFoundError)
      end
  | Err e => (fs, Err e)
  | NoFuel => (fs, NoFuel)
  end.

(** *** Looking a player up and loading the file

    [pathlib] and [gzip] are the platform's: [joinpath name] is the path
    [PLAYERDATA_DIR / name], [path_stem p] is [Path(p).stem], and
    [gzip_read bs] is what [gzip.open(p, 'rb').read()] returns for a file
    [p] holding [bs] (or the exception it raises).  A path exists when it
    is a regular file of the disk. *)
Class LoadLibs := {
  joinpath : string -> string;
  path_stem : string -> string;
  gzip_read : list byte -> res (list byte);
}.

Section Loading.
Context `{!Json} `{!PyLibs} `{!Float32} `{!LoadLibs}.
Import PyStr.

(** The loop of [get_player_uuid] over the entries of the cache. *)
Fixpoint find_uuid (entries : list pyval) (name : string)
  : res (option string) :=
  match entries with
  | [] => Ok None
  | entry :: entries' =>
      match entry with
      | PDict d =>
          match dict_get d "name" (PStr EmptyString) with
          | PStr n =>
              if decide (py_lower n = py_lower name) then
                match dict_get d "uuid" (PStr EmptyString) with
                | PStr u => Ok (Some (py_lower u))
                | _ => Err AttributeError  (* no .lower *)
                end
              else find_uuid entries' name
          | _ => Err AttributeError        (* no .lower *)
          end
      | _ => Err AttributeError            (* no .get *)
      end
  end.

(** [get_player_uuid]; the answer [None] is Python's [None]. *)
Definition get_player_uuid (fs : disk) (name : string) : res (option string) :=
  usercache ← load_usercache fs;
  match usercache with
  | PList entries => find_uuid entries name
  | PDict [] | PStr EmptyString => Ok None
  | PDict _ | PStr _ => Err AttributeError   (* the items are strs *)
  | _ => Err TypeError                       (* not iterable *)
  end.

Definition path_exists (fs : disk) (p : string) : bool :=
  bool_decide (is_Some (fs !! p)).

(** The file [load_player_data] settles on for an identifier. *)
Definition resolve_dat_file (fs : disk) (identifier : string) : res string :=
  if endswith identifier ".dat" then Ok (joinpath identifier)
  else
    let dat_file := joinpath (identifier +:+ ".dat") in
    let dat_file :=
      if negb (path_exists fs dat_file)
      then joinpath (normalise identifier +:+ ".dat")
      else dat_file in
    if negb (path_exists fs dat_file) then
      uuid ← get_player_uuid fs identifier;
      match uuid with
      | Some uuid =>
          if decide (uuid = EmptyString) then Ok dat_file   (* if uuid: *)
          else Ok (joinpath (uuid +:+ ".dat"))
      | None => Ok dat_file
      end
    else Ok dat_file.

(** [load_player_data(identifier)]: the triple, or [None] for
    [(None, None, None)]. *)
Definition load_player_data (fuel : nat) (identifier : string) (fs : disk)
  : res (option (pyval * string * pyval)) :=
  dat_file ← resolve_dat_file fs identifier;
  match fs !! dat_file with
  | None => Ok None
  | Some content =>
      data ← gzip_read content;
      nbt_data ← read_root data fuel;
      player_name ← get_player_name fs (path_stem dat_file);
      Ok (Some (nbt_data, dat_file, player_name))
  end.

End Loading.

End NbtLib.

(** ** The interactive tool of [nbt_tool.py]

    What the user types at a prompt is an argument; what the tool prints
    is left out, but for the message that tells how a call ended. *)

Module NbtTool.
Import NbtLib.

(** How [handle_give_item] ends. *)
Inductive give_report : Type :=
  | NoCommand                               (* empty line: return *)
  | Declined                                (* the answer is not y *)
  | InventoryFull                           (* no empty slot *)
  | Gave (empty_slot : Z) (backup : string)
  | ErrorPrinted (e : exn)                  (* except Exception as e *)
  | NoReturn.

Section HandleGiveItem.
Context `{!PyBuiltins} `{!ValueParser} `{!PyLibs} `{!FloatEq} `{!SaveLibs}.
Import PyStr.

(** The item [handle_give_item] builds before the slot is known. *)
Definition item_of_command (item_id : string) (count : Z)
    (components : list (pystr * pyval)) : list (pystr * pyval) :=
  let item := [("id", PStr item_id); ("count", PInt count)] in
  match components with
  | [] => item
  | _ => dict_set item "components" (PDict components)
  end.

(** [handle_give_item(data, dat_file, is_enderchest)]: [give_cmd] and
    [confirm] are the two lines typed.  The dict [data] is updated in
    place: the result holds it as the call leaves it, with the disk. *)
Definition handle_give_item (data : list (pystr * pyval)) (dat_file : string)
    (is_enderchest : bool) (give_cmd confirm : string) (fs : disk)
  : list (pystr * pyval) * disk * give_report :=
  let give_cmd := strip give_cmd in
  if decide (give_cmd = EmptyString) then (data, fs, NoCommand)
  else
    match parse_give_command give_cmd with
    | Ok (item_id, count, components) =>
        if decide (py_lower (strip confirm) = "y") then
          let item := item_of_command item_id count components in
          let inv_key := if is_enderchest then "EnderItems" else "Inventory" in
          let max_slot := if is_enderchest then 27%nat else 36%nat in
          match dict_get data inv_key (PList []) with
          | PList inventory =>
              match find_empty_slot inventory max_slot with
              | Ok (Some empty_slot) =>
                  let item := dict_set item "Slot" (PInt empty_slot) in
                  let inventory := inventory ++ [PDict item] in
                  let data := dict_set data inv_key (PList inventory) in
                  match save_player_data (PDict data) dat_file fs with
                  | (fs, Ok backup) => (data, fs, Gave empty_slot backup)
                  | (fs, Err e) => (data, fs, ErrorPrinted e)
                  | (fs, NoFuel) => (data, fs, NoReturn)
                  end
              | Ok None => (data, fs, InventoryFull)
              | Err e => (data, fs, ErrorPrinted e)
              | NoFuel => (data, fs, NoReturn)
              end
          | PDict [] | PStr EmptyString =>
              (* nothing to iterate on, and no [append] *)
              (data, fs, ErrorPrinted AttributeError)
          | PDict _ | PStr _ =>
              (* the items are strs: no [get] *)
              (data, fs, ErrorPrinted AttributeError)
          | _ => (data, fs, ErrorPrinted TypeError)  (* not iterable *)
          end
        else (data, fs, Declined)
    | Err e => (data, fs, ErrorPrinted e)
    | NoFuel => (data, fs, NoReturn)
    end.

End HandleGiveItem.

(** [float(s)] is Python's: the binary64 pattern of the value, [None]
    when it raises [ValueError]. *)
Class PyFloat := py_float : string -> option Z.

(** How [handle_write] ends. *)
Inductive write_report : Type :=
  | FieldNotFound
  | CannotEdit                              (* not an int, a float or a str *)
  | Updated (backup : string)
  | ValueErrorPrinted                       (* except ValueError as e *)
  | Raised (e : exn)                        (* no handler: the call raises *)
  | WriteNoReturn.

(** [field in data], with [data[field]]. *)
Fixpoint dict_find (d : list (pystr * pyval)) (k : pystr) : option pyval :=
  match d with
  | [] => None
  | (k', v) :: d' => if decide (k' = k) then Some v else dict_find d' k
  end.

(** [isinstance(e, ValueError)] *)
Definition is_value_error (e : exn) : bool :=
  match e with
  | ValueError | UnicodeDecodeError | JSONDecodeError => true
  | _ => false
  end.

Section HandleWrite.
Context `{!PyBuiltins} `{!PyFloat} `{!SaveLibs}.
Import PyStr.

(** [handle_write(data, dat_file)]: [field] and [new_value_str] are the
    two lines typed.  A [bool] is an [int] for [isinstance]. *)
Definition handle_write (data : list (pystr * pyval)) (dat_file : string)
    (field new_value_str : string) (fs : disk)
  : list (pystr * pyval) * disk * write_report :=
  let field := strip field in
  match dict_find data field with
  | None => (data, fs, FieldNotFound)
  | Some old_value =>
      let new_value_str := strip new_value_str in
      let store (new_value : pyval) :=
        let data := dict_set data field new_value in
        match save_player_data (PDict data) dat_file fs with
        | (fs, Ok backup) => (data, fs, Updated backup)
        | (fs, Err e) =>
            (data, fs, if is_value_error e then ValueErrorPrinted else Raised e)
        | (fs, NoFuel) => (data, fs, WriteNoReturn)
        end in
      match old_value with
      | PInt _ | PBool _ =>
          match py_int new_value_str with
          | Some new_value => store (PInt new_value)
          | None => (data, fs, ValueErrorPrinted)
          end
      | PFloat _ =>
          match py_float new_value_str with
          | Some new_value => store (PFloat new_value)
          | None => (data, fs, ValueErrorPrinted)
          end
      | PStr _ => store (PStr new_value_str)
      | _ => (data, fs, CannotEdit)
      end
  end.

End HandleWrite.

End NbtTool.

(** ** The nbtlib-based editors

    [nbtcore.py], [nbtviewer.py], [mcplayer2.py] and [panels.py] hold the
    tree as nbtlib tags. *)

Module NbtCore.
Import NbtLib.

(** nbtlib's tag classes, as far as the tools build and inspect them. *)
#[local] Unset Elimination Schemes.
Inductive tag : Type :=
  | TByte (v : Z)
  | TShort (v : Z)
  | TInt (v : Z)
  | TLong (v : Z)
  | TFloat (bits : Z)
  | TDouble (bits : Z)
  | TString (s : string)
  | TByteArray (l : list Z)
  | TIntArray (l : list Z)
  | TLongArray (l : list Z)
  | TList (l : list tag)
  | TCompound (d : list (string * tag)).
#[local] Set Elimination Schemes.

(** [Byte(v)] and [Int(v)]: nbtlib refuses a value outside the range. *)
Definition Byte (v : Z) : res tag :=
  if between (-128) v 127 then Ok (TByte v) else Err OutOfRange.
Definition Int (v : Z) : res tag :=
  if between (-2147483648) v 2147483647 then Ok (TInt v) else Err OutOfRange.

(** Python's [int(x)]: the value of an integer tag; a [TypeError] on a
    list or a compound; for the float, string and array tags it is the
    built-in's business ([None] when it raises). *)
Class PyInt := int_of_other : tag -> option Z.

Definition py_int_of `{!PyInt} (x : tag) : option Z :=
  match x with
  | TByte v | TShort v | TInt v | TLong v => Some v
  | TList _ | TCompound _ => None
  | _ => int_of_other x
  end.

Fixpoint compound_get (d : list (string * tag)) (k : string) : option tag :=
  match d with
  | [] => None
  | (k', v) :: d' => if decide (k' = k) then Some v else compound_get d' k
  end.

(** [int(it.get('Slot', -1))]; [None] when the expression raises. *)
Definition slot_of `{!PyInt} (it : tag) : option Z :=
  match it with
  | TCompound d =>
      match compound_get d "Slot" with
      | Some x => py_int_of x
      | None => Some (-1)
      end
  | _ => None                         (* no .get *)
  end.

Section Slots.
Context `{!PyInt}.

(** The first loop of [find_next_free_slot]: an element whose slot
    cannot be read is passed over. *)
Fixpoint occupied_slots (inv : list tag) (occupied : gset Z) : gset Z :=
  match inv with
  | [] => occupied
  | it :: inv' =>
      match slot_of it with
      | Some s => occupied_slots inv' ({[ s ]} ∪ occupied)
      | None => occupied_slots inv' occupied
      end
  end.

(** The search over [range(0, n)]: [n] is 36 in [find_next_free_slot], 27
    in the ender-chest panel, [max_slot] in [handle_give_item]. *)
Definition find_free_slot (inv : list tag) (n : nat) : option Z :=
  let occupied := occupied_slots inv ∅ in
  first_free (fun s => bool_decide (s ∈ occupied)) 0 n.

Definition find_next_free_slot (inv : list tag) : option Z :=
  find_free_slot inv 36.

(** [[x for x in inv if int(x.get('Slot',-1)) != slot_num]]; an element
    whose slot cannot be read raises (the exception is recorded as
    [TypeError], whichever [get] or [int] raised). *)
Fixpoint without_slot (inv : list tag) (slot_num : Z) : res (list tag) :=
  match inv with
  | [] => Ok []
  | x :: inv' =>
      match slot_of x with
      | Some s =>
          rest ← without_slot inv' slot_num;
          Ok (if decide (s = slot_num) then rest else x :: rest)
      | None => Err TypeError
      end
  end.

(** [Compound({'Slot': Byte(slot_num), 'id': String(item_id),
    'count': Int(count_num)})] *)
Definition new_item (slot_num : Z) (item_id : string) (count_num : Z)
  : res tag :=
  slot ← Byte slot_num;
  count ← Int count_num;
  Ok (TCompound [("Slot", slot); ("id", TString item_id); ("count", count)]).

(** The two statements of the panels that put an item at a slot,
    [inv[:] = [...]] and [inv.append(...)].  The list is updated in place:
    the result is the list as the statements leave it, with the exception
    if one of them raised. *)
Definition replace_at_slot (inv : list tag) (slot_num : Z)
    (item_id : string) (count_num : Z) : list tag * res unit :=
  match without_slot inv slot_num with
  | Ok kept =>
      match new_item slot_num item_id count_num with
      | Ok item => (kept ++ [item], Ok ())
      | Err e => (kept, Err e)
      | NoFuel => (kept, NoFuel)
      end
  | Err e => (inv, Err e)
  | NoFuel => (inv, NoFuel)
  end.

(** nbtlib's [==] on tags, by which [list.remove] finds its element.  It
    is nbtlib's and Python's; the element itself always counts as found. *)
Class TagEq := tag_eq : tag -> tag -> bool.

Context `{!TagEq}.

(** [inv.remove(e)]: the first element equal to [e] goes; [ValueError]
    when there is none. *)
Fixpoint list_remove (inv : list tag) (e : tag) : res (list tag) :=
  match inv with
  | [] => Err ValueError
  | x :: inv' =>
      if tag_eq x e then Ok inv'
      else rest ← list_remove inv' e; Ok (x :: rest)
  end.

(** [for e in list(inv): if int(e.get("Slot", -1)) == slot: inv.remove(e)]
    of [add_item_to_list] (mcplayer2.py); [copy] is what is left of
    [list(inv)], [inv] the list as it stands. *)
Fixpoint remove_slot_loop (copy : list tag) (slot : Z) (inv : list tag)
  : list tag * res unit :=
  match copy with
  | [] => (inv, Ok ())
  | e :: copy' =>
      match slot_of e with
      | Some s =>
          if decide (s = slot) then
            match list_remove inv e with
            | Ok inv' => remove_slot_loop copy' slot inv'
            | Err x => (inv, Err x)
            | NoFuel => (inv, NoFuel)
            end
          else remove_slot_loop copy' slot inv
      | None => (inv, Err TypeError)
      end
  end.

(** [add_item_to_list] from the removal on; [slot], [item_id] and
    [count] are what the prompts (or [find_next_free_slot]) gave. *)
Definition add_item_to_list (inv : list tag) (slot : Z) (item_id : string)
    (count : Z) : list tag * res unit :=
  match remove_slot_loop inv slot inv with
  | (inv, Ok _) =>
      match new_item slot item_id count with
      | Ok item => (inv ++ [item], Ok ())
      | Err e => (inv, Err e)
      | NoFuel => (inv, NoFuel)
      end
  | (inv, Err e) => (inv, Err e)
  | (inv, NoFuel) => (inv, NoFuel)
  end.

End Slots.

(** *** Undo chain, backup and save *)

Definition USERCACHE : string := "/opt/minecraft/server/usercache.json".
Definition PLAYERDATA_DIR : string := "/opt/minecraft/server/world/playerdata".

(** [f"{path}.undo{i}"] *)
Definition undo_name (path : string) (i : nat) : string :=
  path +:+ ".undo" +:+ pretty i.

Definition exists_ (fs : disk) (path : string) : bool :=
  bool_decide (is_Some (fs !! path)).

(** [shutil.move(src, dst)] between regular files of one directory. *)
Definition move (src dst : string) (fs : disk) : disk :=
  match fs !! src with
  | Some c => <[dst := c]> (delete src fs)
  | None => fs
  end.

(** [shutil.copy2(src, dst)] *)
Definition copy2 (src dst : string) (fs : disk) : disk * res unit :=
  match fs !! src with
  | Some c => (<[dst := c]> fs, Ok ())
  | None => (fs, Err FileNotFoundError)
  end.

Section Save.
(** [UNDO_LIMIT] is 8 in [nbtcore.py] and [nbtviewer.py], 10 in
    [mcplayer2.py]. *)
Variable UNDO_LIMIT : nat.

(** One round of the loop of [push_undo], for the value [i]. *)
Definition shift (i : nat) (path : string) (fs : disk) : disk :=
  let prev := undo_name path (i - 1) in
  let cur := undo_name path i in
  if exists_ fs prev then move prev cur fs else fs.

(** The rounds [i], [i-1], .., 2 of the loop. *)
Fixpoint rotate (i : nat) (path : string) (fs : disk) : disk :=
  match i with
  | S (S _ as i') => rotate i' path (shift i path fs)
  | _ => fs
  end.

Definition push_undo (path : string) (fs : disk) : disk * res unit :=
  let fs := rotate UNDO_LIMIT path fs in
  if exists_ fs path then copy2 path (undo_name path 1) fs
  else (fs, Ok ()).

Definition backup_file (path : string) (fs : disk) : disk * res string :=
  let bak := path +:+ ".bak" in
  match copy2 path bak fs with
  | (fs, Ok _) => (fs, Ok bak)
  | (fs, Err e) => (fs, Err e)
  | (fs, NoFuel) => (fs, NoFuel)
  end.

(** [save_nbt(nbt_file, path)].  [nbt_file.save(path)] is nbtlib's: it
    writes the serialised tree, [new_bytes], to [path]. *)
Definition save_nbt (new_bytes : list byte) (path : string) (fs : disk)
  : disk * res unit :=
  match push_undo path fs with
  | (fs, Ok _) =>
      match backup_file path fs with
      | (fs, Ok _) => (<[path := new_bytes]> fs, Ok ())
      | (fs, Err e) => (fs, Err e)
      | (fs, NoFuel) => (fs, NoFuel)
      end
  | (fs, Err e) => (fs, Err e)
  | (fs, NoFuel) => (fs, NoFuel)
  end.

End Save.

(** *** Usercache and player list *)

Section Players.
Context `{!Json}.
Import PyStr.

Definition is_str (s : string) (v : pyval) : bool :=
  match v with
  | PStr s' => bool_decide (s' = s)
  | _ => false
  end.

Definition has_key (d : list (pystr * pyval)) (k : string) : bool :=
  existsb (fun kv => bool_decide (kv.1 = k)) d.

(** ["uuid" in e and "name" in e] *)
Definition mentions_both (e : pyval) : res bool :=
  match e with
  | PDict d => Ok (has_key d "uuid" && has_key d "name")
  | PStr s => Ok (has_substring "uuid" s && has_substring "name" s)
  | PList l => Ok (existsb (is_str "uuid") l && existsb (is_str "name") l)
  | _ => Err TypeError
  end.

(** [{e["uuid"]: e["name"] for e in data if "uuid" in e and "name" in e}]
    over the elements of a list.  The result is only ever asked for [str]
    keys ([users.get(uuid, uuid)]): an entry whose key is another hashable
    value can never answer and is left out. *)
Fixpoint cache_entries (data : list pyval) (users : list (pystr * pyval))
  : res (list (pystr * pyval)) :=
  match data with
  | [] => Ok users
  | e :: data' =>
      both ← mentions_both e;
      if (both : bool) then
        match e with
        | PDict d =>
            match dict_get d "uuid" PNone with
            | PStr k =>
                cache_entries data' (dict_set users k (dict_get d "name" PNone))
            | PList _ | PDict _ => Err TypeError       (* unhashable *)
            | _ => cache_entries data' users
            end
        | _ => Err TypeError               (* no index "uuid" *)
        end
      else cache_entries data' users
  end.

(** The comprehension on whatever [json.load] returned: the items of a
    dict are its keys, those of a str its characters (none of which
    contains "uuid"). *)
Definition cache_dict (data : pyval) : res (list (pystr * pyval)) :=
  match data with
  | PList l => cache_entries l []
  | PDict d => cache_entries (PStr <$> (fst <$> d)) []
  | PStr _ => Ok []
  | _ => Err TypeError
  end.

(** [load_usercache] of [nbtcore.py].  The value is Python's [None]
    when the function ends without a [return]: the file does not exist. *)
Definition load_usercache (fs : disk) : option (list (pystr * pyval)) :=
  match fs !! USERCACHE with
  | Some text =>
      match json_load text with
      | Some data =>
          match cache_dict data with
          | Ok users => Some users
          | _ => Some []                   (* except Exception: return {} *)
          end
      | None => Some []                    (* except Exception: return {} *)
      end
  | None => None
  end.

(** [load_usercache] of [nbtviewer.py]: the same [try] block, then
    [except Exception: pass] and a final [return {}]. *)
Definition load_usercache_viewer (fs : disk) : list (pystr * pyval) :=
  match fs !! USERCACHE with
  | Some text =>
      match json_load text with
      | Some data =>
          match cache_dict data with
          | Ok users => users
          | _ => []
          end
      | None => []
      end
  | None => []
  end.

(** [list_player_files]; [listing] is [os.listdir(PLAYERDATA_DIR)], or
    [None] when there is no such directory. *)
Definition list_player_files (listing : option (list string)) : list string :=
  match listing with
  | None => []
  | Some names =>
      merge_sort String.le (filter (fun f => endswith f ".dat") names)
  end.

(** The loop of [list_players]. *)
Fixpoint player_rows (users : option (list (pystr * pyval)))
    (files : list string) : res (list (pyval * string * string)) :=
  match files with
  | [] => Ok []
  | f :: files' =>
      let uuid := drop_end 4 f in
      match users with
      | None => Err AttributeError         (* None has no .get *)
      | Some d =>
          let name := dict_get d uuid (PStr uuid) in
          out ← player_rows users files';
          Ok ((name, uuid, PLAYERDATA_DIR +:+ "/" +:+ f) :: out)
      end
  end.

Definition list_players (fs : disk) (listing : option (list string))
  : res (list (pyval * string * string)) :=
  let users := load_usercache fs in
  let files := list_player_files listing in
  player_rows users files.

(** [list_players] of [nbtviewer.py]. *)
Definition list_players_viewer (fs : disk) (listing : option (list string))
  : res (list (pyval * string * string)) :=
  let users := load_usercache_viewer fs in
  let files := list_player_files listing in
  player_rows (Some users) files.

End Players.

(** *** Removing by slot, and the Undo button *)

Section Removal.
Context `{!PyInt} `{!PyBuiltins}.

(** [[it for it in inv if keep(int(it.get("Slot", -1)))]]; as in
    [without_slot], an element whose slot cannot be read raises. *)
Fixpoint keep_slots (keep : Z -> bool) (inv : list tag) : res (list tag) :=
  match inv with
  | [] => Ok []
  | it :: inv' =>
      match slot_of it with
      | Some s =>
          rest ← keep_slots keep inv';
          Ok (if keep s then it :: rest else rest)
      | None => Err TypeError
      end
  end.

(** [inv[:] = [...]]: the list changes when the comprehension has
    returned. *)
Definition assign_kept (keep : Z -> bool) (inv : list tag)
  : list tag * res unit :=
  match keep_slots keep inv with
  | Ok kept => (kept, Ok ())
  | Err e => (inv, Err e)
  | NoFuel => (inv, NoFuel)
  end.

(** The three removals of [armor_offhand_menu] (mcplayer2.py): armor
    (slots 36 to 39), offhand (slot 40), all. *)
Definition clear_armor (inv : list tag) : list tag * res unit :=
  assign_kept (fun s => negb (between 36 s 39)) inv.

Definition clear_offhand (inv : list tag) : list tag * res unit :=
  assign_kept (fun s => negb (s =? 40)) inv.

Definition clear_armor_and_offhand (inv : list tag) : list tag * res unit :=
  assign_kept (fun s => negb (between 36 s 40)) inv.

(** What [remove_item_from_list] prints. *)
Inductive remove_report : Type := Invalid | Removed | NoItemInSlot.

(** [remove_item_from_list(inv)] (mcplayer2.py); [line] is what the user
    types at the prompt. *)
Definition remove_item_from_list (inv : list tag) (line : string)
  : list tag * res remove_report :=
  let s := PyStr.strip line in
  if negb (py_isdigit s) then (inv, Ok Invalid)
  else
    match py_int s with
    | None => (inv, Err ValueError)
    | Some slot =>
        let before := length inv in
        match keep_slots (fun x => negb (x =? slot)) inv with
        | Ok kept =>
            (kept, Ok (if (length kept <? before)%nat then Removed
                       else NoItemInSlot))
        | Err e => (inv, Err e)
        | NoFuel => (inv, NoFuel)
        end
    end.

End Removal.

(** The Undo button of [InfoPanel] (nbtviewer.py), on the disk: when
    [.undo1] exists it is copied over the player file. *)
Definition undo_restore (player_path : string) (fs : disk) : disk :=
  let undo1 := undo_name player_path 1 in
  if exists_ fs undo1 then fst (copy2 undo1 player_path fs) else fs.

End NbtCore.

(** ** Vocabulary of the statements

    Predicates and reference definitions used to state the properties;
    none of them is part of the program. *)

Module Terms.
Import Struct NbtLib NbtCore.

(** The conversion of [struct.unpack('>f', ..)] on IEEE-754 hardware, on
    bit patterns: an instance of [Float32] for closed examples.  A NaN
    comes out quiet, with its payload moved up. *)
Definition ieee_widen : Float32 := fun b =>
  let sign := (b / 2 ^ 31) mod 2 in
  let e := (b / 2 ^ 23) mod 256 in
  let m := b mod 2 ^ 23 in
  if e =? 255 then
    sign * 2 ^ 63 + 2047 * 2 ^ 52
    + (if m =? 0 then 0 else Z.lor (m * 2 ^ 29) (2 ^ 51))
  else if e =? 0 then
    if m =? 0 then sign * 2 ^ 63
    else
      let k := Z.log2 m in
      sign * 2 ^ 63 + (k - 149 + 1023) * 2 ^ 52 + (m - 2 ^ k) * 2 ^ (52 - k)
  else sign * 2 ^ 63 + (e - 127 + 1023) * 2 ^ 52 + m * 2 ^ 29.

(** A tree has a node that is [None]. *)
Fixpoint has_none (v : pyval) : bool :=
  match v with
  | PNone => true
  | PList l => existsb has_none l
  | PDict d => existsb (fun kv => has_none (snd kv)) d
  | _ => false
  end.

(** A [str] that [write_string] can write: at most 32767 bytes. *)
Definition short_str (s : string) : bool :=
  Z.of_nat (length (list_byte_of_string s)) <=? 32767.

(** Every node of the tree is within the ranges of [struct]: 64-bit
    integers, names and strings of at most 32767 bytes, lists shorter
    than 2^31. *)
Fixpoint packable (v : pyval) : bool :=
  match v with
  | PInt z => (- 2 ^ 63 <=? z) && (z <? 2 ^ 63)
  | PStr s => short_str s
  | PList l => (Z.of_nat (length l) <? 2 ^ 31) && forallb packable l
  | PDict d => forallb (fun kv => short_str (fst kv) && packable (snd kv)) d
  | _ => true
  end.

(** What calling [write_tag] and then the writer it returned comes to. *)
Definition written (v : pyval) : res (list byte) :=
  '(_, writer) ← write_tag v; writer.

(** Writing a value raises [ValueError] if it has a [None] node, and
    returns bytes if not. *)
Definition packed (v : pyval) : Prop :=
  if has_none v then written v = Err ValueError
  else exists bs, written v = Ok bs.

(** The tag type [write_tag] announces for a value. *)
Definition written_kind (v : pyval) : option Z :=
  match write_tag v with
  | Ok (tag_type, _) => Some tag_type
  | _ => None
  end.

(** A [str] as the reader can return it and the writer write it. *)
Definition plain_str (s : string) : bool :=
  utf8_valid (list_byte_of_string s) && short_str s.

(** The trees on which writing loses nothing: no [None] and no [bool];
    integers of 64 bits, floats of 64 bits; every list uniform in the kind
    written for its elements; every compound with distinct names. *)
Fixpoint canonical (v : pyval) : bool :=
  match v with
  | PNone | PBool _ => false
  | PInt z => (- 2 ^ 63 <=? z) && (z <? 2 ^ 63)
  | PFloat bits => (0 <=? bits) && (bits <? 2 ^ 64)
  | PStr s => plain_str s
  | PList l =>
      (Z.of_nat (length l) <? 2 ^ 31)
      && forallb canonical l
      && match l with
         | [] => true
         | first :: _ =>
             forallb (fun x => bool_decide (written_kind x = written_kind first)) l
         end
  | PDict d =>
      bool_decide (NoDup (fst <$> d))
      && forallb (fun kv => plain_str (fst kv) && canonical (snd kv)) d
  end.

(** Fuel that suffices to read a tree back. *)
Fixpoint size (v : pyval) : nat :=
  match v with
  | PList l => S (list_sum (size <$> l))
  | PDict d => S (S (list_sum ((fun kv => S (size (snd kv))) <$> d)))
  | _ => 1%nat
  end.

(** The bytes [bs] stand in [data] at position [pos]. *)
Definition at_pos (data : list byte) (pos : Z) (bs : list byte) : Prop :=
  exists pre suf, data = pre ++ bs ++ suf /\ pos = Z.of_nat (length pre).

(** Wherever the bytes written for [v] stand, [read_tag] reads [v] back
    from them and stops right behind them. *)
Definition reads_back `{!Float32} (v : pyval) : Prop :=
  forall ty bs, write_tag v = Ok (ty, Ok bs) ->
  forall data pos fuel, at_pos data pos bs -> (size v <= fuel)%nat ->
  read_tag data fuel ty pos = Ok (v, pos + Z.of_nat (length bs)).

(** The integer in an element's own [Slot] field, if it has one. *)
Definition slot_field `{!PyInt} (it : tag) : option Z :=
  match it with
  | TCompound d =>
      match compound_get d "Slot" with
      | Some x => py_int_of x
      | None => None
      end
  | _ => None
  end.

(** At most one entry per [Slot] value. *)
Definition unique_slots `{!PyInt} (inv : list tag) : Prop :=
  NoDup (omap slot_field inv).

(** Slot [s] is taken by some element of the inventory. *)
Definition occupied `{!PyInt} (inv : list tag) (s : Z) : Prop :=
  exists it, it ∈ inv /\ slot_field it = Some s.

(** A sequence of replacements on one list, each with its slot, item id
    and count; the list is carried from call to call, whether or not a
    call raised.  [replace_all] is for the panels, [add_all] for
    [add_item_to_list]. *)
Fixpoint replace_all `{!PyInt} (calls : list (Z * string * Z))
    (inv : list tag) : list tag :=
  match calls with
  | [] => inv
  | (slot_num, item_id, count_num) :: calls' =>
      replace_all calls' (fst (replace_at_slot inv slot_num item_id count_num))
  end.

Fixpoint add_all `{!PyInt} `{!TagEq} (calls : list (Z * string * Z))
    (inv : list tag) : list tag :=
  match calls with
  | [] => inv
  | (slot, item_id, count) :: calls' =>
      add_all calls' (fst (add_item_to_list inv slot item_id count))
  end.

(** What nbtlib's [==] is taken to satisfy: an element equals itself, and
    equal elements have the same slot. *)
Definition eq_respects_slots `{!PyInt} `{!TagEq} : Prop :=
  (forall x, tag_eq x x = true)
  /\ (forall x e, tag_eq x e = true -> slot_of x = slot_of e).

(** Equality of slots: an instance of [TagEq] for closed examples. *)
Definition same_slot `{!PyInt} : TagEq := fun x e =>
  bool_decide (slot_of x = slot_of e).

(** Slot [s] is taken by some item of the inventory of
    [handle_give_item]: the item has a [Slot] entry equal to [s]. *)
Definition occupied_item `{!FloatEq} (inventory : list pyval) (s : Z) : Prop :=
  exists d, PDict d ∈ inventory /\ eq_slot s (dict_get d "Slot" PNone) = true.

(** [int] on the integer tags only: an instance of [PyInt] for closed
    examples, none of which has another tag in a [Slot]. *)
Definition integer_tags_only : PyInt := fun _ => None.

(** No float equals an integer: an instance of [FloatEq] for closed
    examples, none of which has a float in a [Slot]. *)
Definition no_float_slots : FloatEq := fun _ => None.

(** [gzip] and [pathlib] for closed examples: the compressed stream is
    left abstract as the stream itself, the suffix is appended. *)
Definition plain_save_libs : SaveLibs :=
  {| gzip_compress := fun bs => bs;
     with_suffix_dat_bak := fun p => p +:+ ".bak" |}.

(** The double-quote character, as a string. *)
Definition dq : string := String "034" EmptyString.

(** The splitting the specification describes, written from its words:
    a string literal opened by one kind of quote is closed by the same
    kind only, so that the other kind may occur inside it.  Everything
    else is as in [scan_char]. *)
Record ref_scan : Type := RefScan {
  ref_parts : list string;
  ref_current : string;
  ref_depth : Z;
  ref_quote : option ascii;
  ref_escape : bool;
}.

Definition ref_char (st : ref_scan) (char : ascii) : ref_scan :=
  let '(RefScan parts current depth quote escape) := st in
  if escape then RefScan parts (push current char) depth quote false
  else if Ascii.eqb char "\" then
    RefScan parts (push current char) depth quote true
  else
    match quote with
    | Some q =>
        RefScan parts (push current char) depth
                (if Ascii.eqb char q then None else quote) escape
    | None =>
        if is_quote char then
          RefScan parts (push current char) depth (Some char) escape
        else if is_open char then
          RefScan parts (push current char) (depth + 1) quote escape
        else if is_close char then
          RefScan parts (push current char) (depth - 1) quote escape
        else if Ascii.eqb char "," && (depth =? 0) then
          RefScan (parts ++ [PyStr.strip current]) EmptyString depth quote escape
        else RefScan parts (push current char) depth quote escape
    end.

Fixpoint ref_chars (st : ref_scan) (s : string) : ref_scan :=
  match s with
  | String char rest => ref_chars (ref_char st char) rest
  | EmptyString => st
  end.

Definition split_reference (s : string) : list string :=
  let st := ref_chars (RefScan [] EmptyString 0 None false) s in
  if decide (ref_current st = EmptyString) then ref_parts st
  else ref_parts st ++ [PyStr.strip (ref_current st)].

(** [custom_name='{"text":"a,b"}']: the format of the docstring of
    [parse_nbt_components], with a comma in the quoted text. *)
Definition quoted_comma : string :=
  "custom_name='{" +:+ dq +:+ "text" +:+ dq +:+ ":" +:+ dq +:+ "a,b" +:+ dq
  +:+ "}'".

(** The chain [.undo1], [.undo2] of a file [p.dat], rotated by a save
    under the limit of [nbtcore.py]. *)
Definition two_undos : disk :=
  <[ "p.dat" := [x01] ]>
    (<[ NbtCore.undo_name "p.dat" 1 := [x02] ]>
       (<[ NbtCore.undo_name "p.dat" 2 := [x03] ]> ∅)).

(** A JSON reader that knows the empty array only: an instance of [Json]
    for closed examples. *)
Definition json_empty_array_only : Json := fun text =>
  if decide (text = [x5b; x5d]) then Some (PList []) else None.

(** [z] is within the signed range of [n] bytes. *)
Definition fits (n : nat) (z : Z) : Prop :=
  - 2 ^ (8 * Z.of_nat n - 1) <= z < 2 ^ (8 * Z.of_nat n - 1).

(** The tag type of the integer tag that takes [n] bytes. *)
Definition int_tag (n : nat) : Z :=
  match n with
  | 1%nat => TAG_Byte
  | 2%nat => TAG_Short
  | 4%nat => TAG_Int
  | _ => TAG_Long
  end.

(** The tree with every [bool] replaced by the integer it equals. *)
Fixpoint debool (v : pyval) : pyval :=
  match v with
  | PBool b => PInt (if b then 1 else 0)
  | PList l => PList (debool <$> l)
  | PDict d => PDict ((fun kv => (fst kv, debool (snd kv))) <$> d)
  | _ => v
  end.

(** What can be said of every tree the reader returns: no [bool];
    integers of 64 bits; strings and names that are valid UTF-8; lists
    shorter than 2^31; distinct names in every compound. *)
Fixpoint decoded_shape (v : pyval) : bool :=
  match v with
  | PBool _ => false
  | PInt z => (- 2 ^ 63 <=? z) && (z <? 2 ^ 63)
  | PStr s => utf8_valid (list_byte_of_string s)
  | PList l => (Z.of_nat (length l) <? 2 ^ 31) && forallb decoded_shape l
  | PDict d =>
      bool_decide (NoDup (fst <$> d))
      && forallb (fun kv => utf8_valid (list_byte_of_string (fst kv))
                            && decoded_shape (snd kv)) d
  | PNone | PFloat _ => true
  end.

(** The entries of a compound while it is being read. *)
Definition entries_shape (d : list (pystr * pyval)) : Prop :=
  NoDup (fst <$> d)
  /\ Forall (fun kv => utf8_valid (list_byte_of_string (fst kv)) = true
                       /\ decoded_shape (snd kv) = true) d.

(** A 64-bit integer. *)
Definition int64 (z : Z) : Prop := - 2 ^ 63 <= z < 2 ^ 63.

(** A file on which [read_root] does not return: the name of its first
    entry has the length -4. *)
Definition looping_file : list byte := [x0a; x00; x00; x01; xff; xfc].

(** [s.split(',')] *)
Fixpoint split_comma (s : string) : list string :=
  match s with
  | EmptyString => [EmptyString]
  | String c r =>
      if Ascii.eqb c "," then EmptyString :: split_comma r
      else
        match split_comma r with
        | first :: rest => String c first :: rest
        | [] => [String c EmptyString]
        end
  end.

(** [[p.strip() for p in s.split(',')]], without the last field when it
    is empty. *)
Definition stripped_fields (s : string) : list string :=
  let fs := split_comma s in
  PyStr.strip
    <$> (if decide (last fs = Some EmptyString) then removelast fs else fs).

(** Text with no quote, backslash or bracket in it. *)
Fixpoint flat (s : string) : bool :=
  match s with
  | EmptyString => true
  | String c r =>
      negb (is_quote c || Ascii.eqb c "\" || is_open c || is_close c)
      && flat r
  end.

(** The fields of [current] followed by [s]. *)
Fixpoint fields_from (current : string) (s : string) : list string :=
  match s with
  | EmptyString => [current]
  | String c r =>
      if Ascii.eqb c "," then current :: fields_from EmptyString r
      else fields_from (push current c) r
  end.

(** An undo file left behind for a player file that is gone. *)
Definition orphan_undo : disk := <[ NbtCore.undo_name "p.dat" 1 := [x02] ]> ∅.

(** A cache entry as the server writes it: an object with a string
    under "uuid" and some value under "name".  The answer is the pair of
    the two. *)
Definition cache_entry (e : pyval) : option (string * pyval) :=
  match e with
  | PDict d =>
      match dict_get d "uuid" PNone with
      | PStr u =>
          if NbtCore.has_key d "name" then Some (u, dict_get d "name" PNone)
          else None
      | _ => None
      end
  | _ => None
  end.

(** The name in the last entry of the cache that has the identifier. *)
Fixpoint last_name (data : list pyval) (uuid : string) : option pyval :=
  match data with
  | [] => None
  | e :: data' =>
      match last_name data' uuid with
      | Some name => Some name
      | None =>
          match cache_entry e with
          | Some (u, name) => if decide (u = uuid) then Some name else None
          | None => None
          end
      end
  end.

(** Every element has a slot that can be read. *)
Definition readable `{!PyInt} (inv : list tag) : Prop :=
  Forall (fun it => is_Some (slot_of it)) inv.

(** The elements whose slot passes a test, in order. *)
Definition passes `{!PyInt} (keep : Z -> bool) (it : tag) : bool :=
  match slot_of it with
  | Some s => keep s
  | None => false
  end.

Definition slots_kept `{!PyInt} (keep : Z -> bool) (inv : list tag) : list tag :=
  filter (fun it => passes keep it) inv.

(** [int] and [str.isdigit] on ASCII digits only: an instance of
    [PyBuiltins] for closed examples, none of which has another text to
    convert. *)
Fixpoint digits_value (acc : Z) (s : string) : option Z :=
  match s with
  | EmptyString => Some acc
  | String c r =>
      let n := Z.of_N (N_of_ascii c) in
      if (48 <=? n) && (n <=? 57) then digits_value (acc * 10 + (n - 48)) r
      else None
  end.

Definition ascii_digits : PyBuiltins :=
  {| py_int := fun s =>
       if decide (s = EmptyString) then None else digits_value 0 s;
     py_isdigit := fun s =>
       if decide (s = EmptyString) then false
       else bool_decide (is_Some (digits_value 0 s)) |}.

(** [str.lower] on the letters A to Z, and [sorted] on a list that is in
    order already: an instance of [PyLibs] for closed examples, which
    have ASCII names and at most one player. *)
Definition lower_ascii (c : ascii) : ascii :=
  let n := N_of_ascii c in
  if ((65 <=? n) && (n <=? 90))%N then ascii_of_N (n + 32) else c.

Fixpoint lower_string (s : string) : string :=
  match s with
  | EmptyString => EmptyString
  | String c r => String (lower_ascii c) (lower_string r)
  end.

Definition ascii_libs : PyLibs :=
  {| py_lower := lower_string; py_sorted := fun players => Ok players |}.

(** [pathlib] on plain file names ending in [.dat], and [gzip] with the
    stream left as it is (as in [plain_save_libs]): an instance of
    [LoadLibs] for closed examples. *)
Definition plain_load_libs : LoadLibs :=
  {| joinpath := fun name => NbtLib.PLAYERDATA_DIR +:+ "/" +:+ name;
     path_stem := fun p =>
       PyStr.drop_end 4
         (match PyStr.rfind "/" p with
          | Some i => PyStr.slice_from (S i) p
          | None => p
          end);
     gzip_read := fun bs => Ok bs |}.

(** The path [load_player_data] tries first for an identifier. *)
Definition first_path `{!LoadLibs} (identifier : string) : string :=
  if PyStr.endswith identifier ".dat" then joinpath identifier
  else joinpath (identifier +:+ ".dat").

(** A player file for the closed examples. *)
Definition steve_path : string :=
  "/opt/minecraft/server/world/playerdata/steve.dat".

(** An entry of the cache that [get_player_name] passes over when it looks
    for [uuid]: a dict whose id is a string that differs from [uuid] once
    both are normalised. *)
Definition other_player `{!PyLibs} (uuid : string) (entry : pyval) : bool :=
  match entry with
  | PDict d =>
      match dict_get d "uuid" (PStr EmptyString) with
      | PStr u => negb (bool_decide (NbtLib.normalise u = NbtLib.normalise uuid))
      | _ => false
      end
  | _ => false
  end.

(** An entry of the cache that [get_player_uuid] passes over when it looks
    for [name]: a dict whose name is a string that differs from [name]
    once both are lowered. *)
Definition other_name `{!PyLibs} (name : string) (entry : pyval) : bool :=
  match entry with
  | PDict d =>
      match dict_get d "name" (PStr EmptyString) with
      | PStr n => negb (bool_decide (py_lower n = py_lower name))
      | _ => false
      end
  | _ => false
  end.

(** A cache for the closed examples, with the disk that holds it (the
    reader of the examples returns it for any text). *)
Definition two_players : list pyval :=
  [PDict [("name", PStr "Alex"); ("uuid", PStr "AAAA-0001")];
   PDict [("name", PStr "Steve"); ("uuid", PStr "BBBB-0002")];
   PDict [("name", PStr "Late"); ("uuid", PStr "bbbb0002")]].

Definition json_two_players : Json := fun _ => Some (PList two_players).

Definition cache_only : disk := <[ NbtLib.USERCACHE_PATH := [x5b; x5d] ]> ∅.

(** [float] that reads nothing: an instance of [PyFloat] for closed
    examples, none of which edits a float. *)
Definition no_floats : NbtTool.PyFloat := fun _ => None.

(** The disk of [cache_only] with the file of the second player, which
    holds the tree [{Health: 20}]. *)
Definition steve_file : disk :=
  <[ "/opt/minecraft/server/world/playerdata/bbbb-0002.dat" :=
       [x0a; x00; x00; x01; x00; x06; x48; x65; x61; x6c; x74; x68; x14; x00] ]>
    cache_only.

End Terms.

(* ===================================================================== *)
(** * Part II: properties                                                 *)
(* ===================================================================== *)

Import Struct NbtLib Terms.

(** ** The give-command parser *)

Section GiveCommand.
Context `{!PyBuiltins} `{!ValueParser}.

(** C9 (the code departs from the claim).  The comma of
    [custom_name='{"text":"a,b"}'] lies inside the single-quoted literal,
    and inside the double-quoted one within it.  The scanner of
    [parse_nbt_components] toggles one flag on either kind of quote, is
    outside of every literal (by its count) when it meets the comma, and
    splits there: two parts come out, where the splitting described by
    the specification keeps the component whole.  The component then gets
    the value cut at the comma, and the rest, having no equals sign, is
    dropped. *)
Theorem comma_in_nested_quotes_splits :
  split_components quoted_comma
  = [ "custom_name='{" +:+ dq +:+ "text" +:+ dq +:+ ":" +:+ dq +:+ "a";
      "b" +:+ dq +:+ "}'" ]
  /\ split_reference quoted_comma = [quoted_comma]
  /\ parse_nbt_components quoted_comma
     = [ ("minecraft:custom_name",
          parse_nbt_value ("'{" +:+ dq +:+ "text" +:+ dq +:+ ":" +:+ dq +:+ "a")) ].
Proof. repeat split; reflexivity. Qed.

(** The loop of [parse_nbt_compound] and [parse_nbt_list] has the same
    flag, and no escapes. *)
Lemma split_nested_comma_in_nested_quotes :
  split_nested ("a:'" +:+ dq +:+ "b,c" +:+ dq +:+ "'")
  = [ "a:'" +:+ dq +:+ "b"; "c" +:+ dq +:+ "'" ].
Proof. reflexivity. Qed.

(** That loop takes the quote behind a backslash for the end of the
    literal. *)
Lemma split_nested_escaped_quote :
  split_nested "k:'a\'b,c'" = [ "k:'a\'b"; "c'" ].
Proof. reflexivity. Qed.

(** With one kind of quote the flag is right: the comma inside the
    literal, the escaped quote and the commas inside the brackets do not
    split. *)
Lemma split_components_single_quotes :
  split_components "a='x\'y,z',b={c:[1,2],d:3},e"
  = [ "a='x\'y,z'"; "b={c:[1,2],d:3}"; "e" ].
Proof. reflexivity. Qed.

(** C6 (the code departs from the claim).  An item given without
    brackets is returned as typed: the branch for a command without
    components returns [parts[0]] and never reaches the lines that add
    the namespace. *)
Theorem bare_id_returned_unqualified :
  parse_give_command "diamond" = Ok ("diamond", 1, []).
Proof. reflexivity. Qed.

(** What the parser does do about names.  A key of the components is
    always qualified. *)
Lemma qualify_contains_colon (key : string) :
  PyStr.contains ":"
    (if negb (PyStr.contains ":" key) then "minecraft:" +:+ key else key)
  = true.
Proof. destruct (PyStr.contains ":" key) eqn:E; [exact E | reflexivity]. Qed.

Lemma dict_set_keys (P : string -> Prop) d k (v : pyval) :
  Forall (fun kv => P (fst kv)) d -> P k ->
  Forall (fun kv => P (fst kv)) (dict_set d k v).
Proof.
  induction d as [|[k' v'] d IH]; intros Hd Hk; simpl.
  - repeat constructor. exact Hk.
  - inversion Hd; subst. case_decide; constructor; auto.
Qed.

Lemma add_components_keys parts components :
  Forall (fun kv => PyStr.contains ":" (fst kv) = true) components ->
  Forall (fun kv => PyStr.contains ":" (fst kv) = true)
         (add_components components parts).
Proof.
  revert components.
  induction parts as [|part parts IH]; intros components Hc; simpl;
    [exact Hc|].
  destruct (PyStr.contains "=" part); [|auto].
  destruct (PyStr.split_once "=" part) as [key value].
  apply IH.
  apply (dict_set_keys (fun k => PyStr.contains ":" k = true)); [exact Hc|].
  apply qualify_contains_colon.
Qed.

Lemma component_keys_qualified nbt_str :
  Forall (fun kv => PyStr.contains ":" (fst kv) = true)
         (parse_nbt_components nbt_str).
Proof.
  unfold parse_nbt_components. destruct (decide _); [constructor|].
  apply add_components_keys. constructor.
Qed.

(** The id is qualified in the branch with brackets; the other branch is
    the one that returns no components. *)
Lemma qualified_or_no_components give_cmd item_id count components :
  parse_give_command give_cmd = Ok (item_id, count, components) ->
  PyStr.contains ":" item_id = true \/ components = [].
Proof.
  unfold parse_give_command.
  set (cmd := match PyStr.split_space_once _ with
              | [_; rest] => rest | _ => _ end).
  destruct (PyStr.contains "[" cmd).
  - destruct (PyStr.split_once "[" cmd) as [id0 nbt]. intros Hr. left.
    destruct (decide _) as [?|?]; simpl in Hr.
    + destruct (py_isdigit _); simpl in Hr.
      * destruct (py_int _); simpl in Hr; [|discriminate].
        injection Hr as <- _ _. apply qualify_contains_colon.
      * injection Hr as <- _ _. apply qualify_contains_colon.
    + injection Hr as <- _ _. apply qualify_contains_colon.
  - intros Hr. right.
    destruct (PyStr.split_space cmd) as [|a [|b l]]; [discriminate| |].
    + injection Hr as _ _ <-. reflexivity.
    + destruct (py_int b); [|discriminate].
      injection Hr as _ _ <-. reflexivity.
Qed.

(** A second word makes the parser drop the first: the item of a command
    without selector is lost, and the count is taken for the item. *)
Lemma item_before_count_dropped :
  parse_give_command "diamond 3" = Ok ("3", 1, []).
Proof. reflexivity. Qed.

(** So it is with the item spec of the specification's scenario,
    [diamond_sword[custom_name='"Sword"',enchantments={sharpness:5}] 2],
    and with the example the tool prints at its prompt,
    [diamond_sword[custom_name='"Magic Sword"']]: the text behind the
    first blank is all that is parsed. *)
Lemma item_with_components_and_count_dropped :
  parse_give_command
    ("diamond_sword[custom_name='" +:+ dq +:+ "Sword" +:+ dq
     +:+ "',enchantments={sharpness:5}] 2")
  = Ok ("2", 1, []).
Proof. reflexivity. Qed.

Lemma prompt_example_cut_at_blank :
  parse_give_command
    ("diamond_sword[custom_name='" +:+ dq +:+ "Magic Sword" +:+ dq +:+ "']")
  = Ok ("Sword" +:+ dq +:+ "']", 1, []).
Proof. reflexivity. Qed.

End GiveCommand.

(** ** The usercache *)

Section Usercache.
Context `{!Json} `{!PyLibs}.

(** C4 (the code departs from the claim).  Two of the readers are not
    tolerant.  In [nbtcore.py] the function has no [return] for a missing
    file: it answers [None], and [list_players] fails on the first player
    file ([None] has no [get]).  In [nbt_lib.py] only [FileNotFoundError]
    is caught: a cache that is not valid JSON makes [load_usercache]
    raise, and [list_players] with it; and where no name is known the
    fallback is the text "Unknown", not the identifier. *)
Theorem usercache_not_tolerated :
  NbtCore.load_usercache ∅ = None
  /\ NbtCore.list_players ∅ (Some ["steve.dat"]) = Err AttributeError
  /\ (forall text, json_load text = None ->
        NbtLib.load_usercache {[ USERCACHE_PATH := text ]}
        = Err JSONDecodeError
        /\ NbtLib.list_players {[ USERCACHE_PATH := text ]} (Some ["steve.dat"])
           = Err JSONDecodeError)
  /\ NbtLib.get_player_name ∅ "steve" = Ok (PStr "Unknown").
Proof.
  split; [reflexivity|]. split; [reflexivity|]. split; [|reflexivity].
  intros text Htext.
  assert (Hload : NbtLib.load_usercache {[ USERCACHE_PATH := text ]}
                  = Err JSONDecodeError).
  { unfold NbtLib.load_usercache. rewrite lookup_singleton_eq, Htext.
    reflexivity. }
  split; [exact Hload|].
  unfold NbtLib.list_players.
  change (filter _ ["steve.dat"]) with ["steve.dat"].
  unfold collect_players, get_player_name. rewrite Hload. reflexivity.
Qed.

(** [nbtviewer.py] has the same function with the final [return {}]:
    there both states of the cache give the empty map, and every player
    is listed under its identifier. *)
Lemma viewer_cache_missing :
  NbtCore.load_usercache_viewer ∅ = [].
Proof. reflexivity. Qed.

Lemma viewer_cache_malformed (fs : disk) text :
  fs !! NbtCore.USERCACHE = Some text -> json_load text = None ->
  NbtCore.load_usercache_viewer fs = [].
Proof.
  intros Hfs Htext. unfold NbtCore.load_usercache_viewer.
  rewrite Hfs, Htext. reflexivity.
Qed.

Lemma player_rows_empty_cache files :
  NbtCore.player_rows (Some []) files
  = Ok ((fun f => (PStr (PyStr.drop_end 4 f), PyStr.drop_end 4 f,
                   NbtCore.PLAYERDATA_DIR +:+ "/" +:+ f)) <$> files).
Proof.
  induction files as [|f files IH]; [reflexivity|].
  cbn [NbtCore.player_rows]. rewrite IH. reflexivity.
Qed.

(** In [nbtcore.py] a cache that is not valid JSON is tolerated. *)
Lemma nbtcore_cache_malformed (fs : disk) text listing :
  fs !! NbtCore.USERCACHE = Some text -> json_load text = None ->
  NbtCore.load_usercache fs = Some []
  /\ NbtCore.list_players fs listing
     = Ok ((fun f => (PStr (PyStr.drop_end 4 f), PyStr.drop_end 4 f,
                      NbtCore.PLAYERDATA_DIR +:+ "/" +:+ f))
           <$> NbtCore.list_player_files listing).
Proof.
  intros Hfs Htext.
  assert (Hload : NbtCore.load_usercache fs = Some []).
  { unfold NbtCore.load_usercache. rewrite Hfs, Htext. reflexivity. }
  split; [exact Hload|].
  unfold NbtCore.list_players. rewrite Hload. apply player_rows_empty_cache.
Qed.

End Usercache.

(** A cache holding an opening brace only, under a reader that accepts the
    empty array and nothing else. *)
Lemma malformed_cache_raises_example :
  @NbtLib.load_usercache json_empty_array_only {[ USERCACHE_PATH := [x7b] ]}
  = Err JSONDecodeError.
Proof. vm_compute. reflexivity. Qed.

(** ** The reader *)

Section ReaderFacts.
Context `{!Float32}.
Variable data : list byte.

(** C5, as amended.  A negative length is not refused: [range(length)]
    is empty for it, so the array or list is read as the empty list, and
    reading goes on right behind the length. *)
Theorem negative_length_reads_empty (fuel : nat) (pos length pos' : Z) :
  read_int data pos = Ok (length, pos') ->
  length < 0 ->
  read_tag data (S fuel) TAG_Byte_Array pos = Ok (PList [], pos')
  /\ read_tag data (S fuel) TAG_Int_Array pos = Ok (PList [], pos')
  /\ read_tag data (S fuel) TAG_Long_Array pos = Ok (PList [], pos')
  /\ (forall pos0 list_type,
        read_ubyte data pos0 = Ok (list_type, pos) ->
        read_tag data (S fuel) TAG_List pos0 = Ok (PList [], pos')).
Proof.
  intros Hlen Hneg.
  assert (Hn : Z.to_nat length = 0%nat) by lia.
  repeat split.
  1-3: cbn -[read_int read_byte read_long]; unfold read_ints;
       rewrite Hlen; cbn -[read_int read_byte read_long];
       rewrite Hn; reflexivity.
  intros pos0 list_type Hty.
  cbn -[read_int read_ubyte read_n]. rewrite Hty.
  cbn -[read_int read_ubyte read_n]. rewrite Hlen.
  cbn -[read_int read_ubyte read_n]. rewrite Hn. reflexivity.
Qed.

(** A tag type the reader does not know is read as [None], and takes no
    bytes. *)
Lemma unknown_kind_reads_none (fuel : nat) (tag_type pos : Z) :
  tag_type = TAG_End \/ TAG_Long_Array < tag_type \/ tag_type < 0 ->
  read_tag data (S fuel) tag_type pos = Ok (PNone, pos).
Proof.
  unfold TAG_End, TAG_Long_Array. intros Hk.
  cbn -[read_byte read_short read_int read_long read_float read_double
        read_string read_ubyte read_ints read_n read_compound Z.eqb].
  unfold TAG_End, TAG_Byte, TAG_Short, TAG_Int, TAG_Long, TAG_Float,
    TAG_Double, TAG_Byte_Array, TAG_String, TAG_List, TAG_Compound,
    TAG_Int_Array, TAG_Long_Array.
  repeat (case_match; [try lia; try reflexivity|]); try reflexivity.
  all: lia.
Qed.

End ReaderFacts.

(** C5, the claim as stated fails: a byte array of length -1 in a
    well-formed file.  ([0A 00 00] opens the root; [07 00 01 61] is a byte
    array named "a"; [FF FF FF FF] is its length; [00] ends the root.) *)
Lemma negative_array_length_decodes :
  @read_root ieee_widen
    [x0a; x00; x00; x07; x00; x01; x61; xff; xff; xff; xff; x00] 2
  = Ok (PDict [("a", PList [])]).
Proof. vm_compute. reflexivity. Qed.

Lemma negative_length_reads_empty_witness :
  read_int [xff; xff; xff; xff] 0 = Ok (-1, 4)
  /\ @read_tag ieee_widen [xff; xff; xff; xff] 1 TAG_Byte_Array 0
     = Ok (PList [], 4).
Proof.
  split; [reflexivity|].
  apply (@negative_length_reads_empty ieee_widen [xff; xff; xff; xff]
           0%nat 0 (-1) 4); [reflexivity | lia].
Defined.

(** ** The writer *)

(** The closures [write_tag] returns for a list and for a dict are the
    calls of [write_list] and [write_compound]. *)
Lemma write_tag_list first lst :
  write_tag (PList (first :: lst))
  = '(first_type, _) ← write_tag first;
    Ok (TAG_List, write_list (first :: lst) first_type).
Proof. reflexivity. Qed.

Lemma write_tag_dict compound :
  write_tag (PDict compound) = Ok (TAG_Compound, write_compound compound).
Proof. reflexivity. Qed.

Lemma write_ubyte_ok ty : 0 <= ty < 256 -> write_ubyte ty = Ok [byte_of_Z ty].
Proof.
  intros H. unfold write_ubyte, pack_unsigned.
  replace ((0 <=? ty) && (ty <? 2 ^ (8 * Z.of_nat 1))) with true.
  - cbn. rewrite Z.div_1_r. reflexivity.
  - symmetry. apply andb_true_iff. split; [apply Z.leb_le|apply Z.ltb_lt]; cbn; lia.
Qed.

Lemma write_tag_kind v :
  write_tag v = Err ValueError
  \/ exists ty w, write_tag v = Ok (ty, w) /\ 1 <= ty <= 10.
Proof.
  induction v using pyval_ind; cbn; try (right; do 2 eexists; split; [reflexivity|]; unfold TAG_Byte, TAG_Double, TAG_String, TAG_Compound; lia).
  - left; reflexivity.
  - right. repeat case_match; do 2 eexists; (split; [reflexivity|]); unfold TAG_Byte, TAG_Short, TAG_Int, TAG_Long; lia.
  - destruct l as [|x l]; [right; do 2 eexists; split; [reflexivity|unfold TAG_List; lia]|].
    inversion H as [|? ? Hx _]; subst.
    destruct Hx as [->|(ty & w & -> & _)]; [left; reflexivity|].
    right. cbn. do 2 eexists; split; [reflexivity|unfold TAG_List; lia].
Qed.

Lemma bind_no_fuel {A B} (m : res A) (f : A -> res B) :
  m <> NoFuel -> (forall a, f a <> NoFuel) -> (m ≫= f) <> NoFuel.
Proof. destruct m; cbn; auto; congruence. Qed.

Lemma bind_err_l {A B} (m : res A) (f : A -> res B) :
  is_err m -> is_err (m ≫= f).
Proof. intros [e ->]. exists e. reflexivity. Qed.

Lemma bind_err_r {A B} (m : res A) (f : A -> res B) :
  m <> NoFuel -> (forall a, is_err (f a)) -> is_err (m ≫= f).
Proof. destruct m; cbn; intros; auto; [eexists; reflexivity | congruence]. Qed.

Lemma pack_signed_no_fuel n v : pack_signed n v <> NoFuel.
Proof. unfold pack_signed. case_match; congruence. Qed.

Lemma pack_unsigned_no_fuel n v : pack_unsigned n v <> NoFuel.
Proof. unfold pack_unsigned. case_match; congruence. Qed.

Lemma write_string_no_fuel s : write_string s <> NoFuel.
Proof.
  unfold write_string. apply bind_no_fuel; [apply pack_signed_no_fuel|congruence].
Qed.

Lemma write_items_cons item lst :
  write_items write_tag (item :: lst)
  = b ← written item; bs ← write_items write_tag lst; Ok (b ++ bs).
Proof.
  cbn [write_items]. unfold written.
  destruct (write_tag item) as [[ty w]| |]; reflexivity.
Qed.

Lemma write_items_no_fuel l :
  Forall (fun x => written x <> NoFuel) l -> write_items write_tag l <> NoFuel.
Proof.
  induction 1 as [|x l Hx _ IH]; [cbn; congruence|].
  rewrite write_items_cons. apply bind_no_fuel; [exact Hx|]. intros b.
  apply bind_no_fuel; [exact IH|]. congruence.
Qed.

Lemma written_tag_no_fuel v : written v <> NoFuel -> write_tag v <> NoFuel.
Proof. unfold written. intros H E. rewrite E in H. apply H. reflexivity. Qed.

Lemma write_entries_no_fuel d :
  Forall (fun kv => written (snd kv) <> NoFuel) d ->
  write_entries write_tag d <> NoFuel.
Proof.
  induction 1 as [|[name val] d Hx _ IH]; [cbn; congruence|].
  cbn [write_entries]. cbn [snd] in Hx. unfold written in Hx.
  destruct (write_tag val) as [[ty w]| |]; cbn in *; [|congruence|congruence].
  apply bind_no_fuel; [apply pack_unsigned_no_fuel|]. intros t.
  apply bind_no_fuel; [apply write_string_no_fuel|]. intros n.
  apply bind_no_fuel; [exact Hx|]. intros b.
  apply bind_no_fuel; [exact IH|]. congruence.
Qed.

Lemma written_no_fuel v : written v <> NoFuel.
Proof.
  induction v using pyval_ind; unfold written; cbn.
  - congruence.
  - apply pack_signed_no_fuel.
  - repeat case_match; cbn; apply pack_signed_no_fuel.
  - unfold write_double; congruence.
  - apply write_string_no_fuel.
  - destruct l as [|x l]; [vm_compute; congruence|].
    pose proof (write_items_no_fuel _ H) as Hitems.
    inversion H as [|? ? Hx _]; subst. apply written_tag_no_fuel in Hx.
    destruct (write_tag x) as [[ty w]| |]; cbn; [|congruence|congruence].
    apply bind_no_fuel; [apply pack_unsigned_no_fuel|]. intros t.
    apply bind_no_fuel; [apply pack_signed_no_fuel|]. intros n.
    apply bind_no_fuel; [exact Hitems|]. congruence.
  - apply bind_no_fuel; [apply write_entries_no_fuel; exact H|]. intros bs.
    apply bind_no_fuel; [apply pack_unsigned_no_fuel|]. congruence.
Qed.

Lemma written_of_tag v ty w : write_tag v = Ok (ty, w) -> written v = w.
Proof. unfold written. intros ->. reflexivity. Qed.

Lemma write_items_err l :
  Forall (fun x => has_none x = true -> is_err (written x)) l ->
  existsb has_none l = true -> is_err (write_items write_tag l).
Proof.
  induction 1 as [|x l Hx _ IH]; [discriminate|].
  cbn [existsb]. rewrite write_items_cons. destruct (has_none x).
  - intros _. apply bind_err_l. auto.
  - cbn. intros Hl. apply bind_err_r; [apply written_no_fuel|].
    intros b. apply bind_err_l. auto.
Qed.

Lemma write_entries_err d :
  Forall (fun kv => has_none (snd kv) = true -> is_err (written (snd kv))) d ->
  existsb (fun kv => has_none (snd kv)) d = true ->
  is_err (write_entries write_tag d).
Proof.
  induction 1 as [|[name val] d Hx _ IH]; [discriminate|].
  cbn [existsb write_entries snd] in *.
  pose proof (written_no_fuel val) as Hnf.
  destruct (write_tag val) as [[ty w]|e|] eqn:Etag.
  - rewrite (written_of_tag _ _ _ Etag) in Hx, Hnf. cbn.
    intros Hex.
    apply bind_err_r; [apply pack_unsigned_no_fuel|]. intros t.
    apply bind_err_r; [apply write_string_no_fuel|]. intros n.
    destruct (has_none val).
    + apply bind_err_l. auto.
    + apply bind_err_r; [exact Hnf|]. intros b. apply bind_err_l. auto.
  - intros _. exists e. reflexivity.
  - exfalso. apply Hnf. unfold written. rewrite Etag. reflexivity.
Qed.

Lemma written_none_fails v : has_none v = true -> is_err (written v).
Proof.
  induction v using pyval_ind; cbn [has_none]; try discriminate.
  - intros _. exists ValueError. reflexivity.
  - intros Hex. destruct l as [|x l]; [discriminate|].
    pose proof (write_items_err _ H Hex) as Hitems.
    pose proof (written_tag_no_fuel x (written_no_fuel x)) as Hx.
    unfold written. cbn [write_tag].
    remember (write_items write_tag (x :: l)) as items eqn:E. clear E.
    destruct (write_tag x) as [[ty w]|e|]; cbn; [|eexists; reflexivity|congruence].
    apply bind_err_r; [apply pack_unsigned_no_fuel|]. intros t.
    apply bind_err_r; [apply pack_signed_no_fuel|]. intros n.
    apply bind_err_l. exact Hitems.
  - intros Hex. unfold written. cbn.
    apply bind_err_l. apply write_entries_err; assumption.
Qed.

Lemma pack_signed_ok (n : nat) z :
  - 2 ^ (8 * Z.of_nat n - 1) <= z < 2 ^ (8 * Z.of_nat n - 1) ->
  pack_signed n z = Ok (be_bytes n z).
Proof.
  intros [Hlo Hhi]. unfold pack_signed.
  apply Z.leb_le in Hlo. apply Z.ltb_lt in Hhi. rewrite Hlo, Hhi. reflexivity.
Qed.

Lemma write_string_ok s :
  short_str s = true ->
  write_string s = Ok (be_bytes 2 (Z.of_nat (length (list_byte_of_string s)))
                       ++ list_byte_of_string s).
Proof.
  unfold short_str, write_string, write_short. intros H%Z.leb_le.
  rewrite pack_signed_ok; [reflexivity|]. cbn. lia.
Qed.

Lemma write_int_ok z :
  - 2 ^ 31 <= z < 2 ^ 31 -> write_int z = Ok (be_bytes 4 z).
Proof. intros H. apply pack_signed_ok. cbn. lia. Qed.

Lemma write_items_packed l :
  Forall packed l ->
  if existsb has_none l then write_items write_tag l = Err ValueError
  else exists bs, write_items write_tag l = Ok bs.
Proof.
  induction 1 as [|x l Hx _ IH]; [cbn; eauto|].
  cbn [existsb]. rewrite write_items_cons. unfold packed in Hx.
  destruct (has_none x); cbn [orb].
  - rewrite Hx. reflexivity.
  - destruct Hx as [b ->]. cbn. destruct (existsb has_none l).
    + rewrite IH. reflexivity.
    + destruct IH as [bs ->]. cbn. eauto.
Qed.

Lemma write_entries_packed d :
  Forall (fun kv => short_str (fst kv) = true /\ packed (snd kv)) d ->
  if existsb (fun kv => has_none (snd kv)) d
  then write_entries write_tag d = Err ValueError
  else exists bs, write_entries write_tag d = Ok bs.
Proof.
  induction 1 as [|[name val] d [Hname Hx] _ IH]; [cbn; eauto|].
  cbn [existsb write_entries fst snd] in *. unfold packed in Hx.
  destruct (write_tag_kind val) as [Etag|(ty & w & Etag & Hty)].
  - assert (has_none val = true) as ->.
    { destruct (has_none val); [reflexivity|]. destruct Hx as [bs Hx].
      unfold written in Hx. rewrite Etag in Hx. discriminate. }
    rewrite Etag. reflexivity.
  - rewrite Etag. rewrite (written_of_tag _ _ _ Etag) in Hx. cbn.
    rewrite write_ubyte_ok by lia. cbn.
    rewrite (write_string_ok _ Hname). cbn.
    destruct (has_none val); cbn [orb].
    + rewrite Hx. reflexivity.
    + destruct Hx as [b ->]. cbn. destruct (existsb _ d).
      * rewrite IH. reflexivity.
      * destruct IH as [bs ->]. cbn. eauto.
Qed.

Lemma written_packed v : packable v = true -> packed v.
Proof.
  induction v using pyval_ind; unfold packed; cbn [has_none packable].
  - reflexivity.
  - intros _. destruct b; vm_compute; eauto.
  - intros [Hlo%Z.leb_le Hhi%Z.ltb_lt]%andb_true_iff. unfold written.
    cbn [write_tag]. unfold between, write_byte, write_short, write_int, write_long.
    repeat case_match;
      repeat match goal with
             | H : _ && _ = true |- _ => apply andb_true_iff in H; destruct H
             | H : (_ <=? _) = true |- _ => apply Z.leb_le in H
             end;
      (rewrite pack_signed_ok; [cbn; eauto|cbn; lia]).
  - intros _. eexists. reflexivity.
  - intros Hs. unfold written. cbn. rewrite (write_string_ok _ Hs). eauto.
  - intros [Hlen%Z.ltb_lt Hall]%andb_true_iff.
    assert (Hpk : Forall packed l).
    { rewrite forallb_forall in Hall. rewrite Forall_forall in H |- *.
      intros x Hx. apply H; [exact Hx|]. apply Hall. apply list_elem_of_In. exact Hx. }
    pose proof (write_items_packed _ Hpk) as Hitems.
    destruct l as [|x l]; [vm_compute; eauto|].
    unfold written. cbn [write_tag].
    remember (write_items write_tag (x :: l)) as items eqn:E. clear E.
    inversion Hpk as [|? ? Hx _]; subst. unfold packed in Hx.
    destruct (write_tag_kind x) as [Etag|(ty & w & Etag & Hty)].
    + rewrite Etag. cbn [existsb].
      assert (has_none x = true) as ->.
      { destruct (has_none x); [reflexivity|]. destruct Hx as [bs Hx].
        unfold written in Hx. rewrite Etag in Hx. discriminate. }
      reflexivity.
    + rewrite Etag. cbn. rewrite write_ubyte_ok by lia. cbn.
      rewrite write_int_ok by (cbn [length] in *; lia). cbn.
      cbn [existsb] in Hitems. destruct (has_none x || existsb has_none l).
      * rewrite Hitems. reflexivity.
      * destruct Hitems as [bs ->]. cbn. eauto.
  - intros Hall.
    assert (Hpk : Forall (fun kv => short_str (fst kv) = true /\ packed (snd kv)) d).
    { rewrite forallb_forall in Hall. rewrite Forall_forall in H |- *.
      intros kv Hkv. specialize (Hall kv (proj1 (list_elem_of_In _ _) Hkv)).
      apply andb_true_iff in Hall as [Hn Hp]. split; [exact Hn|]. apply H; assumption. }
    pose proof (write_entries_packed _ Hpk) as Hent.
    unfold written. cbn. destruct (existsb _ d).
    + rewrite Hent. reflexivity.
    + destruct Hent as [bs ->]. vm_compute. eauto.
Qed.

Lemma write_root_written compound :
  write_root (PDict compound)
  = bs ← written (PDict compound); Ok ([x0a; x00; x00] ++ bs).
Proof. reflexivity. Qed.

(** C10, as amended.  A tree with a [None] node is never written:
    [write_root] raises.  The exception is the [ValueError] of
    [write_tag] when the nodes of the tree are within the ranges of
    [struct]; otherwise a node written before the [None] may raise
    [struct.error] first. *)
Theorem none_node_never_written (compound : list (pystr * pyval)) :
  has_none (PDict compound) = true ->
  is_err (write_root (PDict compound))
  /\ (packable (PDict compound) = true ->
      write_root (PDict compound) = Err ValueError).
Proof.
  intros Hnone. rewrite write_root_written. split.
  - apply bind_err_l. apply written_none_fails. exact Hnone.
  - intros Hpk. pose proof (written_packed _ Hpk) as Hw.
    unfold packed in Hw. rewrite Hnone in Hw. rewrite Hw. reflexivity.
Qed.

Lemma none_node_never_written_witness :
  has_none (PDict [("a", PList [PInt 1; PNone])]) = true
  /\ is_err (write_root (PDict [("a", PList [PInt 1; PNone])]))
  /\ write_root (PDict [("a", PList [PInt 1; PNone])]) = Err ValueError.
Proof.
  split; [reflexivity|].
  destruct (none_node_never_written [("a", PList [PInt 1; PNone])] eq_refl)
    as [Hfail Hvalue].
  split; [exact Hfail | exact (Hvalue eq_refl)].
Defined.

(** C10, the claim as stated fails: the integer does not fit 64 bits,
    and [write_long] raises [struct.error] before the [None] is reached. *)
Lemma none_after_wide_int_raises_struct_error :
  has_none (PDict [("a", PInt (2 ^ 70)); ("b", PNone)]) = true
  /\ write_root (PDict [("a", PInt (2 ^ 70)); ("b", PNone)]) = Err StructError.
Proof. split; reflexivity. Qed.

(** A file with a tag type the reader does not know, 13, decodes, the
    entry being [None]; the tree cannot be written back. *)
Lemma unknown_kind_not_saved_back :
  @read_root ieee_widen [x0a; x00; x00; x0d; x00; x01; x61; x00] 2
  = Ok (PDict [("a", PNone)])
  /\ write_root (PDict [("a", PNone)]) = Err ValueError.
Proof. split; vm_compute; reflexivity. Qed.

(** ** Writing and reading back *)

Lemma Z_of_byte_range b : 0 <= Z_of_byte b < 256.
Proof.
  unfold Z_of_byte. pose proof (Byte.to_N_bounded b). lia.
Qed.

Lemma Z_of_byte_of_Z z : Z_of_byte (byte_of_Z z) = z mod 256.
Proof.
  unfold Z_of_byte, byte_of_Z.
  pose proof (Z.mod_pos_bound z 256 ltac:(lia)) as Hm.
  destruct (Byte.of_N (Z.to_N (z mod 256))) as [b|] eqn:E.
  - apply Byte.to_of_N in E. rewrite E. lia.
  - apply Byte.of_N_None_iff in E. lia.
Qed.

Lemma byte_of_Z_of_byte b : byte_of_Z (Z_of_byte b) = b.
Proof.
  unfold byte_of_Z. pose proof (Z_of_byte_range b).
  rewrite Z.mod_small by lia. unfold Z_of_byte. rewrite N2Z.id.
  rewrite Byte.of_to_N. reflexivity.
Qed.

Lemma length_be_bytes n z : length (be_bytes n z) = n.
Proof. induction n as [|n IH]; cbn [be_bytes length]; [reflexivity|]. rewrite IH. reflexivity. Qed.

Lemma be_value_acc bs acc :
  fold_left (fun a b => a * 256 + Z_of_byte b) bs acc
  = acc * 256 ^ Z.of_nat (length bs) + be_value bs.
Proof.
  unfold be_value. revert acc. induction bs as [|b bs IH]; intros acc.
  - cbn. lia.
  - cbn [fold_left length]. rewrite IH, (IH (0 * 256 + _)).
    rewrite Nat2Z.inj_succ, Z.pow_succ_r by lia. lia.
Qed.

Lemma be_value_cons b bs :
  be_value (b :: bs) = Z_of_byte b * 256 ^ Z.of_nat (length bs) + be_value bs.
Proof. unfold be_value at 1. cbn [fold_left]. rewrite be_value_acc. lia. Qed.

Lemma be_value_be_bytes n z : be_value (be_bytes n z) = z mod 256 ^ Z.of_nat n.
Proof.
  induction n as [|n IH].
  - cbn. rewrite Z.mod_1_r. reflexivity.
  - cbn [be_bytes]. rewrite be_value_cons, length_be_bytes, IH, Z_of_byte_of_Z.
    rewrite Nat2Z.inj_succ, Z.pow_succ_r by lia.
    rewrite (Z.mul_comm 256), Z.rem_mul_r by lia. lia.
Qed.

Lemma to_signed_mod (w z : Z) :
  0 < w -> - 2 ^ (w - 1) <= z < 2 ^ (w - 1) ->
  to_signed w (z mod 2 ^ w) = z.
Proof.
  intros Hw Hz. unfold to_signed.
  assert (Hp : 2 ^ w = 2 * 2 ^ (w - 1)).
  { rewrite <- Z.pow_succ_r by lia. f_equal. lia. }
  destruct (Z.ltb_spec (z mod 2 ^ w) (2 ^ (w - 1))) as [Hlt|Hge].
  - destruct (Z.le_gt_cases 0 z) as [Hpos|Hneg].
    + apply Z.mod_small. lia.
    + exfalso. rewrite <- (Z.mod_add z 1) in Hlt by lia.
      rewrite Z.mod_small in Hlt by lia. lia.
  - destruct (Z.le_gt_cases 0 z) as [Hpos|Hneg].
    + exfalso. rewrite Z.mod_small in Hge by lia. lia.
    + rewrite <- (Z.mod_add z 1) by lia. rewrite Z.mod_small by lia. lia.
Qed.

Lemma pow_256 n : 256 ^ Z.of_nat n = 2 ^ (8 * Z.of_nat n).
Proof. rewrite Z.pow_mul_r by lia. reflexivity. Qed.

Lemma unpack_pack_signed n z bs :
  (0 < n)%nat -> pack_signed n z = Ok bs -> unpack_signed n bs = Ok z.
Proof.
  intros Hn. unfold pack_signed.
  destruct (_ && _) eqn:Hr; [|discriminate]. intros [= <-].
  apply andb_true_iff in Hr as [Hlo%Z.leb_le Hhi%Z.ltb_lt].
  unfold unpack_signed, unpack_unsigned.
  rewrite decide_True by apply length_be_bytes. cbn.
  rewrite be_value_be_bytes, pow_256, to_signed_mod; [reflexivity|lia|lia].
Qed.

Lemma unpack_pack_unsigned n z bs :
  pack_unsigned n z = Ok bs -> unpack_unsigned n bs = Ok z.
Proof.
  unfold pack_unsigned.
  destruct (_ && _) eqn:Hr; [|discriminate]. intros [= <-].
  apply andb_true_iff in Hr as [Hlo%Z.leb_le Hhi%Z.ltb_lt].
  unfold unpack_unsigned. rewrite decide_True by apply length_be_bytes.
  rewrite be_value_be_bytes, pow_256, Z.mod_small by lia. reflexivity.
Qed.

Lemma length_pack_signed n z bs : pack_signed n z = Ok bs -> length bs = n.
Proof. unfold pack_signed. case_match; [|discriminate]. intros [= <-]. apply length_be_bytes. Qed.

Lemma length_pack_unsigned n z bs : pack_unsigned n z = Ok bs -> length bs = n.
Proof. unfold pack_unsigned. case_match; [|discriminate]. intros [= <-]. apply length_be_bytes. Qed.

Lemma at_pos_app data pos a b :
  at_pos data pos (a ++ b) ->
  at_pos data pos a /\ at_pos data (pos + Z.of_nat (length a)) b.
Proof.
  intros (pre & suf & -> & ->). split.
  - exists pre, (b ++ suf). rewrite <- app_assoc. auto.
  - exists (pre ++ a), suf. rewrite length_app, <- !app_assoc. split; [reflexivity|lia].
Qed.

Lemma py_slice_at data pos bs :
  at_pos data pos bs -> py_slice data pos (pos + Z.of_nat (length bs)) = bs.
Proof.
  intros (pre & suf & -> & ->). unfold py_slice, clamp_index.
  rewrite !length_app.
  destruct (Z.ltb_spec (Z.of_nat (length pre)) 0) as [?|_]; [lia|].
  destruct (Z.ltb_spec (Z.of_nat (length pre) + Z.of_nat (length bs)) 0) as [?|_]; [lia|].
  rewrite !Z.min_l by lia.
  replace (Z.to_nat (_ + _ - _)) with (length bs) by lia.
  rewrite Nat2Z.id, drop_app_length, take_app_length. reflexivity.
Qed.

Lemma bind_ok_inv {A B} (m : res A) (f : A -> res B) b :
  m ≫= f = Ok b -> exists a, m = Ok a /\ f a = Ok b.
Proof. destruct m; cbn; [eauto|discriminate..]. Qed.

Section ReadBack.
Context {float32_inst : Float32}.
Variable data : list byte.

Lemma read_byte_at pos z bs :
  write_byte z = Ok bs -> at_pos data pos bs ->
  read_byte data pos = Ok (z, pos + Z.of_nat (length bs)).
Proof.
  intros Hw Hat. unfold read_byte.
  pose proof (py_slice_at _ _ _ Hat) as Hs.
  rewrite (length_pack_signed _ _ _ Hw) in Hs |- *.
  change (Z.of_nat 1) with 1 in Hs |- *. rewrite Hs.
  rewrite (unpack_pack_signed 1 z bs) by (auto; lia). reflexivity.
Qed.

Lemma read_ubyte_at pos z bs :
  write_ubyte z = Ok bs -> at_pos data pos bs ->
  read_ubyte data pos = Ok (z, pos + Z.of_nat (length bs)).
Proof.
  intros Hw Hat. unfold read_ubyte.
  pose proof (py_slice_at _ _ _ Hat) as Hs.
  rewrite (length_pack_unsigned _ _ _ Hw) in Hs |- *.
  change (Z.of_nat 1) with 1 in Hs |- *. rewrite Hs.
  rewrite (unpack_pack_unsigned 1 z bs) by auto. reflexivity.
Qed.

Lemma read_short_at pos z bs :
  write_short z = Ok bs -> at_pos data pos bs ->
  read_short data pos = Ok (z, pos + Z.of_nat (length bs)).
Proof.
  intros Hw Hat. unfold read_short.
  pose proof (py_slice_at _ _ _ Hat) as Hs.
  rewrite (length_pack_signed _ _ _ Hw) in Hs |- *.
  change (Z.of_nat 2) with 2 in Hs |- *. rewrite Hs.
  rewrite (unpack_pack_signed 2 z bs) by (auto; lia). reflexivity.
Qed.

Lemma read_int_at pos z bs :
  write_int z = Ok bs -> at_pos data pos bs ->
  read_int data pos = Ok (z, pos + Z.of_nat (length bs)).
Proof.
  intros Hw Hat. unfold read_int.
  pose proof (py_slice_at _ _ _ Hat) as Hs.
  rewrite (length_pack_signed _ _ _ Hw) in Hs |- *.
  change (Z.of_nat 4) with 4 in Hs |- *. rewrite Hs.
  rewrite (unpack_pack_signed 4 z bs) by (auto; lia). reflexivity.
Qed.

Lemma read_long_at pos z bs :
  write_long z = Ok bs -> at_pos data pos bs ->
  read_long data pos = Ok (z, pos + Z.of_nat (length bs)).
Proof.
  intros Hw Hat. unfold read_long.
  pose proof (py_slice_at _ _ _ Hat) as Hs.
  rewrite (length_pack_signed _ _ _ Hw) in Hs |- *.
  change (Z.of_nat 8) with 8 in Hs |- *. rewrite Hs.
  rewrite (unpack_pack_signed 8 z bs) by (auto; lia). reflexivity.
Qed.

Lemma read_double_at pos bits :
  0 <= bits < 2 ^ 64 -> at_pos data pos (be_bytes 8 bits) ->
  read_double data pos = Ok (bits, pos + 8).
Proof.
  intros Hb Hat. unfold read_double.
  pose proof (py_slice_at _ _ _ Hat) as Hs. rewrite length_be_bytes in Hs.
  change (Z.of_nat 8) with 8 in Hs. rewrite Hs.
  unfold unpack_unsigned. rewrite decide_True by apply length_be_bytes.
  rewrite be_value_be_bytes, Z.mod_small by (cbn; lia). reflexivity.
Qed.

Lemma read_string_at pos s bs :
  plain_str s = true -> write_string s = Ok bs -> at_pos data pos bs ->
  read_string data pos = Ok (s, pos + Z.of_nat (length bs)).
Proof.
  unfold plain_str. intros [Hutf Hshort]%andb_true_iff Hw Hat.
  unfold write_string in Hw. apply bind_ok_inv in Hw as (h & Hh & [= <-]).
  apply at_pos_app in Hat as [Hat1 Hat2].
  unfold read_string. rewrite (read_short_at _ _ _ Hh Hat1). cbn.
  rewrite (py_slice_at _ _ _ Hat2). unfold decode_utf8. rewrite Hutf. cbn.
  rewrite string_of_list_byte_of_string, length_app. do 2 f_equal. lia.
Qed.

End ReadBack.

Section RoundTrip.
Context {float32_inst : Float32}.

Lemma read_tag_byte data f pos :
  read_tag data (S f) TAG_Byte pos
  = '(v, pos) ← read_byte data pos; Ok (PInt v, pos).
Proof. reflexivity. Qed.
Lemma read_tag_short data f pos :
  read_tag data (S f) TAG_Short pos
  = '(v, pos) ← read_short data pos; Ok (PInt v, pos).
Proof. reflexivity. Qed.
Lemma read_tag_int data f pos :
  read_tag data (S f) TAG_Int pos
  = '(v, pos) ← read_int data pos; Ok (PInt v, pos).
Proof. reflexivity. Qed.
Lemma read_tag_long data f pos :
  read_tag data (S f) TAG_Long pos
  = '(v, pos) ← read_long data pos; Ok (PInt v, pos).
Proof. reflexivity. Qed.
Lemma read_tag_double data f pos :
  read_tag data (S f) TAG_Double pos
  = '(v, pos) ← read_double data pos; Ok (PFloat v, pos).
Proof. reflexivity. Qed.
Lemma read_tag_string data f pos :
  read_tag data (S f) TAG_String pos
  = '(v, pos) ← read_string data pos; Ok (PStr v, pos).
Proof. reflexivity. Qed.
Lemma read_tag_list data f pos :
  read_tag data (S f) TAG_List pos
  = '(list_type, pos) ← read_ubyte data pos;
    '(length, pos) ← read_int data pos;
    '(xs, pos) ← read_n (read_tag data f list_type) (Z.to_nat length) pos;
    Ok (PList xs, pos).
Proof. reflexivity. Qed.
Lemma read_tag_compound data f pos :
  read_tag data (S f) TAG_Compound pos
  = '(d, pos) ← read_compound data f [] pos; Ok (PDict d, pos).
Proof. reflexivity. Qed.
Lemma read_compound_step data f compound pos :
  read_compound data (S f) compound pos
  = '(tag_type, pos) ← read_ubyte data pos;
    if tag_type =? TAG_End then Ok (compound, pos)
    else
      '(name, pos) ← read_string data pos;
      '(v, pos) ← read_tag data f tag_type pos;
      read_compound data f (dict_set compound name v) pos.
Proof. reflexivity. Qed.

Lemma reads_back_int z :
  canonical (PInt z) = true -> reads_back (PInt z).
Proof.
  cbn [canonical]. intros _ ty bs Hw data pos fuel Hat Hfuel.
  destruct fuel as [|f]; [cbn in Hfuel; lia|].
  cbn [write_tag] in Hw.
  repeat case_match; injection Hw as <- Hw.
  - rewrite read_tag_byte, (read_byte_at _ _ _ _ Hw Hat). reflexivity.
  - rewrite read_tag_short, (read_short_at _ _ _ _ Hw Hat). reflexivity.
  - rewrite read_tag_int, (read_int_at _ _ _ _ Hw Hat). reflexivity.
  - rewrite read_tag_long, (read_long_at _ _ _ _ Hw Hat). reflexivity.
Qed.

Lemma reads_back_float bits :
  canonical (PFloat bits) = true -> reads_back (PFloat bits).
Proof.
  cbn [canonical]. intros [Hlo%Z.leb_le Hhi%Z.ltb_lt]%andb_true_iff.
  intros ty bs Hw data pos fuel Hat Hfuel.
  destruct fuel as [|f]; [cbn in Hfuel; lia|].
  cbn [write_tag] in Hw. unfold write_double in Hw. injection Hw as <- <-.
  rewrite read_tag_double, (read_double_at _ _ _ (conj Hlo Hhi) Hat).
  reflexivity.
Qed.

Lemma reads_back_str s :
  canonical (PStr s) = true -> reads_back (PStr s).
Proof.
  cbn [canonical]. intros Hs ty bs Hw data pos fuel Hat Hfuel.
  destruct fuel as [|f]; [cbn in Hfuel; lia|].
  cbn [write_tag] in Hw. injection Hw as <- Hw.
  rewrite read_tag_string, (read_string_at _ _ _ _ Hs Hw Hat). reflexivity.
Qed.

Lemma written_kind_tag v ty :
  written_kind v = Some ty -> exists w, write_tag v = Ok (ty, w).
Proof.
  unfold written_kind. destruct (write_tag v) as [[ty' w]| |]; [|discriminate..].
  intros [= ->]. eauto.
Qed.

Lemma read_items_back ft l :
  Forall (fun y => canonical y = true -> reads_back y) l ->
  forallb canonical l = true ->
  Forall (fun y => written_kind y = Some ft) l ->
  forall items, write_items write_tag l = Ok items ->
  forall data pos fuel, at_pos data pos items ->
  (list_sum (size <$> l) <= fuel)%nat ->
  read_n (read_tag data fuel ft) (length l) pos
  = Ok (l, pos + Z.of_nat (length items)).
Proof.
  induction 1 as [|y l Hy _ IH]; intros Hcan Hkind items Hw data pos fuel Hat Hfuel.
  - cbn in Hw. injection Hw as <-. cbn. do 2 f_equal. lia.
  - cbn [forallb] in Hcan. apply andb_true_iff in Hcan as [Hcy Hcl].
    inversion Hkind as [|? ? Hky Hkl]; subst.
    rewrite write_items_cons in Hw.
    apply bind_ok_inv in Hw as (b & Hb & Hw).
    apply bind_ok_inv in Hw as (bs & Hbs & [= <-]).
    apply written_kind_tag in Hky as [w Hty].
    rewrite (written_of_tag _ _ _ Hty) in Hb. subst w.
    apply at_pos_app in Hat as [Hat1 Hat2].
    assert (Hf : (size y + list_sum (size <$> l) <= fuel)%nat) by exact Hfuel.
    cbn [length read_n].
    rewrite (Hy Hcy _ _ Hty data pos fuel Hat1) by lia. cbn.
    rewrite (IH Hcl Hkl _ Hbs data _ fuel Hat2) by lia. cbn.
    rewrite length_app. do 2 f_equal. lia.
Qed.

Lemma dict_set_fresh d k v :
  k ∉ (fst <$> d) -> dict_set d k v = d ++ [(k, v)].
Proof.
  induction d as [|[k' v'] d IH]; [reflexivity|].
  cbn [fmap list_fmap fst dict_set]. rewrite not_elem_of_cons. intros [Hne Hd].
  rewrite decide_False by congruence. rewrite IH by exact Hd. reflexivity.
Qed.

Lemma foldl_dict_set acc (d : list (string * pyval)) :
  NoDup (fst <$> (acc ++ d)) ->
  foldl (fun a kv => dict_set a (fst kv) (snd kv)) acc d = acc ++ d.
Proof.
  revert acc. induction d as [|[k v] d IH]; intros acc Hnd.
  - cbn. rewrite app_nil_r. reflexivity.
  - cbn [foldl fst snd]. rewrite dict_set_fresh.
    + rewrite IH; rewrite <- app_assoc; [reflexivity|exact Hnd].
    + rewrite fmap_app in Hnd. apply NoDup_app in Hnd as (_ & Hdisj & _).
      intros Hin. apply (Hdisj _ Hin). left.
Qed.

Lemma read_entries_back d :
  Forall (fun kv => canonical (snd kv) = true -> reads_back (snd kv)) d ->
  forallb (fun kv => plain_str (fst kv) && canonical (snd kv)) d = true ->
  forall ebs, write_entries write_tag d = Ok ebs ->
  forall data pos fuel acc, at_pos data pos (ebs ++ [x00]) ->
  (S (list_sum ((fun kv => S (size (snd kv))) <$> d)) <= fuel)%nat ->
  read_compound data fuel acc pos
  = Ok (foldl (fun a kv => dict_set a (fst kv) (snd kv)) acc d,
        pos + Z.of_nat (length ebs) + 1).
Proof.
  induction 1 as [|[name val] d Hv _ IH]; intros Hcan ebs Hw data pos fuel acc Hat Hfuel.
  - cbn in Hw. injection Hw as <-. destruct fuel as [|f]; [lia|].
    rewrite read_compound_step.
    rewrite (read_ubyte_at data pos 0 [x00]) by (try reflexivity; exact Hat).
    cbn. do 2 f_equal. lia.
  - cbn [forallb fst snd] in Hcan, Hv.
    apply andb_true_iff in Hcan as [[Hname Hcv]%andb_true_iff Hcd].
    cbn [write_entries] in Hw.
    apply bind_ok_inv in Hw as ([ty w] & Hty & Hw).
    apply bind_ok_inv in Hw as (t & Ht & Hw).
    apply bind_ok_inv in Hw as (n & Hn & Hw).
    apply bind_ok_inv in Hw as (b & Hb & Hw).
    apply bind_ok_inv in Hw as (bs & Hbs & [= <-]).
    subst w.
    destruct (write_tag_kind val) as [E|(ty' & w' & E & Hrange)];
      rewrite E in Hty; [discriminate|]. injection Hty as -> ->.
    rewrite <- !app_assoc in Hat.
    apply at_pos_app in Hat as [Hat1 Hat].
    apply at_pos_app in Hat as [Hat2 Hat].
    apply at_pos_app in Hat as [Hat3 Hat].
    assert (Hf : (S (S (size val) + list_sum ((fun kv => S (size (snd kv))) <$> d))
                  <= fuel)%nat) by exact Hfuel.
    destruct fuel as [|f]; [lia|].
    rewrite read_compound_step.
    rewrite (read_ubyte_at _ _ _ _ Ht Hat1). cbn.
    destruct (Z.eqb_spec ty TAG_End) as [->|_]; [unfold TAG_End in Hrange; lia|].
    rewrite (read_string_at _ _ _ _ Hname Hn Hat2). cbn.
    rewrite (Hv Hcv _ _ E data _ f Hat3) by lia. cbn.
    rewrite (IH Hcd _ Hbs data _ f _ Hat) by lia.
    cbn [foldl fst snd]. rewrite !length_app. do 2 f_equal. lia.
Qed.

Lemma canonical_reads_back v : canonical v = true -> reads_back v.
Proof.
  induction v using pyval_ind.
  - discriminate.
  - discriminate.
  - apply reads_back_int.
  - apply reads_back_float.
  - apply reads_back_str.
  - cbn [canonical]. intros [[Hlen%Z.ltb_lt Hcan]%andb_true_iff Huni]%andb_true_iff.
    intros ty bs Hw data pos fuel Hat Hfuel.
    assert (Hf : (S (list_sum (size <$> l)) <= fuel)%nat) by exact Hfuel.
    destruct fuel as [|f]; [lia|].
    destruct l as [|x l].
    + cbn in Hw. injection Hw as <- <-. rewrite read_tag_list.
      apply (at_pos_app data pos [x00] [x00; x00; x00; x00]) in Hat as [Hat1 Hat2].
      rewrite (read_ubyte_at data pos 0 [x00]) by (try reflexivity; exact Hat1). cbn.
      rewrite (read_int_at data _ 0 [x00; x00; x00; x00]) by (try reflexivity; exact Hat2).
      cbn [mbind res_bind]. rewrite Z2Nat.inj_0. cbn [read_n mbind res_bind].
      do 2 f_equal. cbn [length]. lia.
    + cbn [write_tag] in Hw.
      remember (write_items write_tag (x :: l)) as witems eqn:Hitems.
      apply bind_ok_inv in Hw as ([ft wx] & Hx & Hw). cbn in Hw.
      injection Hw as <- Hw.
      apply bind_ok_inv in Hw as (t & Ht & Hw).
      apply bind_ok_inv in Hw as (n & Hn & Hw).
      apply bind_ok_inv in Hw as (items & Hi & [= <-]). subst witems.
      apply at_pos_app in Hat as [Hat1 Hat].
      apply at_pos_app in Hat as [Hat2 Hat3].
      rewrite read_tag_list.
      rewrite (read_ubyte_at _ _ _ _ Ht Hat1). cbn [mbind res_bind].
      rewrite (read_int_at _ _ _ _ Hn Hat2). cbn [mbind res_bind].
      rewrite Nat2Z.id.
      assert (Hkind : Forall (fun y => written_kind y = Some ft) (x :: l)).
      { assert (Hkx : written_kind x = Some ft) by (unfold written_kind; rewrite Hx; reflexivity).
        rewrite forallb_forall in Huni. apply Forall_forall. intros y Hy.
        specialize (Huni y (proj1 (list_elem_of_In _ _) Hy)).
        apply bool_decide_eq_true in Huni. congruence. }
      change (S (length l)) with (length (x :: l)).
      rewrite (read_items_back ft _ H Hcan Hkind _ Hi data _ f Hat3) by lia.
      cbn [mbind res_bind]. rewrite !length_app. do 2 f_equal. lia.
  - cbn [canonical]. intros [Hnd%bool_decide_eq_true Hcan]%andb_true_iff.
    intros ty bs Hw data pos fuel Hat Hfuel.
    assert (Hf : (S (S (list_sum ((fun kv => S (size (snd kv))) <$> d)))
                  <= fuel)%nat) by exact Hfuel.
    destruct fuel as [|f]; [lia|].
    cbn [write_tag] in Hw. injection Hw as <- Hw.
    apply bind_ok_inv in Hw as (ebs & He & Hw).
    change (Ok (ebs ++ [x00]) = Ok bs) in Hw. injection Hw as <-.
    rewrite read_tag_compound.
    rewrite (read_entries_back _ H Hcan _ He data pos f [] Hat) by lia. cbn.
    rewrite foldl_dict_set by exact Hnd.
    rewrite length_app. cbn. do 2 f_equal. lia.
Qed.
End RoundTrip.

Lemma canonical_packable v :
  canonical v = true -> packable v = true /\ has_none v = false.
Proof.
  induction v using pyval_ind; cbn [canonical packable has_none]; try discriminate; auto.
  - intros [_ Hs]%andb_true_iff. auto.
  - intros [[Hlen Hcan]%andb_true_iff _]%andb_true_iff.
    rewrite Hlen. cbn [andb].
    rewrite forallb_forall in Hcan. rewrite Forall_forall in H.
    split.
    + apply forallb_forall. intros x Hx.
      apply (H x (proj2 (list_elem_of_In _ _) Hx)). apply Hcan. exact Hx.
    + apply not_true_is_false. intros (x & Hx & Hn)%existsb_exists.
      destruct (H x (proj2 (list_elem_of_In _ _) Hx) (Hcan x Hx)). congruence.
  - intros [_ Hcan]%andb_true_iff.
    rewrite forallb_forall in Hcan. rewrite Forall_forall in H.
    split.
    + apply forallb_forall. intros kv Hkv.
      specialize (Hcan kv Hkv). apply andb_true_iff in Hcan as [[_ Hs]%andb_true_iff Hc].
      rewrite Hs. apply (H kv (proj2 (list_elem_of_In _ _) Hkv)). exact Hc.
    + apply not_true_is_false. intros (kv & Hkv & Hn)%existsb_exists.
      specialize (Hcan kv Hkv). apply andb_true_iff in Hcan as [_ Hc].
      destruct (H kv (proj2 (list_elem_of_In _ _) Hkv) Hc). congruence.
Qed.

(** C1, as amended.  The encoder returns a file for every canonical
    tree, and for that file the round trip holds: it decodes, to the tree
    it was written from, and encoding the decoded tree gives the file
    back byte for byte. *)
Theorem written_files_round_trip `{!Float32}
    (compound : list (pystr * pyval)) :
  canonical (PDict compound) = true ->
  exists F, write_root (PDict compound) = Ok F
    /\ forall fuel, (size (PDict compound) <= fuel)%nat ->
         exists t, read_root F fuel = Ok t /\ write_root t = Ok F.
Proof.
  intros Hcan.
  destruct (canonical_packable _ Hcan) as [Hpk Hnone].
  pose proof (written_packed _ Hpk) as Hw. unfold packed in Hw.
  rewrite Hnone in Hw. destruct Hw as [bs Hbs].
  assert (HF : write_root (PDict compound) = Ok ([x0a; x00; x00] ++ bs)).
  { rewrite write_root_written, Hbs. reflexivity. }
  exists ([x0a; x00; x00] ++ bs). split; [exact HF|].
  intros fuel Hfuel. exists (PDict compound). split; [|exact HF].
  assert (Hf : (S (S (list_sum ((fun kv => S (size (snd kv))) <$> compound)))
                <= fuel)%nat) by exact Hfuel.
  pose proof Hcan as Hcan'. cbn [canonical] in Hcan'.
  apply andb_true_iff in Hcan' as [Hnd%bool_decide_eq_true Hall].
  unfold written in Hbs. cbn [write_tag] in Hbs. cbn [mbind res_bind] in Hbs.
  apply bind_ok_inv in Hbs as (ebs & He & Hbs).
  change (Ok (ebs ++ [x00]) = Ok bs) in Hbs. injection Hbs as <-.
  set (F := [x0a; x00; x00] ++ ebs ++ [x00]).
  assert (Hat0 : at_pos F 0 [x0a]) by (exists [], ([x00; x00] ++ ebs ++ [x00]); auto).
  assert (Hat1 : at_pos F 1 [x00; x00]) by (exists [x0a], (ebs ++ [x00]); auto).
  assert (Hat3 : at_pos F 3 (ebs ++ [x00])).
  { exists [x0a; x00; x00], []. rewrite app_nil_r. auto. }
  unfold read_root.
  rewrite (read_ubyte_at F 0 10 [x0a]) by (try reflexivity; exact Hat0).
  cbn [mbind res_bind length]. change (10 =? TAG_Compound) with true. cbn [negb].
  rewrite (read_string_at F _ EmptyString [x00; x00]) by (try reflexivity; exact Hat1).
  cbn [mbind res_bind length].
  assert (Hrb : Forall (fun kv => canonical (snd kv) = true -> reads_back (snd kv)) compound).
  { apply Forall_forall. intros kv _. apply canonical_reads_back. }
  match goal with
  | |- context [read_compound F fuel [] ?p] => change p with 3
  end.
  rewrite (read_entries_back _ Hrb Hall _ He F _ fuel [] Hat3) by lia.
  cbn [mbind res_bind]. rewrite foldl_dict_set by exact Hnd. reflexivity.
Qed.

(** C1, the claim as stated fails.  The file holds one entry, an Int
    named "a" with the value 5 ([03 00 01 61 00 00 00 05]); it decodes,
    and the encoder, which chooses the width by the value, writes the
    entry back as a Byte ([01 00 01 61 05]). *)
Lemma int_tag_written_back_as_byte :
  @read_root ieee_widen
    [x0a; x00; x00; x03; x00; x01; x61; x00; x00; x00; x05; x00] 2
  = Ok (PDict [("a", PInt 5)])
  /\ write_root (PDict [("a", PInt 5)])
     = Ok [x0a; x00; x00; x01; x00; x01; x61; x05; x00]
  /\ [x0a; x00; x00; x01; x00; x01; x61; x05; x00]
     <> [x0a; x00; x00; x03; x00; x01; x61; x00; x00; x00; x05; x00].
Proof. repeat split; [vm_compute; reflexivity..|discriminate]. Qed.

(** A list read as Ints and written by the width of each value is not
    even read back: the first element announces Byte for all. *)
Lemma mixed_list_written_unreadable :
  write_root (PDict [("a", PList [PInt 1; PInt 1000])])
  = Ok [x0a; x00; x00; x09; x00; x01; x61; x01; x00; x00; x00; x02;
        x01; x03; xe8; x00]
  /\ @read_root ieee_widen
       [x0a; x00; x00; x09; x00; x01; x61; x01; x00; x00; x00; x02;
        x01; x03; xe8; x00] 3
     = Err StructError.
Proof. split; vm_compute; reflexivity. Qed.

Lemma written_files_round_trip_witness :
  canonical (PDict [("Health", PFloat 4626322717216342016);
                    ("Inventory", PList [PDict [("Slot", PInt 0); ("count", PInt 300)]]);
                    ("Name", PStr "steve")]) = true
  /\ exists F,
       write_root (PDict [("Health", PFloat 4626322717216342016);
                          ("Inventory", PList [PDict [("Slot", PInt 0); ("count", PInt 300)]]);
                          ("Name", PStr "steve")]) = Ok F
       /\ forall fuel, (14 <= fuel)%nat ->
            exists t, @read_root ieee_widen F fuel = Ok t /\ write_root t = Ok F.
Proof.
  split; [vm_compute; reflexivity|].
  destruct (@written_files_round_trip ieee_widen
              [("Health", PFloat 4626322717216342016);
               ("Inventory", PList [PDict [("Slot", PInt 0); ("count", PInt 300)]]);
               ("Name", PStr "steve")] ltac:(vm_compute; reflexivity))
    as (F & HF & Hback).
  exists F. split; [exact HF|]. intros fuel Hfuel. apply Hback.
  exact Hfuel.
Defined.

(** ** The free slot and the replacement at a slot *)

Import NbtCore.

Lemma first_free_none occ s n :
  first_free occ s n = None <->
  forall k, s <= k < s + Z.of_nat n -> occ k = true.
Proof.
  revert s. induction n as [|n IH]; intros s; cbn [first_free].
  - split; [intros _ k Hk; lia | reflexivity].
  - destruct (occ s) eqn:Hs.
    + rewrite IH. split; intros H k Hk.
      * destruct (decide (k = s)) as [->|]; [exact Hs|]. apply H. lia.
      * apply H. lia.
    + split; [discriminate|]. intros H. rewrite H in Hs by lia. discriminate.
Qed.

Lemma first_free_some occ s n r :
  first_free occ s n = Some r ->
  s <= r < s + Z.of_nat n /\ occ r = false
  /\ forall k, s <= k < r -> occ k = true.
Proof.
  revert s. induction n as [|n IH]; intros s; cbn [first_free]; [discriminate|].
  destruct (occ s) eqn:Hs.
  - intros H. destruct (IH _ H) as (Hr & Hfree & Hbelow).
    split; [lia|]. split; [exact Hfree|]. intros k Hk.
    destruct (decide (k = s)) as [->|]; [exact Hs|]. apply Hbelow. lia.
  - intros [= <-]. split; [lia|]. split; [exact Hs|]. intros k Hk. lia.
Qed.

Section SlotFacts.
Context {py_int_inst : PyInt} {float_eq_inst : FloatEq}.

Lemma slot_of_field it s :
  0 <= s -> slot_of it = Some s <-> slot_field it = Some s.
Proof.
  intros Hs. unfold slot_of, slot_field. destruct it; try tauto.
  destruct (compound_get d "Slot"); [tauto|].
  split; [intros [= <-]; lia | discriminate].
Qed.

Lemma elem_of_occupied_slots inv acc s :
  s ∈ occupied_slots inv acc <->
  s ∈ acc \/ exists it, it ∈ inv /\ slot_of it = Some s.
Proof.
  revert acc. induction inv as [|it inv IH]; intros acc; cbn [occupied_slots].
  - split; [auto|]. intros [H|(it & Hin & _)]; [exact H|]. inversion Hin.
  - destruct (slot_of it) as [z|] eqn:Hit; rewrite IH.
    + rewrite elem_of_union, elem_of_singleton. split.
      * intros [[->|H]|(x & Hx & Hs)]; [right; exists it; split; [left|exact Hit] | auto |].
        right. exists x. split; [right; exact Hx|exact Hs].
      * intros [H|(x & Hx & Hs)]; [auto|].
        apply elem_of_cons in Hx as [->|Hx]; [left; left; congruence|].
        right. exists x. auto.
    + split.
      * intros [H|(x & Hx & Hs)]; [auto|]. right. exists x. split; [right; exact Hx|exact Hs].
      * intros [H|(x & Hx & Hs)]; [auto|].
        apply elem_of_cons in Hx as [->|Hx]; [congruence|]. right. exists x. auto.
Qed.

Lemma occupied_decided inv s :
  0 <= s ->
  bool_decide (s ∈ occupied_slots inv ∅) = true <-> occupied inv s.
Proof.
  intros Hs. rewrite bool_decide_eq_true, elem_of_occupied_slots. unfold occupied.
  split.
  - intros [H|(it & Hin & Hit)]; [set_solver|].
    exists it. split; [exact Hin|]. apply slot_of_field; assumption.
  - intros (it & Hin & Hit). right. exists it. split; [exact Hin|].
    apply slot_of_field; assumption.
Qed.

Lemma eq_slot_used inventory used s :
  0 <= s -> used_slots inventory = Ok used ->
  existsb (eq_slot s) used = true <-> occupied_item inventory s.
Proof.
  intros Hs. revert used. induction inventory as [|item inventory IH]; intros used; cbn [used_slots].
  - intros [= <-]. split; [discriminate|]. intros (d & Hin & _). inversion Hin.
  - destruct item as [| | | | | |d]; try discriminate.
    destruct (used_slots inventory) as [rest| |] eqn:Hrest.
    2,3: (destruct (dict_get d "Slot" (PInt (-1))); discriminate).
    specialize (IH rest eq_refl).
    assert (Hhead : eq_slot s (dict_get d "Slot" (PInt (-1))) = eq_slot s (dict_get d "Slot" PNone)).
    { clear -Hs. induction d as [|[k v] d IHd]; cbn [dict_get].
      - cbn. apply bool_decide_eq_false. lia.
      - case_decide; [reflexivity|exact IHd]. }
    intros Hused.
    assert (Hu : used = dict_get d "Slot" (PInt (-1)) :: rest).
    { destruct (dict_get d "Slot" (PInt (-1))); cbn in Hused; congruence. }
    subst used. cbn [existsb]. rewrite orb_true_iff, IH, Hhead. unfold occupied_item. split.
    + intros [H|(d' & Hin & H)]; [exists d; split; [left|exact H]|].
      exists d'. split; [right; exact Hin|exact H].
    + intros (d' & Hin & H). apply elem_of_cons in Hin as [[= <-]|Hin]; [left; exact H|].
      right. exists d'. auto.
Qed.

(** C7.  The search returns [None] exactly when every slot of
    [0 .. n-1] is taken by some element's [Slot] field, and otherwise the
    lowest slot of the range that no element takes.  The first two parts
    are for the search over nbtlib tags ([find_next_free_slot] is [n = 36],
    the ender-chest panel [n = 27]); the third is the search of
    [handle_give_item], where it returns. *)
Theorem find_free_slot_lowest (inv : list tag) (inventory : list pyval) (n : nat) :
  (find_free_slot inv n = None <->
     forall s, 0 <= s < Z.of_nat n -> occupied inv s)
  /\ (forall s, find_free_slot inv n = Some s ->
        0 <= s < Z.of_nat n /\ ~ occupied inv s
        /\ forall s', 0 <= s' < s -> occupied inv s')
  /\ (forall r, find_empty_slot inventory n = Ok r ->
        (r = None <-> forall s, 0 <= s < Z.of_nat n -> occupied_item inventory s)
        /\ (forall s, r = Some s ->
              0 <= s < Z.of_nat n /\ ~ occupied_item inventory s
              /\ forall s', 0 <= s' < s -> occupied_item inventory s')).
Proof.
  unfold find_free_slot. split; [|split].
  - rewrite first_free_none. split; intros H s Hs.
    + apply occupied_decided; [lia|]. apply H. lia.
    + apply occupied_decided; [lia|]. apply H. lia.
  - intros s Hfind. apply first_free_some in Hfind as (Hr & Hfree & Hbelow).
    split; [lia|]. split.
    + intros Hocc. apply occupied_decided in Hocc; [congruence|lia].
    + intros s' Hs'. apply occupied_decided; [lia|]. apply Hbelow. lia.
  - intros r. unfold find_empty_slot.
    destruct (used_slots inventory) as [used| |] eqn:Hused; cbn; try discriminate.
    intros [= <-]. split.
    + rewrite first_free_none. split; intros H s Hs.
      * apply (eq_slot_used _ _ _ (proj1 Hs) Hused). apply H. lia.
      * apply (eq_slot_used inventory used s); [lia|exact Hused|]. apply H. lia.
    + intros s Hfind. apply first_free_some in Hfind as (Hr & Hfree & Hbelow).
      split; [lia|]. split.
      * intros Hocc. apply (eq_slot_used _ _ _ (proj1 Hr) Hused) in Hocc. congruence.
      * intros s' Hs'. apply (eq_slot_used inventory used s'); [lia|exact Hused|].
        apply Hbelow. lia.
Qed.
End SlotFacts.

Section ReplaceFacts.
Context {py_int_inst : PyInt} {tag_eq_inst : TagEq}.

Lemma slot_field_slot_of it s : slot_field it = Some s -> slot_of it = Some s.
Proof.
  unfold slot_of, slot_field. destruct it; try discriminate.
  destruct (compound_get d "Slot"); [tauto|discriminate].
Qed.

Lemma without_slot_fields inv slot_num kept :
  without_slot inv slot_num = Ok kept ->
  (slot_num ∉ omap slot_field kept)
  /\ sublist (omap slot_field kept) (omap slot_field inv).
Proof.
  revert kept. induction inv as [|x inv IH]; intros kept; cbn [without_slot].
  - intros [= <-]. split; [apply not_elem_of_nil | constructor].
  - destruct (slot_of x) as [s|] eqn:Hx; [|discriminate].
    destruct (without_slot inv slot_num) as [rest| |]; cbn; try discriminate.
    destruct (IH rest eq_refl) as [Hnot Hsub].
    intros [= <-]. case_decide as Hs.
    + split; [exact Hnot|]. cbn [omap list_omap].
      destruct (slot_field x); [apply sublist_cons|]; exact Hsub.
    + cbn [omap list_omap]. destruct (slot_field x) as [z|] eqn:Hf.
      * apply slot_field_slot_of in Hf. assert (z = s) as -> by congruence.
        split; [|apply sublist_skip; exact Hsub].
        rewrite not_elem_of_cons. split; [congruence|exact Hnot].
      * split; assumption.
Qed.

Lemma new_item_slot slot_num item_id count_num item :
  new_item slot_num item_id count_num = Ok item ->
  slot_field item = Some slot_num.
Proof.
  unfold new_item, Byte, Int.
  destruct (between (-128) slot_num 127); [|discriminate].
  destruct (between _ count_num _); [|discriminate].
  intros [= <-]. reflexivity.
Qed.

Lemma replace_at_slot_unique inv slot_num item_id count_num :
  unique_slots inv ->
  unique_slots (fst (replace_at_slot inv slot_num item_id count_num)).
Proof.
  unfold unique_slots, replace_at_slot. intros Hinv.
  destruct (without_slot inv slot_num) as [kept|e|] eqn:Hkept; [|exact Hinv|exact Hinv].
  destruct (without_slot_fields _ _ _ Hkept) as [Hnot Hsub].
  assert (Hk : NoDup (omap slot_field kept)) by (eapply sublist_NoDup; eassumption).
  destruct (new_item slot_num item_id count_num) as [item|e|] eqn:Hitem; cbn [fst]; try exact Hk.
  rewrite omap_app. cbn [omap list_omap]. rewrite (new_item_slot _ _ _ _ Hitem).
  apply NoDup_app. split; [exact Hk|]. split; [|apply NoDup_singleton].
  intros z Hz [= ->]%list_elem_of_singleton. contradiction.
Qed.

Lemma list_remove_sublist inv e inv' :
  list_remove inv e = Ok inv' -> sublist inv' inv.
Proof.
  revert inv'. induction inv as [|x inv IH]; intros inv'; cbn [list_remove]; [discriminate|].
  destruct (tag_eq x e).
  - intros [= <-]. apply sublist_cons. reflexivity.
  - destruct (list_remove inv e) as [rest| |]; cbn; try discriminate.
    intros [= <-]. apply sublist_skip. apply IH. reflexivity.
Qed.

Lemma remove_slot_loop_sublist copy slot inv :
  sublist (fst (remove_slot_loop copy slot inv)) inv.
Proof.
  revert inv. induction copy as [|e copy IH]; intros inv; cbn [remove_slot_loop fst]; [reflexivity|].
  destruct (slot_of e) as [s|]; [|reflexivity].
  case_decide; [|apply IH].
  destruct (list_remove inv e) as [inv'| |] eqn:Hrm; [|reflexivity..].
  etrans; [apply IH|]. eapply list_remove_sublist. exact Hrm.
Qed.

Lemma list_remove_self pre e rest :
  eq_respects_slots ->
  Forall (fun x => slot_of x <> slot_of e) pre ->
  list_remove (pre ++ e :: rest) e = Ok (pre ++ rest).
Proof.
  intros [Hrefl Hslot]. induction 1 as [|x pre Hx _ IH]; cbn [app list_remove].
  - rewrite Hrefl. reflexivity.
  - destruct (tag_eq x e) eqn:E; [exfalso; apply Hx, Hslot, E|].
    rewrite IH. reflexivity.
Qed.

Lemma remove_slot_loop_done copy slot pre inv' :
  eq_respects_slots ->
  Forall (fun x => slot_of x <> Some slot) pre ->
  remove_slot_loop copy slot (pre ++ copy) = (inv', Ok ()) ->
  Forall (fun x => slot_of x <> Some slot) inv'.
Proof.
  intros Heq. revert pre. induction copy as [|e copy IH]; intros pre Hpre; cbn [remove_slot_loop].
  - rewrite app_nil_r. intros [= <-]. exact Hpre.
  - destruct (slot_of e) as [s|] eqn:He; [|discriminate].
    case_decide as Hs.
    + subst s. rewrite (list_remove_self pre e copy Heq).
      * apply IH. exact Hpre.
      * rewrite He. exact Hpre.
    + replace (pre ++ e :: copy) with ((pre ++ [e]) ++ copy) by (rewrite <- app_assoc; reflexivity).
      apply IH. apply Forall_app. split; [exact Hpre|].
      constructor; [|constructor]. rewrite He. congruence.
Qed.

Lemma omap_sublist {A B} (f : A -> option B) (l k : list A) :
  sublist l k -> sublist (omap f l) (omap f k).
Proof.
  induction 1 as [|x l k _ IH|x l k _ IH]; cbn [omap list_omap].
  - constructor.
  - destruct (f x); [apply sublist_skip|]; exact IH.
  - destruct (f x); [apply sublist_cons|]; exact IH.
Qed.

Lemma add_item_to_list_unique inv slot item_id count :
  eq_respects_slots ->
  unique_slots inv ->
  unique_slots (fst (add_item_to_list inv slot item_id count)).
Proof.
  intros Heq Hinv. unfold unique_slots, add_item_to_list in *.
  pose proof (remove_slot_loop_sublist inv slot inv) as Hsub.
  destruct (remove_slot_loop inv slot inv) as [inv' r] eqn:Hloop. cbn [fst] in Hsub.
  assert (Hk : NoDup (omap slot_field inv')).
  { exact (sublist_NoDup _ _ Hinv (omap_sublist slot_field _ _ Hsub)). }
  destruct r as [[]|e|]; cbn [fst]; try exact Hk.
  destruct (new_item slot item_id count) as [item|e|] eqn:Hitem; cbn [fst]; try exact Hk.
  pose proof (remove_slot_loop_done inv slot [] inv' Heq (Forall_nil_2 _) Hloop) as Hdone.
  rewrite omap_app. cbn [omap list_omap]. rewrite (new_item_slot _ _ _ _ Hitem).
  apply NoDup_app. split; [exact Hk|]. split; [|apply NoDup_singleton].
  intros z Hz [= ->]%list_elem_of_singleton.
  apply list_elem_of_omap in Hz as (x & Hx & Hf).
  rewrite Forall_forall in Hdone. apply (Hdone x Hx).
  apply slot_field_slot_of. exact Hf.
Qed.
(** C8.  A list with at most one entry per [Slot] value keeps this
    property through any sequence of replacements at a slot.  Each call
    removes the elements whose slot is the new one and appends the new
    item, or stops early when a statement raises: by the comprehension of
    the panels ([replace_all]), or by the [remove] loop of
    [add_item_to_list] ([add_all]), the latter for an [==] under which an
    element equals itself and equal elements have the same slot. *)
Theorem replace_at_slot_keeps_slots_unique
    (calls : list (Z * string * Z)) (inv : list tag) :
  unique_slots inv ->
  unique_slots (replace_all calls inv)
  /\ (eq_respects_slots -> unique_slots (add_all calls inv)).
Proof.
  intros Hinv. split.
  - revert inv Hinv.
    induction calls as [|[[slot_num item_id] count_num] calls IH];
      intros inv Hinv; cbn [replace_all]; [exact Hinv|].
    apply IH. apply replace_at_slot_unique. exact Hinv.
  - intros Heq. revert inv Hinv.
    induction calls as [|[[slot item_id] count] calls IH];
      intros inv Hinv; cbn [add_all]; [exact Hinv|].
    apply IH. apply add_item_to_list_unique; assumption.
Qed.

End ReplaceFacts.

(** ** The undo chain and the save *)

Lemma append_empty_r (s : string) : s +:+ EmptyString = s.
Proof.
  induction s as [|c s IH]; [reflexivity|].
  change (String c (s +:+ EmptyString) = String c s). rewrite IH. reflexivity.
Qed.

Lemma append_same s x : s +:+ x = s -> x = EmptyString.
Proof.
  intros H. rewrite <- (append_empty_r s) in H at 2.
  exact (String.app_inj s _ _ H).
Qed.

Lemma undo_name_inj path i j : undo_name path i = undo_name path j -> i = j.
Proof.
  unfold undo_name. intros H%String.app_inj%String.app_inj.
  exact (pretty_nat_inj _ _ H).
Qed.

Lemma undo_name_not_path path i : undo_name path i <> path.
Proof. unfold undo_name. intros H%append_same. discriminate H. Qed.

Lemma undo_name_not_bak path i : undo_name path i <> path +:+ ".bak".
Proof. unfold undo_name. intros H%String.app_inj. discriminate H. Qed.

Lemma bak_not_path path : path +:+ ".bak" <> path.
Proof. intros H%append_same. discriminate H. Qed.

Lemma exists_true (fs : disk) p : exists_ fs p = true <-> is_Some (fs !! p).
Proof. unfold exists_. apply bool_decide_eq_true. Qed.

Lemma move_lookup src dst (fs : disk) c q :
  fs !! src = Some c -> src <> dst ->
  move src dst fs !! q
  = if decide (q = dst) then Some c
    else if decide (q = src) then None else fs !! q.
Proof.
  intros Hsrc Hne. unfold move. rewrite Hsrc.
  destruct (decide (q = dst)) as [->|Hd]; [apply lookup_insert_eq|].
  rewrite lookup_insert_ne by congruence.
  destruct (decide (q = src)) as [->|Hs]; [apply lookup_delete_eq|].
  apply lookup_delete_ne. congruence.
Qed.

Lemma shift_other i path (fs : disk) q :
  (forall k, q <> undo_name path k) -> shift i path fs !! q = fs !! q.
Proof.
  intros Hq. unfold shift. destruct (exists_ _ _) eqn:He; [|reflexivity].
  apply exists_true in He as [c Hc]. unfold move. rewrite Hc.
  rewrite lookup_insert_ne by (intros E; exact (Hq _ (eq_sym E))).
  apply lookup_delete_ne. intros E. exact (Hq _ (eq_sym E)).
Qed.

Lemma shift_undo i path (fs : disk) k :
  (2 <= i)%nat ->
  shift i path fs !! undo_name path k
  = if decide (k = i) then
      match fs !! undo_name path (i - 1) with
      | Some c => Some c
      | None => fs !! undo_name path i
      end
    else if decide (k = (i - 1)%nat) then None
    else fs !! undo_name path k.
Proof.
  intros Hi. unfold shift. destruct (exists_ _ _) eqn:He.
  - apply exists_true in He as [c Hc].
    rewrite (move_lookup _ _ _ c) by (try exact Hc; intros E%undo_name_inj; lia).
    rewrite Hc.
    destruct (decide (k = i)) as [->|Hk]; [rewrite decide_True by reflexivity; reflexivity|].
    rewrite decide_False by (intros E%undo_name_inj; lia).
    destruct (decide (k = (i - 1)%nat)) as [->|Hk']; [rewrite decide_True by reflexivity; reflexivity|].
    rewrite decide_False by (intros E%undo_name_inj; lia). reflexivity.
  - assert (Hn : fs !! undo_name path (i - 1) = None).
    { destruct (fs !! undo_name path (i - 1)) eqn:E; [|reflexivity].
      exfalso. assert (exists_ fs (undo_name path (i - 1)) = true) by (apply exists_true; rewrite E; eauto).
      congruence. }
    rewrite Hn. destruct (decide (k = i)) as [->|Hk]; [reflexivity|].
    destruct (decide (k = (i - 1)%nat)) as [->|Hk']; [exact Hn|reflexivity].
Qed.

Lemma rotate_step i path fs :
  rotate (S (S i)) path fs = rotate (S i) path (shift (S (S i)) path fs).
Proof. reflexivity. Qed.

Lemma rotate_other n path (fs : disk) q :
  (forall k, q <> undo_name path k) -> rotate n path fs !! q = fs !! q.
Proof.
  intros Hq. revert fs. induction n as [|[|n] IH]; intros fs; [reflexivity..|].
  rewrite rotate_step, IH. apply shift_other. exact Hq.
Qed.

(** The undo chain after the loop, slot by slot. *)
Lemma rotate_undo n path (fs : disk) k :
  rotate n path fs !! undo_name path k
  = if decide (k = 0 \/ n < k \/ n <= 1)%nat then fs !! undo_name path k
    else if decide (k = 1%nat) then None
    else if decide (k < n)%nat then fs !! undo_name path (k - 1)
    else match fs !! undo_name path (n - 1) with
         | Some c => Some c
         | None => fs !! undo_name path n
         end.
Proof.
  revert fs. induction n as [|[|n] IH]; intros fs.
  - rewrite decide_True by lia. reflexivity.
  - rewrite decide_True by lia. reflexivity.
  - rewrite rotate_step, IH. clear IH.
    repeat (rewrite shift_undo by lia).
    replace (S (S n) - 1)%nat with (S n) by lia.
    replace (S n - 1)%nat with n by lia.
    repeat case_decide; try lia; try reflexivity; subst;
      repeat match goal with
      | |- context [undo_name path (S ?a - 1)] =>
          replace (S a - 1)%nat with a by lia
      end; try reflexivity.
    all: try (destruct (fs !! undo_name path n); reflexivity).
    all: try (assert (k = S (S n)) as -> by lia; reflexivity).
    all: assert (k = S n) as -> by lia;
      replace (S n - 1)%nat with n by lia;
      destruct (fs !! undo_name path n); reflexivity.
Qed.

Section SaveFacts.
Variable UNDO_LIMIT : nat.

Lemma save_nbt_succeeds new_bytes path (fs : disk) c :
  fs !! path = Some c ->
  save_nbt UNDO_LIMIT new_bytes path fs
  = (<[path := new_bytes]>
       (<[path +:+ ".bak" := c]>
          (<[undo_name path 1 := c]> (rotate UNDO_LIMIT path fs))),
     Ok ()).
Proof.
  intros Hc.
  assert (Hr : rotate UNDO_LIMIT path fs !! path = Some c).
  { rewrite rotate_other; [exact Hc|].
    intros k E. exact (undo_name_not_path _ _ (eq_sym E)). }
  unfold save_nbt, push_undo.
  rewrite (proj2 (exists_true _ _)) by (rewrite Hr; eauto).
  unfold copy2 at 1. rewrite Hr.
  unfold backup_file, copy2.
  rewrite lookup_insert_ne by apply undo_name_not_path.
  rewrite Hr. reflexivity.
Qed.

(** C2.  When the player file exists and the undo files are
    [.undo1 .. .undoK] with [K] below the limit, [save_nbt] returns, the
    content of each [.undoI] is then found at [.undoI+1], the content the
    player file had is at [.undo1], and there is no undo file above
    [.undoK+1], hence none above the limit. *)
Theorem save_shifts_undo_chain
    (new_bytes : list byte) (path : string) (fs : disk) (K : nat)
    (c : list byte) :
  (K < UNDO_LIMIT)%nat ->
  fs !! path = Some c ->
  (forall I, (1 <= I <= K)%nat -> is_Some (fs !! undo_name path I)) ->
  (forall J, (K < J)%nat -> fs !! undo_name path J = None) ->
  let fs' := fst (save_nbt UNDO_LIMIT new_bytes path fs) in
  snd (save_nbt UNDO_LIMIT new_bytes path fs) = Ok ()
  /\ (forall I, (1 <= I <= K)%nat ->
        fs' !! undo_name path (I + 1) = fs !! undo_name path I)
  /\ fs' !! undo_name path 1 = Some c
  /\ (forall J, (K + 1 < J)%nat -> fs' !! undo_name path J = None)
  /\ (forall J, (UNDO_LIMIT < J)%nat -> fs' !! undo_name path J = None).
Proof.
  intros HK Hc Hchain Habove fs'. subst fs'.
  rewrite (save_nbt_succeeds _ _ _ _ Hc). cbn [fst snd].
  assert (Hlook : forall k, k <> 1%nat ->
            (<[path := new_bytes]>
               (<[path +:+ ".bak" := c]>
                  (<[undo_name path 1 := c]> (rotate UNDO_LIMIT path fs))))
            !! undo_name path k
            = rotate UNDO_LIMIT path fs !! undo_name path k).
  { intros k Hk.
    rewrite lookup_insert_ne by (intros E; exact (undo_name_not_path _ _ (eq_sym E))).
    rewrite lookup_insert_ne by (intros E; exact (undo_name_not_bak _ _ (eq_sym E))).
    rewrite lookup_insert_ne by (intros E%undo_name_inj; lia). reflexivity. }
  assert (Hbeyond : forall J, (K + 1 < J)%nat ->
            rotate UNDO_LIMIT path fs !! undo_name path J = None).
  { intros J HJ. rewrite rotate_undo.
    repeat case_decide; try reflexivity.
    - apply Habove. lia.
    - apply Habove. lia.
    - rewrite (Habove (UNDO_LIMIT - 1)%nat) by lia. apply Habove. lia. }
  split; [reflexivity|]. split; [|split; [|split]].
  - intros I HI. rewrite Hlook by lia. rewrite rotate_undo.
    replace (I + 1 - 1)%nat with I by lia.
    repeat case_decide; try lia; try reflexivity.
    assert (UNDO_LIMIT - 1 = I)%nat as -> by lia.
    destruct (Hchain I HI) as [x ->]. reflexivity.
  - rewrite lookup_insert_ne by (intros E; exact (undo_name_not_path _ _ (eq_sym E))).
    rewrite lookup_insert_ne by (intros E; exact (undo_name_not_bak _ _ (eq_sym E))).
    apply lookup_insert_eq.
  - intros J HJ. rewrite Hlook by lia. apply Hbeyond. exact HJ.
  - intros J HJ. rewrite Hlook by lia. apply Hbeyond. lia.
Qed.

(** Without the player file, [save_nbt] rotates the chain and raises
    in [backup_file]. *)
Lemma save_nbt_missing new_bytes path (fs : disk) :
  fs !! path = None ->
  save_nbt UNDO_LIMIT new_bytes path fs
  = (rotate UNDO_LIMIT path fs, Err FileNotFoundError).
Proof.
  intros Hc.
  assert (Hr : rotate UNDO_LIMIT path fs !! path = None).
  { rewrite rotate_other; [exact Hc|].
    intros k E. exact (undo_name_not_path _ _ (eq_sym E)). }
  unfold save_nbt, push_undo.
  assert (He : exists_ (rotate UNDO_LIMIT path fs) path = false).
  { destruct (exists_ _ _) eqn:E; [|reflexivity].
    apply exists_true in E as [x Hx]. congruence. }
  rewrite He. unfold backup_file, copy2. rewrite Hr. reflexivity.
Qed.

Lemma write_root_no_fuel nbt_data : write_root nbt_data <> NoFuel.
Proof.
  destruct nbt_data; try discriminate.
  rewrite write_root_written. apply bind_no_fuel; [apply written_no_fuel|].
  discriminate.
Qed.

(** C3.  A save that raises leaves the player file as it was.  In
    [save_player_data] the tree is encoded first and the file is read for
    the backup next: a failure of either is raised to the caller with the
    disk untouched.  In [save_nbt] the undo chain is rotated first; the
    backup copy raises when the player file is missing, and the player
    file is as before. *)
Theorem failed_save_leaves_player_file `{!SaveLibs}
    (nbt_data : pyval) (dat_file : string)
    (new_bytes : list byte) (path : string) (fs : disk) :
  (forall e, write_root nbt_data = Err e ->
     save_player_data nbt_data dat_file fs = (fs, Err e))
  /\ (fs !! dat_file = None ->
      is_err (snd (save_player_data nbt_data dat_file fs)))
  /\ (forall fs' e,
        save_player_data nbt_data dat_file fs = (fs', Err e) -> fs' = fs)
  /\ (fs !! path = None ->
      snd (save_nbt UNDO_LIMIT new_bytes path fs) = Err FileNotFoundError)
  /\ (forall fs' e,
        save_nbt UNDO_LIMIT new_bytes path fs = (fs', Err e) ->
        fs' !! path = fs !! path).
Proof.
  unfold save_player_data. repeat split.
  - intros e ->. reflexivity.
  - intros ->. pose proof (write_root_no_fuel nbt_data) as Hnf.
    destruct (write_root nbt_data); cbn [snd]; [| |congruence];
      eexists; reflexivity.
  - intros fs' e. destruct (write_root nbt_data); [|congruence|congruence].
    destruct (fs !! dat_file); [discriminate|congruence].
  - intros Hc. rewrite (save_nbt_missing _ _ _ Hc). reflexivity.
  - intros fs' e. destruct (fs !! path) as [c|] eqn:Hc.
    + rewrite (save_nbt_succeeds _ _ _ _ Hc). discriminate.
    + rewrite (save_nbt_missing _ _ _ Hc). intros [= <- _].
      rewrite rotate_other; [rewrite Hc; reflexivity|].
      intros k E. exact (undo_name_not_path _ _ (eq_sym E)).
Qed.

End SaveFacts.

Lemma save_shifts_undo_chain_witness :
  two_undos !! "p.dat" = Some [x01]
  /\ fst (save_nbt 8 [x09] "p.dat" two_undos) !! undo_name "p.dat" 1
     = Some [x01]
  /\ fst (save_nbt 8 [x09] "p.dat" two_undos) !! undo_name "p.dat" 3
     = Some [x03].
Proof.
  assert (H0 : two_undos !! "p.dat" = Some [x01]) by reflexivity.
  assert (H1 : forall I, (1 <= I <= 2)%nat ->
            is_Some (two_undos !! undo_name "p.dat" I)).
  { intros I HI. assert (I = 1 \/ I = 2)%nat as [-> | ->] by lia;
      vm_compute; eauto. }
  assert (H2 : forall J, (2 < J)%nat -> two_undos !! undo_name "p.dat" J = None).
  { intros J HJ. unfold two_undos.
    rewrite lookup_insert_ne by apply not_eq_sym, undo_name_not_path.
    rewrite !lookup_insert_ne by (intros E%undo_name_inj; lia).
    apply lookup_empty. }
  destruct (save_shifts_undo_chain 8 [x09] "p.dat" two_undos 2 [x01]
              ltac:(lia) H0 H1 H2) as (_ & Hshift & Hfirst & _).
  split; [exact H0|]. split; [exact Hfirst|].
  etrans; [exact (Hshift 2%nat ltac:(lia)) | reflexivity].
Defined.

Lemma failed_save_leaves_player_file_witness :
  write_root (PDict [("a", PNone)]) = Err ValueError
  /\ @save_player_data plain_save_libs (PDict [("a", PNone)]) "p.dat" two_undos
     = (two_undos, Err ValueError).
Proof.
  split; [reflexivity|].
  apply (@failed_save_leaves_player_file 8 plain_save_libs
           (PDict [("a", PNone)]) "p.dat" [] "p.dat" two_undos).
  reflexivity.
Defined.

Lemma replace_at_slot_keeps_slots_unique_witness :
  @unique_slots integer_tags_only
    [TCompound [("Slot", TByte 0)]; TCompound [("Slot", TByte 1)]]
  /\ @unique_slots integer_tags_only
       (@replace_all integer_tags_only
          [(1, "minecraft:dirt", 3); (5, "minecraft:sand", 1)]
          [TCompound [("Slot", TByte 0)]; TCompound [("Slot", TByte 1)]])
  /\ @unique_slots integer_tags_only
       (@add_all integer_tags_only (@same_slot integer_tags_only)
          [(1, "minecraft:dirt", 3); (5, "minecraft:sand", 1)]
          [TCompound [("Slot", TByte 0)]; TCompound [("Slot", TByte 1)]]).
Proof.
  assert (H0 : @unique_slots integer_tags_only
                 [TCompound [("Slot", TByte 0)]; TCompound [("Slot", TByte 1)]]).
  { unfold unique_slots. apply (bool_decide_unpack _). vm_compute. exact I. }
  assert (Heq : @eq_respects_slots integer_tags_only
                  (@same_slot integer_tags_only)).
  { split.
    - intros x. apply bool_decide_eq_true. reflexivity.
    - intros x e Hxe. apply bool_decide_eq_true in Hxe. exact Hxe. }
  destruct (@replace_at_slot_keeps_slots_unique integer_tags_only
              (@same_slot integer_tags_only)
              [(1, "minecraft:dirt", 3); (5, "minecraft:sand", 1)]
              [TCompound [("Slot", TByte 0)]; TCompound [("Slot", TByte 1)]] H0)
    as [Hpanel Hloop].
  split; [exact H0|]. split; [exact Hpanel | exact (Hloop Heq)].
Defined.

(** The same inventory as [handle_give_item] holds it. *)
Lemma find_empty_slot_example :
  @find_empty_slot no_float_slots
    [PDict [("Slot", PInt 0)]; PDict [("Slot", PInt 1)];
     PDict [("Slot", PInt 2)]; PDict [("Slot", PInt 4)];
     PDict [("id", PStr "minecraft:stone")]] 36
  = Ok (Some 3).
Proof. vm_compute. reflexivity. Qed.

(** The smallest file: an empty root. *)
Lemma empty_root_round_trip :
  @read_root ieee_widen [x0a; x00; x00; x00] 1 = Ok (PDict [])
  /\ write_root (PDict []) = Ok [x0a; x00; x00; x00].
Proof. split; vm_compute; reflexivity. Qed.

Lemma find_free_slot_lowest_example :
  @find_next_free_slot integer_tags_only
    [TCompound [("Slot", TByte 0)]; TCompound [("Slot", TByte 1)];
     TCompound [("Slot", TByte 2)]; TCompound [("Slot", TByte 4)];
     TCompound [("Slot", TByte 5)]]
  = Some 3.
Proof. vm_compute. reflexivity. Qed.

(* ===================================================================== *)
(** * Part III: further properties                                        *)
(* ===================================================================== *)

(** ** The writer: widths, bools and the trees it accepts *)

Lemma pack_signed_err (n : nat) z :
  ~ fits n z -> pack_signed n z = Err StructError.
Proof.
  unfold fits, pack_signed. intros H.
  destruct (Z.leb_spec (- 2 ^ (8 * Z.of_nat n - 1)) z);
    destruct (Z.ltb_spec z (2 ^ (8 * Z.of_nat n - 1))); cbn; try reflexivity.
  exfalso. apply H. lia.
Qed.

Lemma pack_signed_ok_inv (n : nat) z bs : pack_signed n z = Ok bs -> fits n z.
Proof.
  unfold pack_signed, fits.
  destruct (Z.leb_spec (- 2 ^ (8 * Z.of_nat n - 1)) z);
    destruct (Z.ltb_spec z (2 ^ (8 * Z.of_nat n - 1))); cbn; try discriminate.
  lia.
Qed.

Lemma between_spec lo v hi :
  (between lo v hi = true /\ lo <= v <= hi)
  \/ (between lo v hi = false /\ ~ lo <= v <= hi).
Proof.
  unfold between.
  destruct (Z.leb_spec lo v); destruct (Z.leb_spec v hi); cbn; [left|right..];
    (split; [reflexivity|lia]).
Qed.

Lemma fits_1 z : fits 1 z <-> -128 <= z <= 127.
Proof. unfold fits. change (2 ^ (8 * Z.of_nat 1 - 1)) with 128. lia. Qed.

Lemma fits_2 z : fits 2 z <-> -32768 <= z <= 32767.
Proof. unfold fits. change (2 ^ (8 * Z.of_nat 2 - 1)) with 32768. lia. Qed.

Lemma fits_4 z : fits 4 z <-> -2147483648 <= z <= 2147483647.
Proof. unfold fits. change (2 ^ (8 * Z.of_nat 4 - 1)) with 2147483648. lia. Qed.

Ltac is_width :=
  repeat first [apply list_elem_of_here | apply list_elem_of_further].

(** X1.  An integer is written with the narrowest of the four signed
    widths (1, 2, 4 or 8 bytes) that holds it, under the tag type of that
    width and as its big-endian two's complement; an integer that does not
    fit 8 bytes is announced as a Long, and writing it raises
    [struct.error]. *)
Theorem integer_written_in_narrowest_width (z : Z) :
  (fits 8 z ->
     exists n, n ∈ [1; 2; 4; 8]%nat /\ fits n z
       /\ (forall m, m ∈ [1; 2; 4; 8]%nat -> fits m z -> (n <= m)%nat)
       /\ write_tag (PInt z) = Ok (int_tag n, Ok (be_bytes n z)))
  /\ (~ fits 8 z -> write_tag (PInt z) = Ok (TAG_Long, Err StructError)).
Proof.
  cbn [write_tag]. unfold write_byte, write_short, write_int, write_long.
  destruct (between_spec (-128) z 127) as [[-> H1]|[-> H1]];
    [|destruct (between_spec (-32768) z 32767) as [[-> H2]|[-> H2]];
      [|destruct (between_spec (-2147483648) z 2147483647)
          as [[-> H4]|[-> H4]]]].
  - split; [intros _|intros H; exfalso; apply H; unfold fits; cbn; lia].
    exists 1%nat. split; [is_width|]. split; [apply fits_1; exact H1|]. split.
    + intros m Hm _. set_unfold in Hm. lia.
    + rewrite pack_signed_ok by (apply fits_1; exact H1). reflexivity.
  - split; [intros _|intros H; exfalso; apply H; unfold fits; cbn; lia].
    exists 2%nat. split; [is_width|]. split; [apply fits_2; exact H2|]. split.
    + intros m Hm Hf. set_unfold in Hm.
      destruct Hm as [->|[->|[->|[->|[]]]]]; try lia.
      apply fits_1 in Hf. lia.
    + rewrite pack_signed_ok by (apply fits_2; exact H2). reflexivity.
  - split; [intros _|intros H; exfalso; apply H; unfold fits; cbn; lia].
    exists 4%nat. split; [is_width|]. split; [apply fits_4; exact H4|]. split.
    + intros m Hm Hf. set_unfold in Hm.
      destruct Hm as [->|[->|[->|[->|[]]]]]; try lia.
      * apply fits_1 in Hf. lia.
      * apply fits_2 in Hf. lia.
    + rewrite pack_signed_ok by (apply fits_4; exact H4). reflexivity.
  - split.
    + intros H8. exists 8%nat. split; [is_width|]. split; [exact H8|]. split.
      * intros m Hm Hf. set_unfold in Hm.
        destruct Hm as [->|[->|[->|[->|[]]]]]; try lia.
        -- apply fits_1 in Hf. lia.
        -- apply fits_2 in Hf. lia.
        -- apply fits_4 in Hf. lia.
      * rewrite pack_signed_ok by exact H8. reflexivity.
    + intros H8. rewrite pack_signed_err by exact H8. reflexivity.
Qed.

Lemma write_items_debool l :
  Forall (fun v => write_tag (debool v) = write_tag v) l ->
  write_items write_tag (debool <$> l) = write_items write_tag l.
Proof.
  induction 1 as [|x l Hx _ IH]; [reflexivity|].
  cbn [fmap list_fmap write_items]. rewrite Hx.
  change (list_fmap _ _ debool l) with (debool <$> l). rewrite IH. reflexivity.
Qed.

Lemma write_entries_debool d :
  Forall (fun kv => write_tag (debool (snd kv)) = write_tag (snd kv)) d ->
  write_entries write_tag ((fun kv => (fst kv, debool (snd kv))) <$> d)
  = write_entries write_tag d.
Proof.
  induction 1 as [|[name val] d Hx _ IH]; [reflexivity|].
  cbn [fmap list_fmap write_entries fst snd] in *. rewrite Hx.
  change (list_fmap _ _ ?f d) with (f <$> d). rewrite IH. reflexivity.
Qed.

(** X2.  The writer keeps no [bool]: at any depth of a tree, [True] and
    [False] get the tag type and the bytes of the integers 1 and 0.  A
    tree and the tree with its bools replaced by these integers are
    written alike (and so are read back alike). *)
Theorem bools_written_as_integers (v : pyval) :
  write_tag (debool v) = write_tag v.
Proof.
  induction v as [| b | z | bits | s | l IH | d IH] using pyval_ind;
    try reflexivity.
  - destruct b; reflexivity.
  - destruct l as [|x l]; [reflexivity|].
    pose proof (write_items_debool _ IH) as Hitems.
    inversion IH as [|? ? Hx _]; subst.
    change (debool (PList (x :: l))) with (PList (debool x :: (debool <$> l))).
    change (debool <$> x :: l) with (debool x :: (debool <$> l)) in Hitems.
    cbn [write_tag]. rewrite Hx, Hitems. cbn [length]. rewrite length_fmap.
    reflexivity.
  - cbn [debool write_tag]. rewrite (write_entries_debool _ IH). reflexivity.
Qed.

Lemma write_string_ok_inv s bs : write_string s = Ok bs -> short_str s = true.
Proof.
  unfold write_string, write_short, short_str. intros H.
  apply bind_ok_inv in H as (h & Hh%pack_signed_ok_inv%fits_2 & _).
  apply Z.leb_le. lia.
Qed.

Lemma write_items_ok_packable l bs :
  Forall (fun v => forall b, written v = Ok b ->
                   packable v = true /\ has_none v = false) l ->
  write_items write_tag l = Ok bs ->
  forallb packable l = true /\ existsb has_none l = false.
Proof.
  intros H. revert bs. induction H as [|x l Hx _ IH]; intros bs; [auto|].
  rewrite write_items_cons. intros Hw.
  apply bind_ok_inv in Hw as (b & Hb & Hw).
  apply bind_ok_inv in Hw as (bs' & Hbs & _).
  cbn [forallb existsb].
  destruct (Hx _ Hb) as [-> ->]. destruct (IH _ Hbs) as [-> ->]. auto.
Qed.

Lemma write_entries_ok_packable d bs :
  Forall (fun kv => forall b, written (snd kv) = Ok b ->
                    packable (snd kv) = true /\ has_none (snd kv) = false) d ->
  write_entries write_tag d = Ok bs ->
  forallb (fun kv => short_str (fst kv) && packable (snd kv)) d = true
  /\ existsb (fun kv => has_none (snd kv)) d = false.
Proof.
  intros H. revert bs. induction H as [|[name val] d Hx _ IH]; intros bs; [auto|].
  cbn [write_entries forallb existsb fst snd] in *. intros Hw.
  apply bind_ok_inv in Hw as ([ty w] & Hty & Hw).
  apply bind_ok_inv in Hw as (t & _ & Hw).
  apply bind_ok_inv in Hw as (n & Hn%write_string_ok_inv & Hw).
  apply bind_ok_inv in Hw as (b & Hb & Hw).
  apply bind_ok_inv in Hw as (bs' & Hbs & _).
  rewrite <- (written_of_tag _ _ _ Hty) in Hb.
  destruct (Hx _ Hb) as [-> ->]. destruct (IH _ Hbs) as [-> ->].
  rewrite Hn. auto.
Qed.

Lemma written_ok_packable v bs :
  written v = Ok bs -> packable v = true /\ has_none v = false.
Proof.
  revert bs.
  induction v as [| b | z | bits | s | l IH | d IH] using pyval_ind;
    intros bs; cbn [packable has_none]; try (intros _; split; reflexivity).
  - discriminate.
  - unfold written. cbn [write_tag].
    unfold write_byte, write_short, write_int, write_long.
    intros Hw. split; [|reflexivity].
    repeat case_match; cbn [mbind res_bind] in Hw;
      apply pack_signed_ok_inv in Hw; unfold fits in Hw; cbn in Hw;
      apply andb_true_iff; (split; [apply Z.leb_le|apply Z.ltb_lt]); lia.
  - unfold written. cbn. intros Hw%write_string_ok_inv. auto.
  - destruct l as [|x l]; [intros _; split; reflexivity|].
    unfold written. cbn [write_tag].
    remember (write_items write_tag (x :: l)) as items eqn:E.
    intros Hw.
    apply bind_ok_inv in Hw as ([ty w] & Hty & Hw).
    destruct (write_tag x) as [[ft wx]| |]; [|discriminate..].
    cbn [mbind res_bind] in Hty. injection Hty as <- <-.
    apply bind_ok_inv in Hw as (t & _ & Hw).
    apply bind_ok_inv in Hw as (n & Hn%pack_signed_ok_inv%fits_4 & Hw).
    apply bind_ok_inv in Hw as (bs' & Hbs & _). subst items.
    destruct (write_items_ok_packable _ _ IH Hbs) as [-> ->].
    split; [|reflexivity]. rewrite andb_true_r. apply Z.ltb_lt.
    change (length (x :: l)) with (S (length l)). lia.
  - unfold written. cbn [write_tag mbind res_bind]. intros Hw.
    apply bind_ok_inv in Hw as (ebs & He & _).
    exact (write_entries_ok_packable _ _ IH He).
Qed.

(** X3.  [write_root] returns bytes for exactly the trees that have no
    [None] node and whose nodes are within the ranges of [struct]:
    integers of 64 bits, names and strings of at most 32767 bytes of
    UTF-8, lists shorter than 2^31.  On every other tree it raises. *)
Theorem write_root_domain (compound : list (pystr * pyval)) :
  (exists F, write_root (PDict compound) = Ok F)
  <-> packable (PDict compound) = true /\ has_none (PDict compound) = false.
Proof.
  rewrite write_root_written. split.
  - intros [F HF]. apply bind_ok_inv in HF as (bs & Hbs & _).
    exact (written_ok_packable _ _ Hbs).
  - intros [Hpk Hnone]. pose proof (written_packed _ Hpk) as Hw.
    unfold packed in Hw. rewrite Hnone in Hw. destruct Hw as [bs ->].
    eexists. reflexivity.
Qed.

(** ** The reader: what it checks, and what it does not *)

Lemma py_slice_nil {A} (start stop : Z) : py_slice (@nil A) start stop = [].
Proof. unfold py_slice. rewrite drop_nil, take_nil. reflexivity. Qed.

Lemma py_slice_backwards {A} (data : list A) (start stop : Z) :
  0 <= stop <= start -> py_slice data start stop = [].
Proof.
  intros H. unfold py_slice, clamp_index.
  destruct (Z.ltb_spec start 0); [lia|]. destruct (Z.ltb_spec stop 0); [lia|].
  replace (Z.to_nat _) with 0%nat by lia. reflexivity.
Qed.

Lemma Z_of_byte_inj a b : Z_of_byte a = Z_of_byte b -> a = b.
Proof.
  intros H. rewrite <- (byte_of_Z_of_byte a), <- (byte_of_Z_of_byte b), H.
  reflexivity.
Qed.

Lemma read_ubyte_head (b : byte) rest :
  read_ubyte (b :: rest) 0 = Ok (Z_of_byte b, 1).
Proof.
  unfold read_ubyte.
  change (0 + 1) with (0 + Z.of_nat (length [b])).
  rewrite (py_slice_at (b :: rest) 0 [b]) by (exists [], rest; auto).
  unfold unpack_unsigned, be_value. cbn. reflexivity.
Qed.

(** X4.  The one check of [read_root]: a buffer whose first byte is not
    10 (Compound) raises [ValueError], whatever follows; the empty buffer
    raises [struct.error]. *)
Theorem read_root_checks_root_kind `{!Float32} (fuel : nat) :
  read_root [] fuel = Err StructError
  /\ (forall b rest, b <> x0a -> read_root (b :: rest) fuel = Err ValueError).
Proof.
  split.
  - unfold read_root, read_ubyte. rewrite py_slice_nil. reflexivity.
  - intros b rest Hb. unfold read_root. rewrite read_ubyte_head.
    cbn [mbind res_bind].
    destruct (Z.eqb_spec (Z_of_byte b) TAG_Compound) as [E|_]; [|reflexivity].
    exfalso. apply Hb. apply Z_of_byte_inj. exact E.
Qed.

Lemma read_n_const {A} (x : A) (n : nat) (pos : Z) :
  read_n (fun pos => Ok (x, pos)) n pos = Ok (replicate n x, pos).
Proof.
  induction n as [|n IH]; [reflexivity|].
  cbn [read_n mbind res_bind replicate]. rewrite IH. reflexivity.
Qed.

Lemma read_n_ext {A} (f g : Z -> res (A * Z)) n pos :
  (forall p, f p = g p) -> read_n f n pos = read_n g n pos.
Proof.
  intros H. revert pos. induction n as [|n IH]; intros pos; [reflexivity|].
  cbn [read_n]. rewrite H. destruct (g pos) as [[x p]| |]; [|reflexivity..].
  cbn [mbind res_bind]. rewrite IH. reflexivity.
Qed.

(** X5.  A list whose element kind is End (0) or a kind the reader does
    not know takes no bytes for its elements: whatever its length field
    says, that many [None]s are returned, and reading goes on right
    behind the length. *)
Theorem list_of_unknown_kind_reads_nones `{!Float32}
    (data : list byte) (fuel : nat) (pos p1 p2 list_type n : Z) :
  list_type = TAG_End \/ TAG_Long_Array < list_type ->
  read_ubyte data pos = Ok (list_type, p1) ->
  read_int data p1 = Ok (n, p2) ->
  read_tag data (S (S fuel)) TAG_List pos
  = Ok (PList (replicate (Z.to_nat n) PNone), p2).
Proof.
  intros Hk Hty Hlen. rewrite read_tag_list, Hty. cbn [mbind res_bind].
  rewrite Hlen. cbn [mbind res_bind].
  rewrite (read_n_ext _ (fun pos => Ok (PNone, pos))).
  - rewrite read_n_const. reflexivity.
  - intros p. apply unknown_kind_reads_none. tauto.
Qed.

Lemma list_of_unknown_kind_reads_nones_witness :
  @read_tag ieee_widen [x00; x00; x00; x00; x03] 2 TAG_List 0
  = Ok (PList [PNone; PNone; PNone], 5).
Proof.
  apply (@list_of_unknown_kind_reads_nones ieee_widen
           [x00; x00; x00; x00; x03] 0%nat 0 1 5 0 3);
    [left; reflexivity | reflexivity | reflexivity].
Defined.

Lemma read_byte_inside (pre : list byte) (b : byte) suf :
  read_byte (pre ++ b :: suf) (Z.of_nat (length pre))
  = Ok (to_signed 8 (Z_of_byte b), Z.of_nat (length pre) + 1).
Proof.
  unfold read_byte.
  change (Z.of_nat (length pre) + 1)
    with (Z.of_nat (length pre) + Z.of_nat (length [b])) at 1.
  rewrite (py_slice_at (pre ++ b :: suf) _ [b]) by (exists pre, suf; auto).
  reflexivity.
Qed.

(** X6.  The reader can run forever.  Where an entry of a compound is a
    Byte ([01]) whose name has the length -4 ([FF FC]), [read_string]
    returns the empty name and sets the position back by four, the value
    is read from the byte before the entry, and the loop of
    [read_compound] is at the same entry again: no amount of fuel gives a
    result. *)
Theorem negative_name_length_never_returns `{!Float32}
    (data : list byte) (p : Z) :
  1 <= p -> at_pos data p [x01; xff; xfc] ->
  forall fuel compound, read_compound data fuel compound p = NoFuel.
Proof.
  intros Hp Hat fuel.
  apply (at_pos_app data p [x01] [xff; xfc]) in Hat as [Hat1 Hat2].
  assert (Hname : read_string data (p + 1) = Ok (EmptyString, p - 1)).
  { unfold read_string.
    rewrite (read_short_at data (p + 1) (-4) [xff; xfc])
      by (try reflexivity; exact Hat2).
    cbn [mbind res_bind length].
    rewrite py_slice_backwards by lia. cbn. do 2 f_equal. lia. }
  assert (Hval : exists v, read_byte data (p - 1) = Ok (v, p)).
  { destruct Hat1 as (pre & suf & -> & ->).
    destruct (exists_last (l := pre)) as (pre' & b & ->).
    { intros ->. cbn in Hp. lia. }
    rewrite <- app_assoc. cbn [app].
    replace (Z.of_nat (length (pre' ++ [b])) - 1) with (Z.of_nat (length pre'))
      by (rewrite length_app; cbn; lia).
    rewrite read_byte_inside. eexists. do 2 f_equal.
    rewrite length_app. cbn. lia. }
  destruct Hval as [v Hv].
  induction fuel as [|fuel IH]; intros compound; [reflexivity|].
  rewrite read_compound_step.
  rewrite (read_ubyte_at data p 1 [x01]) by (try reflexivity; exact Hat1).
  cbn [mbind res_bind length]. change (1 =? TAG_End) with false. cbn iota.
  change (p + Z.of_nat 1) with (p + 1).
  rewrite Hname. cbn [mbind res_bind].
  destruct fuel as [|fuel']; [reflexivity|].
  rewrite read_tag_byte, Hv. cbn [mbind res_bind]. apply IH.
Qed.

Lemma negative_name_length_never_returns_witness :
  at_pos looping_file 3 [x01; xff; xfc]
  /\ forall fuel, @read_root ieee_widen looping_file fuel = NoFuel.
Proof.
  assert (Hat : at_pos looping_file 3 [x01; xff; xfc]).
  { exists [x0a; x00; x00], []. split; reflexivity. }
  split; [exact Hat|]. intros fuel. unfold read_root.
  change (@read_ubyte looping_file 0) with (@Ok (Z * Z) (10, 1)).
  cbn [mbind res_bind]. change (negb (10 =? TAG_Compound)) with false. cbn iota.
  change (@read_string looping_file 1) with (@Ok (string * Z) (EmptyString, 3)).
  cbn [mbind res_bind].
  rewrite (@negative_name_length_never_returns ieee_widen
             looping_file 3 ltac:(lia) Hat fuel []).
  reflexivity.
Defined.

Lemma list_byte_of_string_nil s : list_byte_of_string s = [] -> s = EmptyString.
Proof.
  intros H. rewrite <- (string_of_list_byte_of_string s), H. reflexivity.
Qed.

(** A file written under a root name decodes to the tree it was written
    from. *)
Lemma named_root_reads_back `{!Float32}
    (compound : list (pystr * pyval)) (name : pystr) :
  canonical (PDict compound) = true -> plain_str name = true ->
  exists bs,
    written (PDict compound) = Ok bs
    /\ write_root_named compound name
       = Ok ([x0a] ++ (be_bytes 2 (Z.of_nat (length (list_byte_of_string name)))
                       ++ list_byte_of_string name) ++ bs)
    /\ (forall fuel, (size (PDict compound) <= fuel)%nat ->
          read_root ([x0a]
                     ++ (be_bytes 2 (Z.of_nat (length (list_byte_of_string name)))
                         ++ list_byte_of_string name) ++ bs) fuel
          = Ok (PDict compound)).
Proof.
  intros Hcan Hname.
  destruct (canonical_packable _ Hcan) as [Hpk Hnone].
  pose proof (written_packed _ Hpk) as Hw. unfold packed in Hw.
  rewrite Hnone in Hw. destruct Hw as [bs Hbs].
  pose proof Hname as Hplain. unfold plain_str in Hname.
  apply andb_true_iff in Hname as [_ Hshort].
  pose proof (write_string_ok _ Hshort) as Hn.
  set (nb := be_bytes 2 (Z.of_nat (length (list_byte_of_string name)))
             ++ list_byte_of_string name) in *.
  assert (Hbody : write_compound compound = Ok bs) by exact Hbs.
  assert (HF : write_root_named compound name = Ok ([x0a] ++ nb ++ bs)).
  { unfold write_root_named. rewrite Hn, Hbody. reflexivity. }
  exists bs. split; [exact Hbs|]. split; [exact HF|].
  intros fuel Hfuel.
  assert (Hf : (S (S (list_sum ((fun kv => S (size (snd kv))) <$> compound)))
                <= fuel)%nat) by exact Hfuel.
  pose proof Hcan as Hcan'. cbn [canonical] in Hcan'.
  apply andb_true_iff in Hcan' as [Hnd%bool_decide_eq_true Hall].
  unfold written in Hbs. cbn [write_tag] in Hbs. cbn [mbind res_bind] in Hbs.
  apply bind_ok_inv in Hbs as (ebs & He & Hbs).
  change (Ok (ebs ++ [x00]) = Ok bs) in Hbs. injection Hbs as <-.
  set (F := [x0a] ++ nb ++ ebs ++ [x00]).
  assert (Hat0 : at_pos F 0 [x0a]) by (exists [], (nb ++ ebs ++ [x00]); auto).
  assert (Hat1 : at_pos F 1 nb) by (exists [x0a], (ebs ++ [x00]); auto).
  assert (Hat3 : at_pos F (1 + Z.of_nat (length nb)) (ebs ++ [x00])).
  { exists ([x0a] ++ nb), []. rewrite app_nil_r, <- app_assoc.
    split; [reflexivity|]. rewrite length_app. cbn [length]. lia. }
  unfold read_root.
  rewrite (read_ubyte_at F 0 10 [x0a]) by (try reflexivity; exact Hat0).
  cbn [mbind res_bind length]. change (10 =? TAG_Compound) with true. cbn [negb].
  change (0 + Z.of_nat 1) with 1.
  rewrite (read_string_at F _ name nb Hplain Hn Hat1).
  cbn [mbind res_bind].
  assert (Hrb : Forall (fun kv => canonical (snd kv) = true -> reads_back (snd kv)) compound).
  { apply Forall_forall. intros kv _. apply canonical_reads_back. }
  rewrite (read_entries_back _ Hrb Hall _ He F _ fuel [] Hat3) by lia.
  cbn [mbind res_bind]. rewrite foldl_dict_set by exact Hnd. reflexivity.
Qed.

(** X7.  The name of the root is read and dropped: a file written under
    any root name decodes to the tree it was written from, and
    [write_root], as the tools call it, writes the empty name, so the
    bytes of a file whose root has a name are not what a save gives
    back. *)
Theorem root_name_read_and_dropped `{!Float32}
    (compound : list (pystr * pyval)) (name : pystr) :
  canonical (PDict compound) = true -> plain_str name = true ->
  exists F, write_root_named compound name = Ok F
    /\ (forall fuel, (size (PDict compound) <= fuel)%nat ->
          read_root F fuel = Ok (PDict compound))
    /\ (name <> EmptyString -> write_root (PDict compound) <> Ok F).
Proof.
  intros Hcan Hname.
  destruct (named_root_reads_back compound name Hcan Hname)
    as (bs & Hbs & HF & Hread).
  eexists. split; [exact HF|]. split; [exact Hread|].
  intros Hne. rewrite write_root_written, Hbs. cbn [mbind res_bind].
  intros E.
  apply (f_equal (fun r => match r with Ok x => length x | _ => 0%nat end)) in E.
  rewrite !length_app in E. rewrite length_be_bytes in E. cbn [length] in E.
  apply Hne, list_byte_of_string_nil, length_zero_iff_nil. lia.
Qed.

Lemma root_name_read_and_dropped_witness :
  exists F, write_root_named [("a", PInt 5)] "Player" = Ok F
    /\ (forall fuel, (4 <= fuel)%nat ->
          @read_root ieee_widen F fuel = Ok (PDict [("a", PInt 5)]))
    /\ write_root (PDict [("a", PInt 5)]) <> Ok F.
Proof.
  destruct (@root_name_read_and_dropped ieee_widen [("a", PInt 5)] "Player"
              ltac:(vm_compute; reflexivity) ltac:(vm_compute; reflexivity))
    as (F & HF & Hread & Hdiff).
  exists F. split; [exact HF|]. split.
  - intros fuel Hfuel. apply Hread. exact Hfuel.
  - apply Hdiff. discriminate.
Defined.

Lemma be_value_range bs : 0 <= be_value bs < 256 ^ Z.of_nat (length bs).
Proof.
  induction bs as [|b bs IH] using rev_ind.
  - cbn. lia.
  - unfold be_value in *. rewrite fold_left_app. cbn [fold_left].
    rewrite length_app. cbn [length]. rewrite Nat2Z.inj_add, Z.pow_add_r by lia.
    pose proof (Z_of_byte_range b). change (256 ^ Z.of_nat 1) with 256. nia.
Qed.

Lemma unpack_signed_range (n : nat) bs z :
  (0 < n)%nat -> unpack_signed n bs = Ok z -> fits n z.
Proof.
  intros Hn. unfold unpack_signed, unpack_unsigned, fits.
  case_decide as Hlen; [|discriminate]. cbn. intros [= <-].
  pose proof (be_value_range bs) as Hr. rewrite Hlen, pow_256 in Hr.
  unfold to_signed.
  assert (Hp : 2 ^ (8 * Z.of_nat n) = 2 * 2 ^ (8 * Z.of_nat n - 1)).
  { rewrite <- Z.pow_succ_r by lia. f_equal. lia. }
  destruct (Z.ltb_spec (be_value bs) (2 ^ (8 * Z.of_nat n - 1))); lia.
Qed.

Section Shape.
Context {float32_inst : Float32}.
Variable data : list byte.

Lemma read_byte_range pos v pos' :
  read_byte data pos = Ok (v, pos') -> int64 v.
Proof.
  unfold read_byte. intros H. apply bind_ok_inv in H as (z & Hz & [= <- _]).
  apply unpack_signed_range in Hz; [|lia]. apply fits_1 in Hz.
  unfold int64. lia.
Qed.

Lemma read_short_range pos v pos' :
  read_short data pos = Ok (v, pos') -> int64 v.
Proof.
  unfold read_short. intros H. apply bind_ok_inv in H as (z & Hz & [= <- _]).
  apply unpack_signed_range in Hz; [|lia]. apply fits_2 in Hz.
  unfold int64. lia.
Qed.

Lemma read_int_range pos v pos' :
  read_int data pos = Ok (v, pos') -> - 2 ^ 31 <= v < 2 ^ 31.
Proof.
  unfold read_int. intros H. apply bind_ok_inv in H as (z & Hz & [= <- _]).
  apply unpack_signed_range in Hz; [|lia]. apply fits_4 in Hz. lia.
Qed.

Lemma read_long_range pos v pos' :
  read_long data pos = Ok (v, pos') -> int64 v.
Proof.
  unfold read_long. intros H. apply bind_ok_inv in H as (z & Hz & [= <- _]).
  apply unpack_signed_range in Hz; [|lia]. exact Hz.
Qed.

Lemma read_string_valid pos s pos' :
  read_string data pos = Ok (s, pos') ->
  utf8_valid (list_byte_of_string s) = true.
Proof.
  unfold read_string. intros H.
  apply bind_ok_inv in H as ([len p] & _ & H).
  apply bind_ok_inv in H as (val & Hval & [= <- _]).
  unfold decode_utf8 in Hval.
  destruct (utf8_valid _) eqn:E; [|discriminate]. injection Hval as <-.
  rewrite list_byte_of_string_of_list_byte. exact E.
Qed.

Lemma read_n_all {A} (P : A -> Prop) (rd : Z -> res (A * Z)) n pos xs pos' :
  (forall p x p', rd p = Ok (x, p') -> P x) ->
  read_n rd n pos = Ok (xs, pos') -> Forall P xs /\ length xs = n.
Proof.
  intros Hrd. revert pos xs pos'.
  induction n as [|n IH]; intros pos xs pos'; cbn [read_n].
  - intros [= <- _]. split; [constructor|reflexivity].
  - intros H. apply bind_ok_inv in H as ([x p] & Hx & H).
    apply bind_ok_inv in H as ([xs' p'] & Hxs & [= <- _]).
    destruct (IH _ _ _ Hxs) as [Hall Hlen]. split.
    + constructor; [exact (Hrd _ _ _ Hx)|exact Hall].
    + cbn. rewrite Hlen. reflexivity.
Qed.

Lemma int64_shape z : int64 z -> decoded_shape (PInt z) = true.
Proof.
  unfold int64. intros H. cbn [decoded_shape].
  apply andb_true_iff. split; [apply Z.leb_le|apply Z.ltb_lt]; lia.
Qed.

Lemma read_ints_shape (rd : Z -> res (Z * Z)) pos v pos' :
  (forall p x p', rd p = Ok (x, p') -> int64 x) ->
  read_ints data rd pos = Ok (v, pos') -> decoded_shape v = true.
Proof.
  intros Hrd. unfold read_ints. intros H.
  apply bind_ok_inv in H as ([len p] & Hlen%read_int_range & H).
  apply bind_ok_inv in H as ([xs p'] & Hxs & [= <- _]).
  destruct (read_n_all _ _ _ _ _ _ Hrd Hxs) as [Hall Hn].
  cbn [decoded_shape]. rewrite length_fmap, Hn.
  apply andb_true_iff. split; [apply Z.ltb_lt; lia|].
  apply forallb_forall. intros x (z & <- & Hz)%in_map_iff.
  rewrite Forall_forall in Hall. apply int64_shape, Hall, list_elem_of_In, Hz.
Qed.

Lemma dict_set_keys_in d k (v : pyval) x :
  x ∈ fst <$> dict_set d k v -> x ∈ fst <$> d \/ x = k.
Proof.
  induction d as [|[a b] d IHd]; cbn [dict_set fmap list_fmap fst].
  - intros Hx%list_elem_of_singleton. auto.
  - case_decide; cbn [fmap list_fmap fst]; intros Hx.
    + left. exact Hx.
    + apply elem_of_cons in Hx as [->|Hx]; [left; left|].
      destruct (IHd Hx) as [?|?]; [left; right; assumption|auto].
Qed.

Lemma dict_set_shape d k v :
  entries_shape d -> utf8_valid (list_byte_of_string k) = true ->
  decoded_shape v = true -> entries_shape (dict_set d k v).
Proof.
  intros [Hnd Hall] Hk Hv.
  induction d as [|[k' v'] d IH]; cbn [dict_set].
  - split; [cbn; apply NoDup_singleton|]. repeat constructor; assumption.
  - cbn [fmap list_fmap fst] in Hnd. apply NoDup_cons in Hnd as [Hk' Hnd].
    inversion Hall as [|? ? [Hk1 Hv1] Hall']; subst. cbn [fst snd] in *.
    case_decide as E.
    + subst k'. split.
      * cbn [fmap list_fmap fst]. apply NoDup_cons. auto.
      * constructor; [split; assumption|exact Hall'].
    + destruct (IH Hnd Hall') as [Hnd' Hall'']. split.
      * cbn [fmap list_fmap fst]. apply NoDup_cons. split; [|exact Hnd'].
        intros Hin. destruct (dict_set_keys_in _ _ _ _ Hin) as [?|?];
          [contradiction|congruence].
      * constructor; [split; assumption|exact Hall''].
Qed.

Lemma entries_shape_decoded d : entries_shape d -> decoded_shape (PDict d) = true.
Proof.
  intros [Hnd Hall]. cbn [decoded_shape]. apply andb_true_iff. split.
  - apply bool_decide_eq_true. exact Hnd.
  - apply forallb_forall. intros kv Hkv. rewrite Forall_forall in Hall.
    destruct (Hall kv (proj2 (list_elem_of_In _ _) Hkv)) as [-> ->]. reflexivity.
Qed.

Lemma read_shapes fuel :
  (forall ty pos v pos',
     read_tag data fuel ty pos = Ok (v, pos') -> decoded_shape v = true)
  /\ (forall acc pos d pos',
        entries_shape acc ->
        read_compound data fuel acc pos = Ok (d, pos') -> entries_shape d).
Proof.
  induction fuel as [|fuel [IHt IHc]]; [split; intros; discriminate|].
  split.
  - intros ty pos v pos'. cbn [read_tag].
    repeat (case_match; [|]).
    all: try (intros [= <- _]; reflexivity).
    all: try (intros Hread;
              apply bind_ok_inv in Hread as ([x p] & Hx & [= <- _])).
    + apply int64_shape. exact (read_byte_range _ _ _ Hx).
    + apply int64_shape. exact (read_short_range _ _ _ Hx).
    + apply int64_shape. apply read_int_range in Hx. unfold int64. lia.
    + apply int64_shape. exact (read_long_range _ _ _ Hx).
    + reflexivity.
    + reflexivity.
    + intros Hread. exact (read_ints_shape _ _ _ _ read_byte_range Hread).
    + cbn [decoded_shape]. exact (read_string_valid _ _ _ Hx).
    + intros Hread. apply bind_ok_inv in Hread as ([lt p1] & _ & Hread).
      apply bind_ok_inv in Hread as ([len p2] & Hlen%read_int_range & Hread).
      apply bind_ok_inv in Hread as ([xs p3] & Hxs & [= <- _]).
      destruct (read_n_all (fun x => decoded_shape x = true)
                  _ _ _ _ _ (IHt lt) Hxs) as [Hall Hn].
      cbn [decoded_shape]. rewrite Hn.
      apply andb_true_iff. split; [apply Z.ltb_lt; lia|].
      apply forallb_forall. intros x Hx. rewrite Forall_forall in Hall.
      apply Hall. apply list_elem_of_In. exact Hx.
    + apply entries_shape_decoded.
      apply (IHc [] pos x p); [|exact Hx]. split; constructor.
    + intros Hread. refine (read_ints_shape _ _ _ _ _ Hread).
      intros p x p' Hx%read_int_range. unfold int64. lia.
    + intros Hread. exact (read_ints_shape _ _ _ _ read_long_range Hread).
  - intros acc pos d pos' Hacc. rewrite read_compound_step. intros Hread.
    apply bind_ok_inv in Hread as ([ty p1] & _ & Hread).
    destruct (ty =? TAG_End); [injection Hread as <- _; exact Hacc|].
    apply bind_ok_inv in Hread as ([name p2] & Hname%read_string_valid & Hread).
    apply bind_ok_inv in Hread as ([v p3] & Hv%IHt & Hread).
    apply (IHc _ _ _ _ (dict_set_shape _ _ _ Hacc Hname Hv) Hread).
Qed.

End Shape.

(** X8.  Whatever buffer [read_root] is given, a tree it returns has no
    [bool] in it, only integers of 64 bits, only strings and names that
    are valid UTF-8, only lists shorter than 2^31, and no name twice in a
    compound (of two entries with one name the later value is kept). *)
Theorem decoded_tree_shape `{!Float32}
    (data : list byte) (fuel : nat) (t : pyval) :
  read_root data fuel = Ok t -> decoded_shape t = true.
Proof.
  unfold read_root. intros Hroot.
  apply bind_ok_inv in Hroot as ([ty p1] & _ & H1).
  destruct (negb _); [discriminate|].
  apply bind_ok_inv in H1 as ([name p2] & _ & H2).
  apply bind_ok_inv in H2 as ([d p3] & Hd & [= <-]).
  apply entries_shape_decoded.
  apply (proj2 (read_shapes data fuel) [] p2 d p3); [|exact Hd].
  split; constructor.
Qed.

(** Two entries named "a" ([01 00 01 61 05] and [01 00 01 61 07]). *)
Lemma decoded_tree_shape_witness :
  @read_root ieee_widen
    [x0a; x00; x00; x01; x00; x01; x61; x05; x01; x00; x01; x61; x07; x00] 3
  = Ok (PDict [("a", PInt 7)])
  /\ decoded_shape (PDict [("a", PInt 7)]) = true.
Proof.
  assert (Hread : @read_root ieee_widen
            [x0a; x00; x00; x01; x00; x01; x61; x05; x01; x00; x01; x61; x07;
             x00] 3
          = Ok (PDict [("a", PInt 7)])) by (vm_compute; reflexivity).
  split; [exact Hread|].
  exact (@decoded_tree_shape ieee_widen _ _ _ Hread).
Defined.

(** ** The splitters of the give-command parser on flat text *)

Lemma append_cons c (s t : string) : String c s +:+ t = String c (s +:+ t).
Proof. reflexivity. Qed.

Lemma append_assoc_str (s t u : string) : (s +:+ t) +:+ u = s +:+ (t +:+ u).
Proof.
  induction s as [|c s IH]; [reflexivity|].
  rewrite !append_cons, IH. reflexivity.
Qed.

Lemma split_comma_cons s : exists first rest, split_comma s = first :: rest.
Proof.
  induction s as [|c s (f & r & IH)]; cbn [split_comma]; [eauto|].
  destruct (Ascii.eqb c ","); [eauto|]. rewrite IH. eauto.
Qed.

Lemma fields_from_split current s :
  fields_from current s
  = match split_comma s with
    | first :: rest => (current +:+ first) :: rest
    | [] => [current]
    end.
Proof.
  revert current. induction s as [|c s IH]; intros current;
    cbn [fields_from split_comma].
  - rewrite append_empty_r. reflexivity.
  - destruct (Ascii.eqb c ",").
    + rewrite append_empty_r, IH.
      destruct (split_comma_cons s) as (f & r & ->). reflexivity.
    + rewrite IH. destruct (split_comma_cons s) as (f & r & ->).
      unfold push. rewrite append_assoc_str. reflexivity.
Qed.

Lemma fields_from_empty s : fields_from EmptyString s = split_comma s.
Proof.
  rewrite fields_from_split. destruct (split_comma_cons s) as (f & r & ->).
  reflexivity.
Qed.

Lemma fields_from_cons current s :
  exists first rest, fields_from current s = first :: rest.
Proof.
  rewrite fields_from_split. destruct (split_comma_cons s) as (f & r & ->).
  eauto.
Qed.

Lemma flat_char c r :
  flat (String c r) = true ->
  is_quote c = false /\ Ascii.eqb c "\" = false /\ is_open c = false
  /\ is_close c = false /\ flat r = true.
Proof.
  cbn [flat]. intros [Hc Hr]%andb_true_iff. apply negb_true_iff in Hc.
  apply orb_false_iff in Hc as [Hc Hclose].
  apply orb_false_iff in Hc as [Hc Hopen].
  apply orb_false_iff in Hc as [Hquote Hback]. auto.
Qed.

Lemma scan_chars_flat s parts current :
  flat s = true ->
  scan_chars (Scan parts current 0 false false) s
  = Scan (parts ++ (PyStr.strip <$> removelast (fields_from current s)))
         (List.last (fields_from current s) EmptyString) 0 false false.
Proof.
  revert parts current. induction s as [|c s IH]; intros parts current Hflat.
  - cbn. rewrite app_nil_r. reflexivity.
  - apply flat_char in Hflat as (Hq & Hb & Ho & Hc & Hflat).
    cbn [scan_chars scan_char fields_from]. rewrite Hb, Hq, Ho, Hc. cbn [negb].
    destruct (Ascii.eqb c ",") eqn:Hcomma.
    + change (0 =? 0) with true. cbn [andb]. rewrite IH by exact Hflat.
      destruct (fields_from_cons EmptyString s) as (f & r & E). rewrite E.
      cbn [removelast List.last fmap list_fmap]. rewrite <- app_assoc.
      reflexivity.
    + cbn [andb]. apply IH. exact Hflat.
Qed.

Lemma scan2_chars_flat s parts current :
  flat s = true ->
  scan2_chars (Scan2 parts current 0 false) s
  = Scan2 (parts ++ (PyStr.strip <$> removelast (fields_from current s)))
          (List.last (fields_from current s) EmptyString) 0 false.
Proof.
  revert parts current. induction s as [|c s IH]; intros parts current Hflat.
  - cbn. rewrite app_nil_r. reflexivity.
  - apply flat_char in Hflat as (Hq & Hb & Ho & Hc & Hflat).
    cbn [scan2_chars scan2_char fields_from]. rewrite Hq, Ho, Hc. cbn [negb].
    destruct (Ascii.eqb c ",") eqn:Hcomma.
    + change (0 =? 0) with true. cbn [andb]. rewrite IH by exact Hflat.
      destruct (fields_from_cons EmptyString s) as (f & r & E). rewrite E.
      cbn [removelast List.last fmap list_fmap]. rewrite <- app_assoc.
      reflexivity.
    + cbn [andb]. apply IH. exact Hflat.
Qed.

Lemma stripped_fields_last (fs : list string) :
  fs <> [] ->
  PyStr.strip
    <$> (if decide (last fs = Some EmptyString) then removelast fs else fs)
  = if decide (List.last fs EmptyString = EmptyString)
    then PyStr.strip <$> removelast fs
    else (PyStr.strip <$> removelast fs)
         ++ [PyStr.strip (List.last fs EmptyString)].
Proof.
  intros Hne. destruct (exists_last Hne) as (l & x & ->).
  rewrite last_snoc, removelast_last, last_last.
  destruct (decide (x = EmptyString)) as [->|Hx].
  - rewrite decide_True by reflexivity. reflexivity.
  - rewrite decide_False by congruence. rewrite fmap_app. reflexivity.
Qed.

(** X9.  On text with no quote, backslash or bracket in it, the splitter
    of [parse_nbt_components] and the one of [parse_nbt_compound] and
    [parse_nbt_list] both cut at every comma: the parts are the fields of
    [s.split(',')], each stripped, except that a last field that is empty
    is left out (an empty field elsewhere is kept as an empty part). *)
Theorem flat_text_split_at_every_comma (s : string) :
  flat s = true ->
  split_components s = stripped_fields s /\ split_nested s = stripped_fields s.
Proof.
  intros Hflat.
  assert (Hne : split_comma s <> []).
  { destruct (split_comma_cons s) as (f & r & ->). discriminate. }
  unfold stripped_fields. rewrite (stripped_fields_last _ Hne). split.
  - unfold split_components, scan_init. rewrite scan_chars_flat by exact Hflat.
    cbn [current parts app]. rewrite fields_from_empty. reflexivity.
  - unfold split_nested. rewrite scan2_chars_flat by exact Hflat.
    cbn [current2 parts2 app]. rewrite fields_from_empty. reflexivity.
Qed.

Lemma flat_text_split_at_every_comma_witness :
  split_components " a=1,, b=2 ," = ["a=1"; EmptyString; "b=2"]
  /\ split_nested "x:1,y:2," = ["x:1"; "y:2"].
Proof.
  destruct (flat_text_split_at_every_comma " a=1,, b=2 ," eq_refl) as [H1 _].
  destruct (flat_text_split_at_every_comma "x:1,y:2," eq_refl) as [_ H2].
  split; (etrans; [eassumption | vm_compute; reflexivity]).
Defined.

(** ** The save of the nbtlib-based editors, in full *)

Lemma undo_restore_lookup path (fs : disk) :
  undo_restore path fs
  = match fs !! undo_name path 1 with
    | Some x => <[path := x]> fs
    | None => fs
    end.
Proof.
  unfold undo_restore, exists_, copy2.
  destruct (fs !! undo_name path 1) as [x|].
  - rewrite bool_decide_eq_true_2 by eauto. reflexivity.
  - rewrite bool_decide_eq_false_2 by (intros [? ?]; discriminate). reflexivity.
Qed.

Section SaveEffect.
Variable UNDO_LIMIT : nat.

(** X10.  What a save leaves on the disk, for any undo chain (gaps and
    a full chain included).  With the player file present, [save_nbt]
    returns; the player file holds the new bytes; [.bak] and [.undo1]
    hold what the player file held; every [.undoK] with 1 < K below the
    limit holds what [.undoK-1] held (or is absent, if that was); the file
    at the limit gets the content of its predecessor and loses its own, or
    keeps its own when there is no predecessor; undo files above the limit
    and all other files are untouched. *)
Theorem save_nbt_effect
    (new_bytes : list byte) (path : string) (fs : disk) (c : list byte) :
  fs !! path = Some c ->
  let fs' := fst (save_nbt UNDO_LIMIT new_bytes path fs) in
  snd (save_nbt UNDO_LIMIT new_bytes path fs) = Ok ()
  /\ fs' !! path = Some new_bytes
  /\ fs' !! (path +:+ ".bak") = Some c
  /\ fs' !! undo_name path 1 = Some c
  /\ (forall K, (1 < K < UNDO_LIMIT)%nat ->
        fs' !! undo_name path K = fs !! undo_name path (K - 1))
  /\ ((1 < UNDO_LIMIT)%nat ->
        fs' !! undo_name path UNDO_LIMIT
        = match fs !! undo_name path (UNDO_LIMIT - 1) with
          | Some x => Some x
          | None => fs !! undo_name path UNDO_LIMIT
          end)
  /\ (forall K, (K = 0 \/ (1 < K /\ UNDO_LIMIT < K))%nat ->
        fs' !! undo_name path K = fs !! undo_name path K)
  /\ (forall q, q <> path -> q <> path +:+ ".bak" ->
        (forall K, q <> undo_name path K) -> fs' !! q = fs !! q).
Proof.
  intros Hc fs'. subst fs'.
  rewrite (save_nbt_succeeds _ _ _ _ _ Hc). cbn [fst snd].
  assert (Hlook : forall k, k <> 1%nat ->
            (<[path := new_bytes]>
               (<[path +:+ ".bak" := c]>
                  (<[undo_name path 1 := c]> (rotate UNDO_LIMIT path fs))))
            !! undo_name path k
            = rotate UNDO_LIMIT path fs !! undo_name path k).
  { intros k Hk.
    rewrite lookup_insert_ne by (intros E; exact (undo_name_not_path _ _ (eq_sym E))).
    rewrite lookup_insert_ne by (intros E; exact (undo_name_not_bak _ _ (eq_sym E))).
    rewrite lookup_insert_ne by (intros E%undo_name_inj; lia). reflexivity. }
  split; [reflexivity|]. split; [apply lookup_insert_eq|].
  split; [|split; [|split; [|split; [|split]]]].
  - rewrite lookup_insert_ne by (intros E; exact (bak_not_path _ (eq_sym E))).
    apply lookup_insert_eq.
  - rewrite lookup_insert_ne by (intros E; exact (undo_name_not_path _ _ (eq_sym E))).
    rewrite lookup_insert_ne by (intros E; exact (undo_name_not_bak _ _ (eq_sym E))).
    apply lookup_insert_eq.
  - intros K HK. rewrite Hlook by lia. rewrite rotate_undo.
    repeat case_decide; try lia; reflexivity.
  - intros HL. rewrite Hlook by lia. rewrite rotate_undo.
    repeat case_decide; try lia; reflexivity.
  - intros K HK. rewrite Hlook by lia. rewrite rotate_undo.
    repeat case_decide; try lia; reflexivity.
  - intros q Hq Hbak Hundo.
    rewrite lookup_insert_ne by congruence.
    rewrite lookup_insert_ne by congruence.
    rewrite lookup_insert_ne by (intros E; exact (Hundo _ (eq_sym E))).
    apply rotate_other. exact Hundo.
Qed.

(** X11.  A save that fails is not without effect.  When the player
    file is missing, [save_nbt] raises [FileNotFoundError] in the backup,
    after the loop of [push_undo]: the undo files have moved up by one,
    and [.undo1] is gone. *)
Theorem failed_save_still_shifts_chain
    (new_bytes : list byte) (path : string) (fs : disk) (u : list byte) :
  (1 < UNDO_LIMIT)%nat -> fs !! path = None ->
  fs !! undo_name path 1 = Some u ->
  let fs' := fst (save_nbt UNDO_LIMIT new_bytes path fs) in
  snd (save_nbt UNDO_LIMIT new_bytes path fs) = Err FileNotFoundError
  /\ fs' !! path = None
  /\ fs' !! undo_name path 1 = None
  /\ fs' !! undo_name path 2 = Some u.
Proof.
  intros HL Hc Hu fs'. subst fs'.
  rewrite (save_nbt_missing _ _ _ _ Hc). cbn [fst snd].
  split; [reflexivity|]. split; [|split].
  - rewrite rotate_other; [exact Hc|].
    intros k E. exact (undo_name_not_path _ _ (eq_sym E)).
  - rewrite rotate_undo. repeat case_decide; try lia; reflexivity.
  - rewrite rotate_undo. repeat case_decide; try lia.
    + exact Hu.
    + change (2 - 1)%nat with 1%nat. assert (UNDO_LIMIT - 1 = 1)%nat as -> by lia.
      rewrite Hu. reflexivity.
Qed.

(** X12.  Undo after a save gives the player file the content it had
    before the save.  It goes back one save and no further: pressing
    Undo a second time changes nothing. *)
Theorem undo_after_save_restores
    (new_bytes : list byte) (path : string) (fs : disk) (c : list byte) :
  fs !! path = Some c ->
  undo_restore path (fst (save_nbt UNDO_LIMIT new_bytes path fs)) !! path
  = Some c
  /\ forall fs0 : disk,
       undo_restore path (undo_restore path fs0) = undo_restore path fs0.
Proof.
  intros Hc. split.
  - rewrite (save_nbt_succeeds _ _ _ _ _ Hc). cbn [fst].
    set (fs1 := <[path := new_bytes]> _).
    assert (H1 : fs1 !! undo_name path 1 = Some c).
    { unfold fs1.
      rewrite lookup_insert_ne by (intros E; exact (undo_name_not_path _ _ (eq_sym E))).
      rewrite lookup_insert_ne by (intros E; exact (undo_name_not_bak _ _ (eq_sym E))).
      apply lookup_insert_eq. }
    rewrite undo_restore_lookup, H1. apply lookup_insert_eq.
  - intros fs0. rewrite !undo_restore_lookup.
    destruct (fs0 !! undo_name path 1) as [x|] eqn:Hx.
    + rewrite lookup_insert_ne
        by (intros E; exact (undo_name_not_path _ _ (eq_sym E))).
      rewrite Hx. apply insert_insert_eq.
    + rewrite Hx. reflexivity.
Qed.

End SaveEffect.

(** Under a limit of 2 the chain of [two_undos] is full: the content of
    [.undo2] is lost. *)
Lemma save_nbt_effect_witness :
  two_undos !! "p.dat" = Some [x01]
  /\ fst (save_nbt 2 [x09] "p.dat" two_undos) !! "p.dat" = Some [x09]
  /\ fst (save_nbt 2 [x09] "p.dat" two_undos) !! "p.dat.bak" = Some [x01]
  /\ fst (save_nbt 2 [x09] "p.dat" two_undos) !! undo_name "p.dat" 1
     = Some [x01]
  /\ fst (save_nbt 2 [x09] "p.dat" two_undos) !! undo_name "p.dat" 2
     = Some [x02].
Proof.
  assert (H0 : two_undos !! "p.dat" = Some [x01]) by reflexivity.
  pose proof (save_nbt_effect 2 [x09] "p.dat" two_undos [x01] H0) as H.
  cbv zeta in H. destruct H as (_ & Hnew & Hbak & Hfirst & _ & Hlimit & _).
  split; [exact H0|]. split; [exact Hnew|]. split; [exact Hbak|].
  split; [exact Hfirst|].
  etrans; [exact (Hlimit ltac:(lia)) | reflexivity].
Defined.

Lemma failed_save_still_shifts_chain_witness :
  orphan_undo !! "p.dat" = None
  /\ orphan_undo !! undo_name "p.dat" 1 = Some [x02]
  /\ snd (save_nbt 8 [x09] "p.dat" orphan_undo) = Err FileNotFoundError
  /\ fst (save_nbt 8 [x09] "p.dat" orphan_undo) !! undo_name "p.dat" 1 = None
  /\ fst (save_nbt 8 [x09] "p.dat" orphan_undo) !! undo_name "p.dat" 2
     = Some [x02].
Proof.
  assert (H0 : orphan_undo !! "p.dat" = None) by reflexivity.
  assert (H1 : orphan_undo !! undo_name "p.dat" 1 = Some [x02]) by reflexivity.
  pose proof (failed_save_still_shifts_chain 8 [x09] "p.dat" orphan_undo [x02]
                ltac:(lia) H0 H1) as H.
  cbv zeta in H. destruct H as (Hraise & _ & Hgone & Hmoved).
  repeat split; assumption.
Defined.

Lemma undo_after_save_restores_witness :
  two_undos !! "p.dat" = Some [x01]
  /\ undo_restore "p.dat" (fst (save_nbt 8 [x09] "p.dat" two_undos)) !! "p.dat"
     = Some [x01].
Proof.
  assert (H0 : two_undos !! "p.dat" = Some [x01]) by reflexivity.
  split; [exact H0|].
  exact (proj1 (undo_after_save_restores 8 [x09] "p.dat" two_undos [x01] H0)).
Defined.

(** ** Strings: ends and lengths *)

Lemma rev_app_append (s t u : string) :
  String.rev_app s (t +:+ u) = String.rev_app s t +:+ u.
Proof.
  revert t. induction s as [|c s IH]; intros t; cbn [String.rev_app];
    [reflexivity|].
  rewrite <- append_cons. apply IH.
Qed.

Lemma rev_cons c (s : string) :
  String.rev (String c s) = String.rev s +:+ String c EmptyString.
Proof.
  unfold String.rev. cbn [String.rev_app].
  change (String c EmptyString) with (EmptyString +:+ String c EmptyString).
  apply rev_app_append.
Qed.

Lemma rev_append (s t : string) :
  String.rev (s +:+ t) = String.rev t +:+ String.rev s.
Proof.
  induction s as [|c s IH].
  - change (EmptyString +:+ t) with t. rewrite append_empty_r. reflexivity.
  - rewrite append_cons, !rev_cons, IH, append_assoc_str. reflexivity.
Qed.

Lemma rev_involutive (s : string) : String.rev (String.rev s) = s.
Proof.
  induction s as [|c s IH]; [reflexivity|].
  rewrite rev_cons, rev_append, IH. reflexivity.
Qed.

Lemma prefix_cons c p c' s :
  String.prefix (String c p) (String c' s)
  = if Ascii.ascii_dec c c' then String.prefix p s else false.
Proof. reflexivity. Qed.

Lemma prefix_split (p s : string) :
  String.prefix p s = true -> exists x, s = p +:+ x.
Proof.
  revert s. induction p as [|c p IH]; intros s.
  - intros _. exists s. reflexivity.
  - destruct s as [|c' s]; [intros; discriminate|].
    rewrite prefix_cons.
    destruct (Ascii.ascii_dec c c') as [->|]; [|intros; discriminate].
    intros [x ->]%IH. exists x. reflexivity.
Qed.

Lemma endswith_split (s p : string) :
  PyStr.endswith s p = true -> exists x, s = x +:+ p.
Proof.
  unfold PyStr.endswith. intros [x Hx]%prefix_split.
  exists (String.rev x).
  rewrite <- (rev_involutive s), Hx, rev_append, rev_involutive. reflexivity.
Qed.

Lemma length_append (s t : string) :
  String.length (s +:+ t) = (String.length s + String.length t)%nat.
Proof.
  induction s as [|c s IH]; [reflexivity|].
  rewrite append_cons. cbn [String.length]. rewrite IH. reflexivity.
Qed.

Lemma substring_append (s t : string) :
  String.substring 0 (String.length s) (s +:+ t) = s.
Proof.
  induction s as [|c s IH].
  - destruct t; reflexivity.
  - rewrite append_cons. cbn [String.length String.substring]. rewrite IH.
    reflexivity.
Qed.

Lemma drop_end_append (x p : string) :
  PyStr.drop_end (String.length p) (x +:+ p) = x.
Proof.
  unfold PyStr.drop_end, PyStr.slice_to. rewrite length_append.
  replace (String.length x + String.length p - String.length p)%nat
    with (String.length x) by lia.
  apply substring_append.
Qed.

Lemma endswith_dat f :
  PyStr.endswith f ".dat" = true -> f = PyStr.drop_end 4 f +:+ ".dat".
Proof.
  intros [x ->]%endswith_split.
  change 4%nat with (String.length ".dat").
  rewrite (drop_end_append x ".dat"). reflexivity.
Qed.

(** ** The player list of [nbtviewer.py] *)

Section ViewerList.
Context {json_inst : Json}.

Lemma player_rows_some users files :
  NbtCore.player_rows (Some users) files
  = Ok ((fun f => (dict_get users (PyStr.drop_end 4 f)
                     (PStr (PyStr.drop_end 4 f)),
                   PyStr.drop_end 4 f,
                   NbtCore.PLAYERDATA_DIR +:+ "/" +:+ f)) <$> files).
Proof.
  induction files as [|f files IH]; [reflexivity|].
  cbn [NbtCore.player_rows]. rewrite IH. reflexivity.
Qed.

Lemma list_player_files_dat listing f :
  f ∈ list_player_files listing -> PyStr.endswith f ".dat" = true.
Proof.
  destruct listing as [names|]; cbn [list_player_files];
    [|intros Hf; inversion Hf].
  rewrite merge_sort_Permutation. intros [Hf _]%list_elem_of_filter.
  apply Is_true_true. exact Hf.
Qed.

(** X13.  [list_players] of [nbtviewer.py] returns for every state of
    [usercache.json] (absent, not JSON, JSON of any shape) and of the
    directory: there is one row for every name of the directory that
    ends in [.dat], the rows are in the sorted order of these names, and
    a row holds the identifier (the name without [.dat]), the path of the
    file, and the cached name when the identifier is a key of the cache,
    the identifier itself when it is not. *)
Theorem viewer_lists_every_player_file
    (fs : disk) (listing : option (list string)) :
  exists rows,
    list_players_viewer fs listing = Ok rows
    /\ Forall2 (fun f row =>
         f = snd (fst row) +:+ ".dat"
         /\ snd row = NbtCore.PLAYERDATA_DIR +:+ "/" +:+ f
         /\ fst (fst row)
            = dict_get (load_usercache_viewer fs) (snd (fst row))
                (PStr (snd (fst row))))
       (list_player_files listing) rows
    /\ list_player_files listing
       ≡ₚ filter (fun f => PyStr.endswith f ".dat") (default [] listing)
    /\ Sorted String.le (list_player_files listing).
Proof.
  eexists. split; [apply player_rows_some|]. split; [|split].
  - apply Forall2_fmap_r, Forall_Forall2_diag, Forall_forall.
    intros f Hf%list_player_files_dat. cbn [fst snd].
    split; [apply endswith_dat; exact Hf|]. split; reflexivity.
  - destruct listing as [names|]; cbn [list_player_files default];
      [apply merge_sort_Permutation|reflexivity].
  - destruct listing as [names|]; cbn [list_player_files];
      [apply (Sorted_merge_sort _)|constructor].
Qed.

End ViewerList.

(** ** The usercache of the nbtlib-based editors as a map *)

Lemma dict_get_set_eq d k (v dflt : pyval) :
  dict_get (dict_set d k v) k dflt = v.
Proof.
  induction d as [|[k' v'] d IH]; cbn [dict_set dict_get].
  - rewrite decide_True by reflexivity. reflexivity.
  - case_decide as E; cbn [dict_get].
    + rewrite decide_True by exact E. reflexivity.
    + rewrite decide_False by exact E. exact IH.
Qed.

Lemma dict_get_set_ne d k k' (v dflt : pyval) :
  k <> k' -> dict_get (dict_set d k v) k' dflt = dict_get d k' dflt.
Proof.
  intros Hne. induction d as [|[k0 v0] d IH]; cbn [dict_set dict_get].
  - rewrite decide_False by exact Hne. reflexivity.
  - case_decide as E; cbn [dict_get].
    + subst k0. rewrite !decide_False by exact Hne. reflexivity.
    + case_decide; [reflexivity|exact IH].
Qed.

Lemma has_key_get d k v :
  dict_get d k PNone = v -> v <> PNone -> NbtCore.has_key d k = true.
Proof.
  unfold NbtCore.has_key. induction d as [|[k' v'] d IH]; cbn [dict_get existsb].
  - congruence.
  - intros Hget Hv. case_decide as E.
    + cbn [fst]. rewrite bool_decide_eq_true_2 by exact E. reflexivity.
    + rewrite (IH Hget Hv). apply orb_true_r.
Qed.

Section CacheMap.
Context {json_inst : Json}.

Lemma cache_entries_last data users :
  Forall (fun e => is_Some (cache_entry e)) data ->
  exists users',
    NbtCore.cache_entries data users = Ok users'
    /\ forall uuid dflt,
         dict_get users' uuid dflt
         = match last_name data uuid with
           | Some name => name
           | None => dict_get users uuid dflt
           end.
Proof.
  intros Hdata. revert users.
  induction Hdata as [|e data [[u name] He] _ IH]; intros users.
  - exists users. split; reflexivity.
  - cbn [NbtCore.cache_entries last_name]. rewrite He.
    unfold cache_entry in He. destruct e as [| | | | | |d]; try discriminate.
    destruct (dict_get d "uuid" PNone) as [| | | |u'| |] eqn:Hu; try discriminate.
    destruct (NbtCore.has_key d "name") eqn:Hn; [|discriminate].
    injection He as -> <-.
    cbn [NbtCore.mentions_both mbind res_bind].
    rewrite (has_key_get d "uuid" (PStr u) Hu) by discriminate. rewrite Hn.
    cbn [andb].
    destruct (IH (dict_set users u (dict_get d "name" PNone)))
      as (users' & Hrun & Hget).
    exists users'. split; [exact Hrun|]. intros uuid dflt. rewrite Hget.
    destruct (last_name data uuid); [reflexivity|].
    case_decide as E.
    + subst uuid. apply dict_get_set_eq.
    + apply dict_get_set_ne. exact E.
Qed.

(** X14.  The cache of the nbtlib-based editors is a map built entry by
    entry: when [usercache.json] is a list of objects with a string under
    "uuid" and a value under "name", the name the map has for an
    identifier is the name of the last entry with that identifier, and
    the map has no name for an identifier that no entry has.
    ([nbtcore.py] and [nbtviewer.py] build the same map.) *)
Theorem cache_last_entry_wins
    (fs : disk) (text : list byte) (data : list pyval) :
  fs !! NbtCore.USERCACHE = Some text ->
  json_load text = Some (PList data) ->
  Forall (fun e => is_Some (cache_entry e)) data ->
  NbtCore.load_usercache fs = Some (load_usercache_viewer fs)
  /\ forall uuid dflt,
       dict_get (load_usercache_viewer fs) uuid dflt
       = default dflt (last_name data uuid).
Proof.
  intros Hfs Htext Hdata.
  destruct (cache_entries_last data [] Hdata) as (users & Hrun & Hget).
  unfold NbtCore.load_usercache, load_usercache_viewer.
  rewrite Hfs, Htext. cbn [NbtCore.cache_dict]. rewrite Hrun.
  split; [reflexivity|]. intros uuid dflt. rewrite Hget.
  destruct (last_name data uuid); reflexivity.
Qed.

End CacheMap.

(** A reader that knows one text, a cache with two entries for the
    identifier "u1". *)
Lemma cache_last_entry_wins_witness :
  let data := [PDict [("name", PStr "Old"); ("uuid", PStr "u1")];
               PDict [("name", PStr "New"); ("uuid", PStr "u1")]] in
  let json : Json := fun _ => Some (PList data) in
  @load_usercache_viewer json {[ NbtCore.USERCACHE := [x5b] ]}
  = [("u1", PStr "New")]
  /\ dict_get (@load_usercache_viewer json {[ NbtCore.USERCACHE := [x5b] ]})
       "u1" PNone
     = PStr "New".
Proof.
  intros data json. split; [reflexivity|].
  refine (proj2 (@cache_last_entry_wins json {[ NbtCore.USERCACHE := [x5b] ]}
                   [x5b] data eq_refl eq_refl _) "u1" PNone).
  repeat constructor; eexists; reflexivity.
Defined.

(** ** Slots: the automatic slot, and the removals *)

Section SlotMoves.
Context {py_int_inst : PyInt} {tag_eq_inst : TagEq}
        {py_builtins_inst : PyBuiltins}.


Lemma slots_kept_cons keep it inv :
  slots_kept keep (it :: inv)
  = if passes keep it then it :: slots_kept keep inv else slots_kept keep inv.
Proof.
  unfold slots_kept. rewrite filter_cons.
  destruct (passes keep it);
    [rewrite decide_True by exact I|rewrite decide_False by exact id];
    reflexivity.
Qed.

Lemma keep_slots_filter keep inv :
  readable inv -> keep_slots keep inv = Ok (slots_kept keep inv).
Proof.
  unfold readable.
  induction 1 as [|it inv [s Hs] _ IH]; [reflexivity|].
  cbn [keep_slots]. rewrite Hs, IH. cbn [mbind res_bind].
  rewrite slots_kept_cons. unfold passes. rewrite Hs. reflexivity.
Qed.

Lemma keep_slots_unreadable keep inv :
  ~ readable inv -> keep_slots keep inv = Err TypeError.
Proof.
  unfold readable. induction inv as [|it inv IH]; intros Hn.
  - exfalso. apply Hn. constructor.
  - cbn [keep_slots]. destruct (slot_of it) as [s|] eqn:Hs; [|reflexivity].
    rewrite IH; [reflexivity|]. intros Hall. apply Hn. constructor; [eauto|exact Hall].
Qed.


Lemma slots_kept_all keep inv :
  Forall (fun it => passes keep it = true) inv -> slots_kept keep inv = inv.
Proof.
  induction 1 as [|it inv Hit _ IH]; [reflexivity|].
  rewrite slots_kept_cons, Hit, IH. reflexivity.
Qed.



Lemma slots_kept_twice keep1 keep2 inv :
  slots_kept keep2 (slots_kept keep1 inv)
  = slots_kept (fun s => keep1 s && keep2 s) inv.
Proof.
  induction inv as [|it inv IH]; [reflexivity|].
  rewrite !slots_kept_cons. unfold passes.
  destruct (slot_of it) as [s|] eqn:Hs; [|exact IH].
  destruct (keep1 s); cbn [andb]; [|exact IH].
  rewrite slots_kept_cons. unfold passes. rewrite Hs, IH. reflexivity.
Qed.

Lemma slots_kept_readable keep inv : readable inv -> readable (slots_kept keep inv).
Proof.
  unfold readable, slots_kept. intros H. apply Forall_forall.
  intros it [_ Hin]%list_elem_of_filter. rewrite Forall_forall in H. auto.
Qed.

Lemma slots_kept_ext keep1 keep2 inv :
  (forall s, keep1 s = keep2 s) -> slots_kept keep1 inv = slots_kept keep2 inv.
Proof.
  intros H. unfold slots_kept. apply list_filter_iff. intros it. unfold passes.
  destruct (slot_of it); [rewrite H|]; reflexivity.
Qed.

Lemma assign_kept_twice keep1 keep2 inv :
  assign_kept keep2 (fst (assign_kept keep1 inv))
  = assign_kept (fun s => keep1 s && keep2 s) inv.
Proof.
  unfold assign_kept.
  destruct (decide (Forall (fun it => is_Some (slot_of it)) inv))
    as [Hread|Hunread].
  - rewrite !(keep_slots_filter _ _ Hread). cbn [fst].
    rewrite (keep_slots_filter _ _ (slots_kept_readable _ _ Hread)).
    rewrite slots_kept_twice. reflexivity.
  - rewrite !(keep_slots_unreadable _ _ Hunread). reflexivity.
Qed.

Lemma assign_kept_ext keep1 keep2 inv :
  (forall s, keep1 s = keep2 s) -> assign_kept keep1 inv = assign_kept keep2 inv.
Proof.
  intros H. unfold assign_kept.
  assert (E : keep_slots keep1 inv = keep_slots keep2 inv).
  { induction inv as [|it inv IH]; [reflexivity|].
    cbn [keep_slots]. destruct (slot_of it) as [s|]; [|reflexivity].
    rewrite IH, H. reflexivity. }
  rewrite E. reflexivity.
Qed.

(** X16.  The removals of the armor menu compose: clearing the armor
    (slots 36 to 39) and then the offhand (slot 40), in either order,
    leaves the list that clearing both at once leaves, with the same
    outcome; and where the slot of every element can be read, what is
    left are the elements with a slot outside 36..40, in their order. *)
Theorem clearing_armor_then_offhand_clears_all (inv : list tag) :
  clear_offhand (fst (clear_armor inv)) = clear_armor_and_offhand inv
  /\ clear_armor (fst (clear_offhand inv)) = clear_armor_and_offhand inv
  /\ (readable inv ->
      clear_armor_and_offhand inv
      = (slots_kept (fun s => negb (between 36 s 40)) inv, Ok ())).
Proof.
  unfold clear_offhand, clear_armor, clear_armor_and_offhand.
  rewrite !assign_kept_twice. repeat split.
  - apply assign_kept_ext. intros s. unfold between.
    destruct (Z.leb_spec 36 s), (Z.leb_spec s 39), (Z.leb_spec s 40),
      (Z.eqb_spec s 40); cbn; try reflexivity; lia.
  - apply assign_kept_ext. intros s. unfold between.
    destruct (Z.leb_spec 36 s), (Z.leb_spec s 39), (Z.leb_spec s 40),
      (Z.eqb_spec s 40); cbn; try reflexivity; lia.
  - intros Hread. unfold assign_kept. rewrite (keep_slots_filter _ _ Hread).
    reflexivity.
Qed.

Lemma slots_kept_length keep inv :
  (length (slots_kept keep inv) <= length inv)%nat
  /\ ((length (slots_kept keep inv) < length inv)%nat
      <-> Exists (fun it => passes keep it = false) inv).
Proof.
  induction inv as [|it inv [IHle IH]].
  - split; [reflexivity|]. split; [cbn; lia|]. intros H. inversion H.
  - rewrite slots_kept_cons. destruct (passes keep it) eqn:Hp; cbn [length].
    + split; [lia|]. rewrite Exists_cons. split.
      * intros Hlt. right. apply IH. lia.
      * intros [?|Hex]; [congruence|]. apply IH in Hex. lia.
    + split; [lia|]. rewrite Exists_cons. split; [auto|lia].
Qed.

(** X17.  [remove_item_from_list] tells what it did.  For a line of
    digits that [int] reads as [slot], and a list in which the slot of
    every element can be read: the list is left with the elements of
    another slot, in their order, and the message is "Removed." exactly
    when some element had the slot; otherwise it is "No item in that
    slot." and the list is as before. *)
Theorem remove_reports_what_it_did
    (inv : list tag) (line : string) (slot : Z) :
  py_isdigit (PyStr.strip line) = true ->
  py_int (PyStr.strip line) = Some slot ->
  readable inv ->
  exists report,
    remove_item_from_list inv line
    = (slots_kept (fun s => negb (s =? slot)) inv, Ok report)
    /\ ((report = Removed /\ Exists (fun it => slot_of it = Some slot) inv)
        \/ (report = NoItemInSlot
            /\ ~ Exists (fun it => slot_of it = Some slot) inv
            /\ slots_kept (fun s => negb (s =? slot)) inv = inv)).
Proof.
  intros Hdigit Hint Hread. unfold remove_item_from_list.
  rewrite Hdigit, Hint. cbn [negb]. rewrite (keep_slots_filter _ _ Hread).
  eexists. split; [reflexivity|].
  set (keep := fun s => negb (s =? slot)).
  assert (Hsame : forall it, it ∈ inv ->
            (passes keep it = false <-> slot_of it = Some slot)).
  { intros it Hin. unfold readable in Hread. rewrite Forall_forall in Hread.
    destruct (Hread it Hin) as [s Hs]. unfold passes, keep. rewrite Hs.
    rewrite negb_false_iff, Z.eqb_eq. split; congruence. }
  assert (Hex : Exists (fun it => passes keep it = false) inv
                <-> Exists (fun it => slot_of it = Some slot) inv).
  { rewrite !Exists_exists. split; intros (it & Hin & Hit); exists it;
      (split; [exact Hin|]); apply (Hsame it Hin); exact Hit. }
  destruct (slots_kept_length keep inv) as [Hle Hlt].
  destruct (Nat.ltb_spec (length (slots_kept keep inv)) (length inv)) as [Hl|Hl].
  - left. split; [reflexivity|]. apply Hex, Hlt. exact Hl.
  - right. split; [reflexivity|].
    assert (Hnone : ~ Exists (fun it => passes keep it = false) inv).
    { intros Hx%Hlt. lia. }
    split; [rewrite <- Hex; exact Hnone|].
    apply slots_kept_all. apply Forall_forall. intros it Hin.
    destruct (passes keep it) eqn:Hp; [reflexivity|].
    exfalso. apply Hnone. apply Exists_exists. eauto.
Qed.

End SlotMoves.


Lemma remove_reports_what_it_did_witness :
  let inv := [TCompound [("Slot", TByte 0)]; TCompound [("Slot", TByte 2)]] in
  @remove_item_from_list integer_tags_only ascii_digits inv " 2"
  = ([TCompound [("Slot", TByte 0)]], Ok Removed).
Proof.
  intros inv.
  destruct (@remove_reports_what_it_did integer_tags_only ascii_digits
              inv " 2" 2 eq_refl eq_refl)
    as (report & Hrun & [[-> _]|[_ [Hnone _]]]).
  - repeat constructor; eexists; reflexivity.
  - etrans; [exact Hrun|]. vm_compute. reflexivity.
  - exfalso. apply Hnone. apply Exists_cons_tl, Exists_cons_hd. reflexivity.
Defined.

(** ** Players by id and by name, and the file of a player *)

Lemma remove_twice c (s : string) :
  PyStr.remove c (PyStr.remove c s) = PyStr.remove c s.
Proof.
  induction s as [|c' s IH]; cbn [PyStr.remove]; [reflexivity|].
  destruct (Ascii.eqb c' c) eqn:E; [exact IH|].
  cbn [PyStr.remove]. rewrite E, IH. reflexivity.
Qed.

Lemma prefix_append (p x : string) : String.prefix p (p +:+ x) = true.
Proof.
  induction p as [|c p IH]; [destruct x; reflexivity|].
  rewrite append_cons, prefix_cons.
  destruct (Ascii.ascii_dec c c) as [_|E]; [exact IH|contradiction].
Qed.

Section Lookup.
Context {json_inst : Json} {py_libs_inst : PyLibs}.

Lemma find_name_first pre d post u q :
  Forall (fun e => other_player q e = true) pre ->
  dict_get d "uuid" (PStr EmptyString) = PStr u ->
  NbtLib.normalise u = NbtLib.normalise q ->
  NbtLib.find_name (pre ++ PDict d :: post) (NbtLib.normalise q)
  = Ok (dict_get d "name" (PStr "Unknown")).
Proof.
  intros Hpre Hu Heq. induction Hpre as [|e pre He _ IH]; cbn [app NbtLib.find_name].
  - rewrite Hu, decide_True by exact Heq. reflexivity.
  - unfold other_player in He. destruct e as [| | | | | |d']; try discriminate.
    destruct (dict_get d' "uuid" (PStr EmptyString)); try discriminate.
    apply negb_true_iff, bool_decide_eq_false in He.
    rewrite decide_False by exact He. exact IH.
Qed.

(** X18.  [get_player_name] compares ids with the dashes removed and the
    case folded, on both sides, and answers with the first entry of the
    cache that matches: its name, or [Unknown] when the entry has none.
    So an id asked with or without dashes finds the same player. *)
Theorem player_name_first_match (fs : disk) (uuid u : string)
    (pre post : list pyval) (d : list (pystr * pyval)) :
  NbtLib.load_usercache fs = Ok (PList (pre ++ PDict d :: post)) ->
  Forall (fun e => other_player uuid e = true) pre ->
  dict_get d "uuid" (PStr EmptyString) = PStr u ->
  NbtLib.normalise u = NbtLib.normalise uuid ->
  NbtLib.get_player_name fs uuid = Ok (dict_get d "name" (PStr "Unknown"))
  /\ NbtLib.get_player_name fs (PyStr.remove "-" uuid)
     = NbtLib.get_player_name fs uuid.
Proof.
  intros Hload Hpre Hu Heq. split.
  - unfold NbtLib.get_player_name. rewrite Hload. cbn [mbind res_bind].
    apply (find_name_first pre d post u uuid Hpre Hu Heq).
  - unfold NbtLib.get_player_name, NbtLib.normalise.
    rewrite remove_twice. reflexivity.
Qed.

Lemma find_uuid_first pre d post n u name :
  Forall (fun e => other_name name e = true) pre ->
  dict_get d "name" (PStr EmptyString) = PStr n ->
  py_lower n = py_lower name ->
  dict_get d "uuid" (PStr EmptyString) = PStr u ->
  NbtLib.find_uuid (pre ++ PDict d :: post) name = Ok (Some (py_lower u)).
Proof.
  intros Hpre Hn Heq Hu. induction Hpre as [|e pre He _ IH]; cbn [app NbtLib.find_uuid].
  - rewrite Hn, decide_True by exact Heq. rewrite Hu. reflexivity.
  - unfold other_name in He. destruct e as [| | | | | |d']; try discriminate.
    destruct (dict_get d' "name" (PStr EmptyString)); try discriminate.
    apply negb_true_iff, bool_decide_eq_false in He.
    rewrite decide_False by exact He. exact IH.
Qed.

End Lookup.

Lemma player_name_first_match_witness :
  @NbtLib.get_player_name json_two_players ascii_libs cache_only "bbbb-0002"
  = Ok (PStr "Steve")
  /\ @NbtLib.get_player_name json_two_players ascii_libs cache_only "bbbb0002"
     = Ok (PStr "Steve").
Proof.
  destruct (@player_name_first_match json_two_players ascii_libs cache_only
              "bbbb-0002" "BBBB-0002"
              [PDict [("name", PStr "Alex"); ("uuid", PStr "AAAA-0001")]]
              [PDict [("name", PStr "Late"); ("uuid", PStr "bbbb0002")]]
              [("name", PStr "Steve"); ("uuid", PStr "BBBB-0002")]
              ltac:(reflexivity)
              ltac:(repeat constructor)
              ltac:(reflexivity) ltac:(reflexivity)) as [H1 H2].
  split; [exact H1|]. etrans; [exact H2|exact H1].
Defined.

Section LoadFacts.
Context {json_inst : Json} {py_libs_inst : PyLibs} {float32_inst : Float32}
        {load_libs_inst : LoadLibs} {save_libs_inst : SaveLibs}.

Lemma resolve_first_path (fs : disk) (identifier : string) :
  is_Some (fs !! first_path identifier) ->
  NbtLib.resolve_dat_file fs identifier = Ok (first_path identifier).
Proof.
  unfold NbtLib.resolve_dat_file, first_path, NbtLib.path_exists.
  destruct (PyStr.endswith identifier ".dat"); [reflexivity|].
  intros Hex. cbn zeta.
  rewrite (bool_decide_eq_true_2 _ Hex). cbn [negb].
  rewrite (bool_decide_eq_true_2 _ Hex). reflexivity.
Qed.

(** X19.  What [save_player_data] writes, [load_player_data] reads back:
    after a tree in the decoder's range is saved to the file of an
    identifier (the file [identifier] when it ends in [.dat], else
    [identifier.dat]), loading that identifier returns the same tree with
    that path, and the name the cache has for the stem of the path.  The
    one fact used of [gzip] is that it reads what it compressed. *)
Theorem saved_player_data_loads_back (compound : list (pystr * pyval))
    (identifier : string) (fs : disk) (old : list byte) :
  (forall bs, gzip_read (gzip_compress bs) = Ok bs) ->
  canonical (PDict compound) = true ->
  fs !! first_path identifier = Some old ->
  let saved := save_player_data (PDict compound) (first_path identifier) fs in
  saved.2 = Ok (with_suffix_dat_bak (first_path identifier))
  /\ forall fuel, (size (PDict compound) <= fuel)%nat ->
       NbtLib.load_player_data fuel identifier saved.1
       = (player_name ← NbtLib.get_player_name saved.1
                           (path_stem (first_path identifier));
          Ok (Some (PDict compound, first_path identifier, player_name))).
Proof.
  intros Hgzip Hcan Hold.
  destruct (named_root_reads_back compound EmptyString Hcan eq_refl)
    as (bs & _ & HF & Hread).
  unfold save_player_data, write_root. rewrite HF, Hold. cbn [fst snd].
  split; [reflexivity|].
  intros fuel Hfuel. unfold NbtLib.load_player_data.
  rewrite resolve_first_path
    by (rewrite lookup_insert_eq; eexists; reflexivity).
  cbn [mbind res_bind]. rewrite lookup_insert_eq, Hgzip.
  cbn [mbind res_bind]. rewrite (Hread fuel Hfuel). reflexivity.
Qed.

(** X20.  Loading by player name: when the identifier does not end in
    [.dat] and neither [identifier.dat] nor the file of the identifier
    with dashes removed and case folded exists, the cache is asked, and
    the first entry whose name equals the identifier up to case gives the
    file: the one named after its id in lower case, dashes kept.  The
    answer is that of loading this file by its name. *)
Theorem load_by_player_name (fuel : nat) (identifier n u : string) (fs : disk)
    (pre post : list pyval) (d : list (pystr * pyval)) :
  PyStr.endswith identifier ".dat" = false ->
  fs !! joinpath (identifier +:+ ".dat") = None ->
  fs !! joinpath (NbtLib.normalise identifier +:+ ".dat") = None ->
  NbtLib.load_usercache fs = Ok (PList (pre ++ PDict d :: post)) ->
  Forall (fun e => other_name identifier e = true) pre ->
  dict_get d "name" (PStr EmptyString) = PStr n ->
  py_lower n = py_lower identifier ->
  dict_get d "uuid" (PStr EmptyString) = PStr u ->
  py_lower u <> EmptyString ->
  NbtLib.load_player_data fuel identifier fs
  = NbtLib.load_player_data fuel (py_lower u +:+ ".dat") fs.
Proof.
  intros Hend Hno1 Hno2 Hload Hpre Hn Heq Hu Hne.
  unfold NbtLib.load_player_data. f_equal.
  unfold NbtLib.resolve_dat_file. rewrite Hend.
  assert (Hdat : PyStr.endswith (py_lower u +:+ ".dat") ".dat" = true).
  { unfold PyStr.endswith. rewrite rev_append. apply prefix_append. }
  rewrite Hdat.
  unfold NbtLib.path_exists. rewrite Hno1.
  rewrite (bool_decide_eq_false_2 (is_Some None)) by (intros [? ?]; discriminate).
  cbn [negb]. rewrite Hno2.
  rewrite (bool_decide_eq_false_2 (is_Some None)) by (intros [? ?]; discriminate).
  cbn [negb]. unfold NbtLib.get_player_uuid. rewrite Hload. cbn [mbind res_bind].
  rewrite (find_uuid_first pre d post n u identifier Hpre Hn Heq Hu).
  cbn [mbind res_bind]. rewrite decide_False by exact Hne. reflexivity.
Qed.

End LoadFacts.

Lemma saved_player_data_loads_back_witness :
  let saved :=
    @save_player_data plain_save_libs (PDict [("Health", PInt 20)]) steve_path
      (<[ steve_path := [x00] ]> ∅) in
  saved.2 = Ok (steve_path +:+ ".bak")
  /\ @NbtLib.load_player_data json_empty_array_only ascii_libs ieee_widen
       plain_load_libs 4 "steve" saved.1
     = Ok (Some (PDict [("Health", PInt 20)], steve_path, PStr "Unknown")).
Proof.
  destruct (@saved_player_data_loads_back json_empty_array_only ascii_libs
              ieee_widen plain_load_libs plain_save_libs
              [("Health", PInt 20)] "steve" (<[ steve_path := [x00] ]> ∅) [x00]
              ltac:(reflexivity) ltac:(vm_compute; reflexivity)
              ltac:(reflexivity)) as [Hsave Hload].
  split; [exact Hsave|].
  etrans; [exact (Hload 4%nat ltac:(vm_compute; lia))|]. reflexivity.
Defined.

Lemma load_by_player_name_witness :
  @NbtLib.load_player_data json_two_players ascii_libs ieee_widen
    plain_load_libs 4 "STEVE" steve_file
  = Ok (Some (PDict [("Health", PInt 20)],
              "/opt/minecraft/server/world/playerdata/bbbb-0002.dat",
              PStr "Steve")).
Proof.
  etrans.
  - exact (@load_by_player_name json_two_players ascii_libs ieee_widen
             plain_load_libs 4 "STEVE" "Steve" "BBBB-0002" steve_file
             [PDict [("name", PStr "Alex"); ("uuid", PStr "AAAA-0001")]]
             [PDict [("name", PStr "Late"); ("uuid", PStr "bbbb0002")]]
             [("name", PStr "Steve"); ("uuid", PStr "BBBB-0002")]
             ltac:(reflexivity) ltac:(reflexivity) ltac:(reflexivity)
             ltac:(reflexivity) ltac:(repeat constructor)
             ltac:(reflexivity) ltac:(reflexivity) ltac:(reflexivity)
             ltac:(discriminate)).
  - reflexivity.
Defined.

(** ** The give and write prompts of [nbt_tool.py] *)

Section Prompts.
Context {py_builtins_inst : PyBuiltins} {value_parser_inst : ValueParser}
        {py_libs_inst : PyLibs} {float_eq_inst : FloatEq}
        {save_libs_inst : SaveLibs} {py_float_inst : NbtTool.PyFloat}.

(** X21.  The give prompt, by the way it ends.  When it reports an item
    given, the inventory was a list, the item went to its end with the
    lowest slot of the range (0-35, ender chest 0-26) that no element
    of the list has, the rest of the player data is as before, and the
    player file holds the compressed encoding of the new data.  When the
    line is empty, the answer is not [y] or no slot is free, neither the
    data nor the disk changes; when an exception is printed the disk is
    as before. *)
Theorem give_item_effect (data : list (pystr * pyval)) (dat_file : string)
    (is_enderchest : bool) (give_cmd confirm : string) (fs : disk) :
  let inv_key := if is_enderchest then "EnderItems" else "Inventory" in
  let max_slot := if is_enderchest then 27 else 36 in
  let '(data', fs', report) :=
    NbtTool.handle_give_item data dat_file is_enderchest give_cmd confirm fs in
  match report with
  | NbtTool.Gave empty_slot backup =>
      exists inventory item F,
        dict_get data inv_key (PList []) = PList inventory
        /\ data' = dict_set data inv_key (PList (inventory ++ [PDict item]))
        /\ dict_get item "Slot" PNone = PInt empty_slot
        /\ 0 <= empty_slot < max_slot
        /\ ~ occupied_item inventory empty_slot
        /\ (forall s, 0 <= s < empty_slot -> occupied_item inventory s)
        /\ write_root (PDict data') = Ok F
        /\ fs' !! dat_file = Some (gzip_compress F)
        /\ backup = with_suffix_dat_bak dat_file
  | NbtTool.NoCommand | NbtTool.Declined | NbtTool.InventoryFull =>
      data' = data /\ fs' = fs
  | NbtTool.ErrorPrinted _ | NbtTool.NoReturn => fs' = fs
  end.
Proof.
  unfold NbtTool.handle_give_item.
  case_decide; [split; reflexivity|].
  destruct (parse_give_command (PyStr.strip give_cmd))
    as [[[item_id count] components]|e|]; [|reflexivity..].
  case_decide; [|split; reflexivity].
  set (inv_key := if is_enderchest then "EnderItems" else "Inventory").
  set (max_slot := if is_enderchest then 27%nat else 36%nat).
  destruct (dict_get data inv_key (PList [])) as [| | | |s|inventory|d] eqn:Hinv;
    try reflexivity.
  - destruct s; reflexivity.
  - destruct (find_empty_slot inventory max_slot) as [[empty_slot|]|e|] eqn:Hfind;
      [| split; reflexivity | reflexivity..].
    set (item := dict_set (NbtTool.item_of_command item_id count components)
                   "Slot" (PInt empty_slot)).
    set (data' := dict_set data inv_key (PList (inventory ++ [PDict item]))).
    unfold save_player_data.
    destruct (write_root (PDict data')) as [F| |] eqn:HF; [|reflexivity..].
    destruct (fs !! dat_file) as [old|] eqn:Hold; [|reflexivity].
    exists inventory, item, F.
    split; [reflexivity|]. split; [reflexivity|].
    split; [apply dict_get_set_eq|].
    unfold find_empty_slot in Hfind.
    destruct (used_slots inventory) as [used| |] eqn:Hused; try discriminate.
    cbn [mbind res_bind] in Hfind. injection Hfind as Hfind.
    apply first_free_some in Hfind as (Hr & Hfree & Hbelow).
    assert (Hmax : Z.of_nat max_slot = if is_enderchest then 27 else 36)
      by (unfold max_slot; destruct is_enderchest; reflexivity).
    split; [lia|]. split.
    { intros Hocc. apply (eq_slot_used _ _ _ (proj1 Hr) Hused) in Hocc.
      congruence. }
    split.
    { intros s Hs. apply (eq_slot_used inventory used s); [lia|exact Hused|].
      apply Hbelow. lia. }
    split; [exact HF|]. split; [apply lookup_insert_eq|reflexivity].
  - destruct d; reflexivity.
Qed.

Lemma write_entries_out_of_range (data : list (pystr * pyval)) (k : pystr)
    (z : Z) bs :
  write_entries write_tag data = Ok bs ->
  is_Some (NbtTool.dict_find data k) -> ~ fits 8 z ->
  write_entries write_tag (dict_set data k (PInt z)) = Err StructError.
Proof.
  intros Hw Hk Hz. revert bs Hw Hk.
  induction data as [|[k' v'] data IH]; intros bs Hw Hk;
    cbn [NbtTool.dict_find] in Hk; [destruct Hk; discriminate|].
  cbn [write_entries] in Hw.
  apply bind_ok_inv in Hw as ([ty wr] & Htag & Hw).
  apply bind_ok_inv in Hw as (t & Ht & Hw).
  apply bind_ok_inv in Hw as (nm & Hnm & Hw).
  apply bind_ok_inv in Hw as (b & Hb & Hw).
  apply bind_ok_inv in Hw as (rest & Hrest & _).
  cbn [dict_set]. case_decide as E.
  - cbn [write_entries write_tag].
    assert (H1 : between (-128) z 127 = false).
    { destruct (between_spec (-128) z 127) as [[_ H]|[H _]]; [|exact H].
      exfalso. apply Hz. unfold fits.
      change (2 ^ (8 * Z.of_nat 8 - 1)) with 9223372036854775808. lia. }
    assert (H2 : between (-32768) z 32767 = false).
    { destruct (between_spec (-32768) z 32767) as [[_ H]|[H _]]; [|exact H].
      exfalso. apply Hz. unfold fits.
      change (2 ^ (8 * Z.of_nat 8 - 1)) with 9223372036854775808. lia. }
    assert (H4 : between (-2147483648) z 2147483647 = false).
    { destruct (between_spec (-2147483648) z 2147483647) as [[_ H]|[H _]]; [|exact H].
      exfalso. apply Hz. unfold fits.
      change (2 ^ (8 * Z.of_nat 8 - 1)) with 9223372036854775808. lia. }
    rewrite H1, H2, H4. cbn [mbind res_bind].
    change (write_ubyte TAG_Long) with (Ok [x04] : res (list byte)).
    cbn [mbind res_bind]. rewrite Hnm. cbn [mbind res_bind].
    unfold write_long. rewrite (pack_signed_err 8 z Hz). reflexivity.
  - cbn [write_entries]. rewrite Htag. cbn [mbind res_bind].
    rewrite Ht. cbn [mbind res_bind]. rewrite Hnm. cbn [mbind res_bind].
    rewrite Hb. cbn [mbind res_bind].
    rewrite (IH rest Hrest Hk). reflexivity.
Qed.

(** X22.  An integer outside the 64-bit range typed at the write prompt
    is not caught: when the data is writable as loaded and the field
    holds an integer, [int] accepts the text, the field is set in the
    data, [write_root] raises [struct.error], which is no [ValueError],
    and the call raises it.  The disk is as before. *)
Theorem out_of_range_integer_escapes (data : list (pystr * pyval))
    (dat_file field new_value_str : string) (fs : disk)
    (old z : Z) (F : list byte) :
  write_root (PDict data) = Ok F ->
  NbtTool.dict_find data (PyStr.strip field) = Some (PInt old) ->
  py_int (PyStr.strip new_value_str) = Some z ->
  ~ fits 8 z ->
  NbtTool.handle_write data dat_file field new_value_str fs
  = (dict_set data (PyStr.strip field) (PInt z), fs,
     NbtTool.Raised StructError).
Proof.
  intros HF Hfield Hint Hz. unfold NbtTool.handle_write.
  rewrite Hfield, Hint. unfold save_player_data.
  unfold write_root, write_root_named, write_compound in HF |- *.
  cbn [mbind res_bind] in HF |- *.
  apply bind_ok_inv in HF as (t & _ & HF).
  apply bind_ok_inv in HF as (n & _ & HF).
  apply bind_ok_inv in HF as (b & HF & _).
  apply bind_ok_inv in HF as (bs & Hbs & _).
  rewrite (write_entries_out_of_range data _ z bs Hbs) by (rewrite ?Hfield; eauto).
  reflexivity.
Qed.

End Prompts.

Lemma out_of_range_integer_escapes_witness :
  @NbtTool.handle_write ascii_digits no_floats plain_save_libs
    [("XpLevel", PInt 3)] "p.dat" " XpLevel " "9223372036854775808" two_undos
  = ([("XpLevel", PInt 9223372036854775808)], two_undos,
     NbtTool.Raised StructError).
Proof.
  eapply (@out_of_range_integer_escapes ascii_digits plain_save_libs no_floats
            [("XpLevel", PInt 3)] "p.dat" " XpLevel " "9223372036854775808"
            two_undos 3 9223372036854775808).
  - vm_compute. reflexivity.
  - reflexivity.
  - vm_compute. reflexivity.
  - unfold fits. change (2 ^ (8 * Z.of_nat 8 - 1)) with 9223372036854775808. lia.
Defined.
